(** * logsearchapi/server/db.go: ingestion and search over the audit-log tables

    A shallow embedding of the database client of the log search API
    ([InsertEvent], [Search], [iPtrToStr], the functions that create and check
    the tables and their partitions, and the table and query templates they
    use), with the properties of the query builder, of the transactional write
    path, of the exporters and of the schema set-up proved over it. *)

From Stdlib Require Import ZArith List String Ascii Bool Lia.
From Stdlib Require Import Floats.SpecFloat.
Import ListNotations.
Open Scope list_scope.
Open Scope string_scope.
Open Scope Z_scope.

(** ** Go's [int] and [int64]: 64-bit two's complement *)

Module GoInt.

Definition int_min : Z := - 2 ^ 63.
Definition int_max : Z := 2 ^ 63 - 1.

(** Wrap-around of a mathematical integer into the 64-bit signed range. *)
Definition wrap (z : Z) : Z := (z + 2 ^ 63) mod 2 ^ 64 - 2 ^ 63.

Definition add (a b : Z) : Z := wrap (a + b).
Definition mul (a b : Z) : Z := wrap (a * b).

End GoInt.

(** ** Strings: the part of [fmt.Sprintf] and [strings.Join] the file uses *)

Module Fmt.

Definition digit_char (d : Z) : ascii := ascii_of_N (Z.to_N (48 + d)).

(** Decimal digits of a non-negative number, most significant first, pushed in
    front of [acc]; [fuel] bounds the number of digits. *)
Fixpoint dec_digits (fuel : nat) (n : Z) (acc : string) : string :=
  match fuel with
  | O => acc
  | S f =>
      let acc' := String (digit_char (n mod 10)) acc in
      if n / 10 =? 0 then acc' else dec_digits f (n / 10) acc'
  end.

Definition dec (n : Z) : string := dec_digits (S (Z.to_nat (Z.log2 n))) n "".

(** The verb [%d] on an integer. *)
Definition fmt_d (z : Z) : string :=
  if z <? 0 then String "-" (dec (- z)) else dec z.

Inductive fmt_arg : Type :=
| FS (s : string)
| FD (z : Z).

(** One verb applied to one operand. The file only formats strings with [%s]
    and [%v] and integers with [%d]; any other pair is a bad verb. *)
Definition fmt_verb (v : ascii) (a : fmt_arg) : string :=
  match a with
  | FS s => if (Ascii.eqb v "s" || Ascii.eqb v "v")%bool then s
            else "%!" ++ String v "(string=" ++ s ++ ")"
  | FD z => if (Ascii.eqb v "d" || Ascii.eqb v "v")%bool then fmt_d z
            else "%!" ++ String v "(int=" ++ fmt_d z ++ ")"
  end.

(** [fmt.Sprintf]: text is copied, [%%] is a percent sign, every other [%x]
    consumes the next operand. *)
Fixpoint Sprintf (t : string) (args : list fmt_arg) : string :=
  match t with
  | "" => ""
  | String c t1 =>
      if Ascii.eqb c "%" then
        match t1 with
        | "" => "%!(NOVERB)"
        | String v t2 =>
            if Ascii.eqb v "%" then String "%" (Sprintf t2 args)
            else match args with
                 | a :: args' => fmt_verb v a ++ Sprintf t2 args'
                 | [] => "%!" ++ String v "(MISSING)" ++ Sprintf t2 []
                 end
        end
      else String c (Sprintf t1 args)
  end.

(** The texts in which the character [x] does not occur. *)
Fixpoint lacks (x : ascii) (s : string) : bool :=
  match s with
  | "" => true
  | String c s' => (negb (Ascii.eqb c x) && lacks x s')%bool
  end.

(** [strings.Join]. *)
Definition Join (l : list string) (sep : string) : string := String.concat sep l.

End Fmt.

(** ** Positional placeholders of a query text

    A placeholder is a dollar sign followed by at least one decimal digit; the
    scanner returns the numbers of the placeholders of a text, left to right. *)

Module Placeholders.

Definition digit_of (c : ascii) : option Z :=
  let n := Z.of_N (N_of_ascii c) in
  if ((48 <=? n) && (n <=? 57))%bool then Some (n - 48) else None.

Inductive scan_state : Type :=
| Idle
| Dollar
| Num (n : Z).

Definition flush (st : scan_state) : list Z :=
  match st with
  | Num n => [n]
  | _ => []
  end.

Fixpoint scan (st : scan_state) (s : string) : list Z :=
  match s with
  | "" => flush st
  | String c s' =>
      match digit_of c with
      | Some d =>
          match st with
          | Idle => scan Idle s'
          | Dollar => scan (Num d) s'
          | Num n => scan (Num (10 * n + d)) s'
          end
      | None =>
          (flush st ++ scan (if Ascii.eqb c "$" then Dollar else Idle) s')%list
      end
  end.

Definition placeholders (s : string) : list Z := scan Idle s.

(** A text that is empty or starts with a character that is not a digit. *)
Definition nd_start (s : string) : bool :=
  match s with
  | "" => true
  | String c _ => match digit_of c with Some _ => false | None => true end
  end.

(** Value of a run of digits read after the value [v]. *)
Fixpoint eat (v : Z) (ds : string) : Z :=
  match ds with
  | "" => v
  | String c s => match digit_of c with
                  | Some d => eat (10 * v + d) s
                  | None => v
                  end
  end.

Fixpoint all_digits (ds : string) : bool :=
  match ds with
  | "" => true
  | String c s => match digit_of c with Some _ => all_digits s | None => false end
  end.

(** The numbers [d], [d+1], ..., [d+k-1]. *)
Definition zseq (d : Z) (k : nat) : list Z :=
  List.map (fun i => d + Z.of_nat i) (List.seq 0 k).

End Placeholders.

(** ** [float64] as IEEE 754 binary64, and [time.Duration] *)

Module Float64.

Definition prec : Z := 53.
Definition emax : Z := 1024.

(** [float64(z)] of an integer: the nearest binary64 number, ties to even. *)
Definition of_int (z : Z) : spec_float := binary_normalize prec emax z 0 false.

Definition add : spec_float -> spec_float -> spec_float := SFadd prec emax.
Definition div : spec_float -> spec_float -> spec_float := SFdiv prec emax.

(** [int64(f)]: the fraction is discarded (truncation toward zero). For a value
    that does not fit (or a NaN) Go leaves the result to the implementation;
    the amd64 conversion instruction gives the smallest [int64]. *)
Definition to_int64 (f : spec_float) : Z :=
  match f with
  | S754_zero _ => 0
  | S754_finite s m e =>
      let a := match e with
               | Zneg p => Zpos m / 2 ^ Zpos p
               | _ => Zpos m * 2 ^ e
               end in
      let v := if s then - a else a in
      if ((GoInt.int_min <=? v) && (v <=? GoInt.int_max))%bool then v
      else GoInt.int_min
  | _ => GoInt.int_min
  end.

End Float64.

Module Duration.

(** [time.Second], in nanoseconds. *)
Definition Second : Z := 1000000000.

(** [Duration.Seconds] of the [time] package:
    [sec := d / Second; nsec := d % Second;
     return float64(sec) + float64(nsec)/1e9]. *)
Definition Seconds (d : Z) : spec_float :=
  let sec := Z.quot d Second in
  let nsec := Z.rem d Second in
  Float64.add (Float64.of_int sec)
              (Float64.div (Float64.of_int nsec) (Float64.of_int 1000000000)).

End Duration.

(** ** Data model *)

(** Types declared outside db.go that the file only passes around. *)
Class Carrier : Type := {
  time_Time : Type;     (* time.Time *)
  FilterParams : Type;  (* the type of SearchQuery.FParams *)
  DbRow : Type;         (* one row under a sql.Rows cursor *)
  JsonObject : Type;    (* map[string]interface{} *)
  EventRest : Type      (* the fields of an event that InsertEvent does not read *)
}.

(** A value passed to the database as a positional argument. *)
Inductive SqlArg `{Carrier} : Type :=
| ArgString (s : string)
| ArgInt (z : Z)
| ArgTime (t : time_Time)
| ArgBytes (b : string)
| ArgUint64Ptr (p : option Z).

(** A Go [error], by its message. *)
Definition error : Type := string.

Inductive result (A : Type) : Type :=
| Ok (a : A)
| Err (e : error).
Arguments Ok {A} a.
Arguments Err {A} e.

Record Table : Type := mkTable {
  Name : string;
  CreateStatement : string
}.

Definition nl : string := String (ascii_of_nat 10) "".
Definition tab : string := String (ascii_of_nat 9) "".

Fixpoint sp (n : nat) : string :=
  match n with
  | O => ""
  | S k => String " " (sp k)
  end.

(** [QTemplate.build]. *)
Definition build (t : string) (args : list string) : string :=
  Fmt.Sprintf t (List.map Fmt.FS args).

Definition auditLogEventsCreate : string :=
  Eval vm_compute in
    "CREATE TABLE IF NOT EXISTS %s (" ++ nl ++
    sp 36 ++ "event_time TIMESTAMPTZ NOT NULL," ++ nl ++
    sp 36 ++ "log JSONB NOT NULL" ++ nl ++
    sp 34 ++ ") PARTITION BY RANGE (event_time);".

Definition auditLogEventsTable : Table :=
  mkTable "audit_log_events" auditLogEventsCreate.

Definition requestInfoCreate : string :=
  Eval vm_compute in
      "CREATE TABLE IF NOT EXISTS %s (" ++ nl ++
      sp 36 ++ "time TIMESTAMPTZ NOT NULL," ++ nl ++
      sp 36 ++ "api_name TEXT NOT NULL," ++ nl ++
      sp 36 ++ "access_key TEXT," ++ nl ++
      sp 36 ++ "bucket TEXT," ++ nl ++
      sp 36 ++ "object TEXT," ++ nl ++
      sp 36 ++ "time_to_response_ns INT8," ++ nl ++
      sp 36 ++ "remote_host TEXT," ++ nl ++
      sp 36 ++ "request_id TEXT," ++ nl ++
      sp 36 ++ "user_agent TEXT," ++ nl ++
      sp 36 ++ "response_status TEXT," ++ nl ++
      sp 36 ++ "response_status_code INT8," ++ nl ++
      sp 36 ++ "request_content_length INT8," ++ nl ++
      sp 36 ++ "response_content_length INT8" ++ nl ++
      sp 34 ++ ") PARTITION BY RANGE (time);".

Definition requestInfoTable : Table :=
  mkTable "request_info" requestInfoCreate.

Definition getCreateStatement (t : Table) : string :=
  build (CreateStatement t) [Name t].

(** The columns a table declares, read off its create statement: the first
    word of every line between the opening line and the closing one. *)
Fixpoint lines_aux (cur : string) (s : string) : list string :=
  match s with
  | "" => [cur]
  | String c s' =>
      if Ascii.eqb c (ascii_of_nat 10) then cur :: lines_aux "" s'
      else lines_aux (cur ++ String c "") s'
  end.

Definition lines (s : string) : list string := lines_aux "" s.

Fixpoint ltrim (s : string) : string :=
  match s with
  | String c s' => if Ascii.eqb c " " then ltrim s' else s
  | "" => ""
  end.

Fixpoint first_word (s : string) : string :=
  match s with
  | String c s' =>
      if (Ascii.eqb c " " || Ascii.eqb c ",")%bool then "" else String c (first_word s')
  | "" => ""
  end.

Definition columnsOf (t : Table) : list string :=
  let body := List.tl (lines (CreateStatement t)) in
  List.map (fun l => first_word (ltrim l)) (List.removelast body).

(** The query templates of [InsertEvent] and [Search]. *)
Definition insertAuditLogEvent : string :=
  "INSERT INTO %s (event_time, log) VALUES ($1, $2);".

Definition insertRequestInfo : string :=
  Eval vm_compute in
    "INSERT INTO %s (time," ++ nl ++
    sp 65 ++ "api_name," ++ nl ++
    sp 65 ++ "access_key," ++ nl ++
    sp 65 ++ "bucket," ++ nl ++
    sp 65 ++ "object," ++ nl ++
    sp 65 ++ "time_to_response_ns," ++ nl ++
    sp 65 ++ "remote_host," ++ nl ++
    sp 65 ++ "request_id," ++ nl ++
    sp 65 ++ "user_agent," ++ nl ++
    sp 65 ++ "response_status," ++ nl ++
    sp 65 ++ "response_status_code," ++ nl ++
    sp 65 ++ "request_content_length," ++ nl ++
    sp 65 ++ "response_content_length)" ++ nl ++
    sp 51 ++ "VALUES ($1, $2, $3, $4, $5, $6, $7, $8, $9, $10, $11, $12, $13);".

Definition logEventSelect : string :=
  Eval vm_compute in
    "SELECT event_time," ++ nl ++
    sp 51 ++ "log" ++ nl ++
    sp 46 ++ "FROM %s" ++ nl ++
    sp 45 ++ "%s" ++ nl ++
    sp 42 ++ "ORDER BY event_time %s" ++ nl ++
    sp 44 ++ "%s;".

Definition reqInfoSelect : string :=
  Eval vm_compute in
    "SELECT time," ++ nl ++
    sp 50 ++ "api_name," ++ nl ++
    sp 50 ++ "access_key," ++ nl ++
    sp 50 ++ "bucket," ++ nl ++
    sp 50 ++ "object," ++ nl ++
    sp 50 ++ "time_to_response_ns," ++ nl ++
    sp 50 ++ "remote_host," ++ nl ++
    sp 50 ++ "request_id," ++ nl ++
    sp 50 ++ "user_agent," ++ nl ++
    sp 50 ++ "response_status," ++ nl ++
    sp 50 ++ "response_status_code," ++ nl ++
    sp 50 ++ "request_content_length," ++ nl ++
    sp 50 ++ "response_content_length" ++ nl ++
    sp 45 ++ "FROM %s" ++ nl ++
    sp 44 ++ "%s" ++ nl ++
    sp 41 ++ tab ++ "ORDER BY time %s" ++ nl ++
    sp 43 ++ tab ++ "%s;".

(** *** Events (the struct is declared outside db.go; the fields are those
    [InsertEvent] reads) *)

Record API : Type := mkAPI {
  api_Name : string;
  api_AccessKey : string;
  api_Bucket : string;
  api_Object : string;
  api_TimeToResponse : Z;
  api_Status : string;
  api_StatusCode : Z
}.

Record Event `{Carrier} : Type := mkEvent {
  ev_Time : time_Time;
  ev_API : API;
  ev_RemoteHost : string;
  ev_RequestID : string;
  ev_UserAgent : string;
  ev_rest : EventRest
}.
Arguments mkEvent {_} _ _ _ _ _ _.

(** *** Rows *)

Record logEventRawRow `{Carrier} : Type := mkLogEventRawRow {
  raw_EventTime : time_Time;
  raw_Log : string
}.
Arguments mkLogEventRawRow {_} _ _.

Record LogEventRow `{Carrier} : Type := mkLogEventRow {
  EventTime : time_Time;
  Log : JsonObject
}.
Arguments mkLogEventRow {_} _ _.

Record ReqInfoRow `{Carrier} : Type := mkReqInfoRow {
  Time : time_Time;
  APIName : string;
  AccessKey : string;
  Bucket : string;
  Object : string;
  TimeToResponseNs : Z;
  RemoteHost : string;
  RequestID : string;
  UserAgent : string;
  ResponseStatus : string;
  ResponseStatusCode : Z;
  RequestContentLength : option Z;
  ResponseContentLength : option Z
}.
Arguments mkReqInfoRow {_} _ _ _ _ _ _ _ _ _ _ _ _ _.

(** *** Search requests (declared outside db.go; the fields are those [Search]
    reads) *)

Inductive qType : Type :=
| rawQ
| reqInfoQ
| otherQ (name : string).

Record SearchQuery `{Carrier} : Type := mkSearchQuery {
  Query : qType;
  TimeStart : option time_Time;
  TimeEnd : option time_Time;
  LastDuration : option Z;
  FParams : FilterParams;
  TimeAscending : bool;
  ExportFormat : string;
  PageNumber : Z;
  PageSize : Z
}.
Arguments mkSearchQuery {_} _ _ _ _ _ _ _ _ _.

(** A value handed to a JSON encoder. *)
Inductive JsonDoc `{Carrier} : Type :=
| JLogEvent (r : LogEventRow)
| JLogEvents (l : list LogEventRow)
| JReqInfo (r : ReqInfoRow)
| JReqInfos (l : list ReqInfoRow).

(** *** What db.go calls and does not define: helpers of the package declared
    in other files, the standard library and the database. *)
Class Externals `{Carrier} : Type := {
  formatRFC3339Nano : time_Time -> string;
  generateFilterClauses : FilterParams -> Z -> list string * list SqlArg * Z;
  isEmptyEvent : string -> bool;
  parseJSONEvent : string -> result Event;
  jsonMarshalEvent : Event -> result string;
  getRequestContentLength : Event -> result Z;
  getResponseContentLength : Event -> result Z;
  QueryContext : string -> list SqlArg -> result (list DbRow);
  scanLogEventRaw : DbRow -> result logEventRawRow;
  scanReqInfo : DbRow -> result ReqInfoRow;
  jsonUnmarshalLog : string -> result JsonObject;
  jsonMarshal : JsonDoc -> result string
}.

(** ** [Search]: building the query *)

Section QueryBuilder.
Context `{X : Externals}.

(** [fmt.Errorf] with one operand printed by [%v]. *)
Definition Errorf (t : string) (e : error) : error := Fmt.Sprintf t [Fmt.FS e].

Definition timeOrder (s : SearchQuery) : string :=
  if TimeAscending s then "ASC" else "DESC".

(** [int64(s.LastDuration.Seconds())]. *)
Definition durationSeconds (d : Z) : Z := Float64.to_int64 (Duration.Seconds d).

(** The statements of [case rawQ:] from [sqlArgs := ...] to the call of
    [logEventSelect.build]: the where clauses, the where clause, the paging
    clause, the query text and its arguments. *)
Definition rawWhere (s : SearchQuery) : list string * list SqlArg * Z :=
  let sqlArgs : list SqlArg := [] in
  let dollarStart := 1 in
  let whereClauses : list string := [] in
  let '(sqlArgs, whereClauses, dollarStart) :=
    match TimeStart s with
    | Some t =>
        let timeRangeClause := Fmt.Sprintf "event_time >= $%d" [Fmt.FD dollarStart] in
        ((sqlArgs ++ [ArgString (formatRFC3339Nano t)])%list,
         (whereClauses ++ [timeRangeClause])%list,
         GoInt.add dollarStart 1)
    | None => (sqlArgs, whereClauses, dollarStart)
    end in
  let '(sqlArgs, whereClauses, dollarStart) :=
    match TimeEnd s with
    | Some t =>
        let timeRangeClause := Fmt.Sprintf "event_time < $%d" [Fmt.FD dollarStart] in
        ((sqlArgs ++ [ArgString (formatRFC3339Nano t)])%list,
         (whereClauses ++ [timeRangeClause])%list,
         GoInt.add dollarStart 1)
    | None => (sqlArgs, whereClauses, dollarStart)
    end in
  let whereClauses :=
    match LastDuration s with
    | Some d =>
        let timeRangeClause :=
          Fmt.Sprintf "event_time >= CURRENT_TIMESTAMP - '%d seconds'::interval"
                      [Fmt.FD (durationSeconds d)] in
        (whereClauses ++ [timeRangeClause])%list
    | None => whereClauses
    end in
  let '(filterClauses, filterArgs, dollarStart) :=
    generateFilterClauses (FParams s) dollarStart in
  let whereClauses := (whereClauses ++ filterClauses)%list in
  let sqlArgs := (sqlArgs ++ filterArgs)%list in
  (whereClauses, sqlArgs, dollarStart).

Definition rawQuery (s : SearchQuery) : string * list SqlArg :=
  let '(whereClauses, sqlArgs, dollarStart) := rawWhere s in
  let whereClause := Fmt.Join whereClauses " AND " in
  let whereClause :=
    if (0 <? Z.of_nat (List.length whereClauses))
    then Fmt.Sprintf "WHERE %s" [Fmt.FS whereClause] else whereClause in
  let '(sqlArgs, pagingClause) :=
    if String.eqb (ExportFormat s) "" then
      ((sqlArgs ++ [ArgInt (GoInt.mul (PageNumber s) (PageSize s)); ArgInt (PageSize s)])%list,
       Fmt.Sprintf "OFFSET $%d LIMIT $%d"
                   [Fmt.FD dollarStart; Fmt.FD (GoInt.add dollarStart 1)])
    else (sqlArgs, "") in
  (build logEventSelect [Name auditLogEventsTable; whereClause; timeOrder s; pagingClause],
   sqlArgs).

(** The same statements of [case reqInfoQ:]. *)
Definition reqInfoWhere (s : SearchQuery) : list string * list SqlArg * Z :=
  let sqlArgs : list SqlArg := [] in
  let dollarStart := 1 in
  let whereClauses : list string := [] in
  let '(sqlArgs, whereClauses, dollarStart) :=
    match TimeStart s with
    | Some t =>
        let timeRangeClause := Fmt.Sprintf "time >= $%d" [Fmt.FD dollarStart] in
        ((sqlArgs ++ [ArgString (formatRFC3339Nano t)])%list,
         (whereClauses ++ [timeRangeClause])%list,
         GoInt.add dollarStart 1)
    | None => (sqlArgs, whereClauses, dollarStart)
    end in
  let '(sqlArgs, whereClauses, dollarStart) :=
    match TimeEnd s with
    | Some t =>
        let timeRangeClause := Fmt.Sprintf "time < $%d" [Fmt.FD dollarStart] in
        ((sqlArgs ++ [ArgString (formatRFC3339Nano t)])%list,
         (whereClauses ++ [timeRangeClause])%list,
         GoInt.add dollarStart 1)
    | None => (sqlArgs, whereClauses, dollarStart)
    end in
  let whereClauses :=
    match LastDuration s with
    | Some d =>
        let timeRangeClause :=
          Fmt.Sprintf "event_time >= CURRENT_TIMESTAMP - '%d seconds'::interval"
                      [Fmt.FD (durationSeconds d)] in
        (whereClauses ++ [timeRangeClause])%list
    | None => whereClauses
    end in
  let '(filterClauses, filterArgs, dollarStart) :=
    generateFilterClauses (FParams s) dollarStart in
  let whereClauses := (whereClauses ++ filterClauses)%list in
  let sqlArgs := (sqlArgs ++ filterArgs)%list in
  (whereClauses, sqlArgs, dollarStart).

Definition reqInfoQuery (s : SearchQuery) : string * list SqlArg :=
  let '(whereClauses, sqlArgs, dollarStart) := reqInfoWhere s in
  let whereClause := Fmt.Join whereClauses " AND " in
  let whereClause :=
    if (0 <? Z.of_nat (List.length whereClauses))
    then Fmt.Sprintf "WHERE %s" [Fmt.FS whereClause] else whereClause in
  let '(sqlArgs, pagingClause) :=
    if String.eqb (ExportFormat s) "" then
      ((sqlArgs ++ [ArgInt (GoInt.mul (PageNumber s) (PageSize s)); ArgInt (PageSize s)])%list,
       Fmt.Sprintf "OFFSET $%d LIMIT $%d"
                   [Fmt.FD dollarStart; Fmt.FD (GoInt.add dollarStart 1)])
    else (sqlArgs, "") in
  (build reqInfoSelect [Name requestInfoTable; whereClause; timeOrder s; pagingClause],
   sqlArgs).

(** The query [Search] sends, if it sends one. *)
Definition searchQuery (s : SearchQuery) : option (string * list SqlArg) :=
  match Query s with
  | rawQ => Some (rawQuery s)
  | reqInfoQ => Some (reqInfoQuery s)
  | otherQ _ => None
  end.

End QueryBuilder.

(** ** The output sink and the writers over it

    The [io.Writer] a search writes to is outside the program. It is modelled by
    what it has accepted so far, one entry for each call of its [Write] that
    succeeded, and by a script of the failures to come: every call takes the
    head of the script, and fails with it if it is an error. [EvJSON] is a
    write of the JSON encoder, [EvBytes] a write of the buffered writer under
    the CSV writer. *)

Inductive SinkEvent : Type :=
| EvJSON (text : string)
| EvBytes (block : string).

Record Sink : Type := mkSink {
  written : list SinkEvent;
  wfaults : list (option error)
}.

Definition sink_do (ev : SinkEvent) (w : Sink) : option error * Sink :=
  match wfaults w with
  | Some e :: fs => (Some e, mkSink (written w) fs)
  | None :: fs => (None, mkSink (written w ++ [ev])%list fs)
  | [] => (None, mkSink (written w ++ [ev])%list [])
  end.

(** [calm n fs] is what is left of the script [fs] once [n] operations have
    succeeded, if the script lets them. *)
Fixpoint calm (n : nat) (fs : list (option error)) : option (list (option error)) :=
  match n with
  | O => Some fs
  | S k =>
      match fs with
      | [] => calm k []
      | None :: fs' => calm k fs'
      | Some _ :: _ => None
      end
  end.

(** The bytes a list of writes amounts to, in the order of the writes. *)
Definition bytes_of (ev : SinkEvent) : string :=
  match ev with
  | EvJSON text => text
  | EvBytes block => block
  end.

Definition received (evs : list SinkEvent) : string :=
  List.fold_right (fun ev acc => bytes_of ev ++ acc) "" evs.

Definition dquote : string := String (ascii_of_nat 34) "".

(** ** [bufio.Writer]

    [csv.NewWriter] puts a [bufio.Writer] of the default size between the CSV
    writer and the sink, so that nothing reaches the sink before the buffer is
    full or is flushed. The sink is used through its [Write] method only. *)

Definition bufSize : nat := 4096.

Record bufioWriter : Type := mkBufio {
  bw_sink : Sink;
  bw_buf : string;
  bw_err : option error
}.

(** [Flush]: nothing after an error and nothing on an empty buffer; otherwise
    the buffer goes to the sink in one write. When the write fails the error
    sticks and the buffer keeps its bytes. *)
Definition bw_Flush (b : bufioWriter) : bufioWriter :=
  match bw_err b with
  | Some _ => b
  | None =>
      match bw_buf b with
      | "" => b
      | buf =>
          match sink_do (EvBytes buf) (bw_sink b) with
          | (Some e, w) => mkBufio w buf (Some e)
          | (None, w) => mkBufio w "" None
          end
      end
  end.

(** [WriteByte]: after an error nothing is done; a full buffer is flushed
    first, and the byte is dropped when that fails. The error returned is the
    one the writer holds afterwards. *)
Definition bw_WriteByte (c : ascii) (b : bufioWriter) : bufioWriter :=
  match bw_err b with
  | Some _ => b
  | None =>
      let b := if (bufSize <=? String.length (bw_buf b))%nat then bw_Flush b else b in
      match bw_err b with
      | Some _ => b
      | None => mkBufio (bw_sink b) (bw_buf b ++ String c "") None
      end
  end.

(** [WriteString]: the loop copies what fits and flushes while more is left,
    and stops at the first error. Byte by byte this is [WriteByte]: the buffer
    is flushed exactly when it is full and a byte is still to come. *)
Fixpoint bw_WriteString (s : string) (b : bufioWriter) : bufioWriter :=
  match s with
  | "" => b
  | String c s' => bw_WriteString s' (bw_WriteByte c b)
  end.

(** ** [csv.Writer], with the comma as delimiter and the line feed as line end *)

(** A byte that forces quotes: line feed, carriage return, quote, comma. *)
Definition is_special (c : ascii) : bool :=
  let n := nat_of_ascii c in
  ((Nat.eqb n 10) || (Nat.eqb n 13) || (Nat.eqb n 34) || (Nat.eqb n 44))%bool.

Fixpoint has_special (field : string) : bool :=
  match field with
  | "" => false
  | String c rest => (is_special c || has_special rest)%bool
  end.

(** [unicode.IsSpace] of the first rune of a UTF-8 text: the ASCII white space,
    U+0085, U+00A0, U+1680, U+2000 to U+200A, U+2028, U+2029, U+202F, U+205F
    and U+3000. *)
Definition leading_space (field : string) : bool :=
  match field with
  | "" => false
  | String c0 rest =>
      let b0 := nat_of_ascii c0 in
      if Nat.ltb b0 128 then ((Nat.leb 9 b0 && Nat.leb b0 13) || Nat.eqb b0 32)%bool
      else
        match rest with
        | "" => false
        | String c1 rest1 =>
            let b1 := nat_of_ascii c1 in
            if Nat.eqb b0 194 then (Nat.eqb b1 133 || Nat.eqb b1 160)%bool
            else
              match rest1 with
              | "" => false
              | String c2 _ =>
                  let b2 := nat_of_ascii c2 in
                  ((Nat.eqb b0 225 && Nat.eqb b1 154 && Nat.eqb b2 128)
                   || (Nat.eqb b0 226 && Nat.eqb b1 128
                       && ((Nat.leb 128 b2 && Nat.leb b2 138)
                           || Nat.eqb b2 168 || Nat.eqb b2 169 || Nat.eqb b2 175))
                   || (Nat.eqb b0 226 && Nat.eqb b1 129 && Nat.eqb b2 159)
                   || (Nat.eqb b0 227 && Nat.eqb b1 128 && Nat.eqb b2 128))%bool
              end
        end
  end.

(** [fieldNeedsQuotes]. *)
Definition fieldNeedsQuotes (field : string) : bool :=
  if String.eqb field "" then false
  else if String.eqb field "\." then true
  else if has_special field then true
  else leading_space field.

(** Inside quotes a quote is written twice; every other byte is copied. *)
Fixpoint escape (field : string) : string :=
  match field with
  | "" => ""
  | String c rest =>
      if Nat.eqb (nat_of_ascii c) 34 then String c (String c (escape rest))
      else String c (escape rest)
  end.

Definition csv_field (field : string) : string :=
  if fieldNeedsQuotes field then dquote ++ escape field ++ dquote else field.

(** The bytes of a record: its fields, a comma between two of them, and a
    line feed. *)
Definition csv_line (record : list string) : string :=
  String.concat "," (List.map csv_field record) ++ nl.

Record csvWriter : Type := mkCsvWriter {
  cw_w : bufioWriter
}.

Definition cw_sink (cw : csvWriter) : Sink := bw_sink (cw_w cw).

Definition csv_NewWriter (w : Sink) : csvWriter := mkCsvWriter (mkBufio w "" None).

(** [Write]: the bytes of the record go to the buffered writer one write after
    the other, and the first write that fails ends the call with its error.
    A buffered writer that holds an error takes no more bytes, so that the
    state after the call is the one after all the bytes of the record. *)
Definition csv_Write (record : list string) (cw : csvWriter) : option error * csvWriter :=
  let b := bw_WriteString (csv_line record) (cw_w cw) in
  (bw_err b, mkCsvWriter b).

Definition csv_Flush (cw : csvWriter) : csvWriter := mkCsvWriter (bw_Flush (cw_w cw)).

(** [Error]: a write of no bytes, which returns the error the buffered writer
    holds. *)
Definition csv_Error (cw : csvWriter) : option error := bw_err (cw_w cw).

(** ** [iPtrToStr] *)

Definition iPtrToStr (i : option Z) : string :=
  match i with
  | None => ""
  | Some v => Fmt.Sprintf "%d" [Fmt.FD v]
  end.

(** ** [Search]: running the query and exporting the rows *)

Section Search.
Context `{X : Externals}.

Definition logEventCSVHeader : list string := ["event_time"; "log"].

Definition reqInfoCSVHeader : list string :=
  ["time"; "api_name"; "access_key"; "bucket"; "object"; "time_to_response_ns";
   "remote_host"; "request_id"; "user_agent"; "response_status";
   "response_status_code"; "request_content_length"; "response_content_length"].

(** [json.Encoder.Encode]: marshal, then write the text and a newline. *)
Definition jw_Encode (v : JsonDoc) (w : Sink) : option error * Sink :=
  match jsonMarshal v with
  | Err e => (Some e, w)
  | Ok text => sink_do (EvJSON (text ++ nl)) w
  end.

(** [sqlscan.ScanAll]. *)
Fixpoint ScanAll {R : Type} (scan : DbRow -> result R) (rows : list DbRow)
  : result (list R) :=
  match rows with
  | [] => Ok []
  | r :: rs =>
      match scan r with
      | Err e => Err e
      | Ok v => match ScanAll scan rs with
                | Err e => Err e
                | Ok vs => Ok (v :: vs)
                end
      end
  end.

(** *** [case rawQ:] *)

Fixpoint rawNdjson (rows : list DbRow) (w : Sink) : option error * Sink :=
  match rows with
  | [] => (None, w)
  | r :: rs =>
      match scanLogEventRaw r with
      | Err e => (Some (Errorf "Error accessing db: %v" e), w)
      | Ok logEventRaw =>
          match jsonUnmarshalLog (raw_Log logEventRaw) with
          | Err e => (Some (Errorf "Error decoding json log: %v" e), w)
          | Ok obj =>
              let logEvent := mkLogEventRow (raw_EventTime logEventRaw) obj in
              match jw_Encode (JLogEvent logEvent) w with
              | (Some e, w') => (Some (Errorf "Error writing to output stream: %v" e), w')
              | (None, w') => rawNdjson rs w'
              end
          end
      end
  end.

Fixpoint rawCsvRows (rows : list DbRow) (cw : csvWriter) : option error * csvWriter :=
  match rows with
  | [] => (None, cw)
  | r :: rs =>
      match scanLogEventRaw r with
      | Err e => (Some (Errorf "Error accessing db: %v" e), cw)
      | Ok logEventRaw =>
          let record := [formatRFC3339Nano (raw_EventTime logEventRaw);
                         raw_Log logEventRaw] in
          match csv_Write record cw with
          | (Some e, cw') => (Some (Errorf "Error writing to output stream: %v" e), cw')
          | (None, cw') => rawCsvRows rs cw'
          end
      end
  end.

Definition rawCsv (rows : list DbRow) (w : Sink) : option error * Sink :=
  let cw := csv_NewWriter w in
  match csv_Write logEventCSVHeader cw with
  | (Some e, cw) => (Some (Errorf "Error writing to output stream: %v" e), cw_sink cw)
  | (None, cw) =>
      match rawCsvRows rows cw with
      | (Some e, cw) => (Some e, cw_sink cw)
      | (None, cw) =>
          let cw := csv_Flush cw in
          match csv_Error cw with
          | Some e => (Some (Errorf "Error writing to output stream: %v" e), cw_sink cw)
          | None => (None, cw_sink cw)
          end
      end
  end.

Fixpoint decodeLogs (l : list logEventRawRow) : result (list LogEventRow) :=
  match l with
  | [] => Ok []
  | e :: es =>
      match jsonUnmarshalLog (raw_Log e) with
      | Err err => Err err
      | Ok obj =>
          match decodeLogs es with
          | Err err => Err err
          | Ok rest => Ok (mkLogEventRow (raw_EventTime e) obj :: rest)
          end
      end
  end.

Definition rawPage (rows : list DbRow) (w : Sink) : option error * Sink :=
  match ScanAll scanLogEventRaw rows with
  | Err e => (Some (Errorf "Error accessing db: %v" e), w)
  | Ok logEventsRaw =>
      match decodeLogs logEventsRaw with
      | Err e => (Some (Errorf "Error decoding json log: %v" e), w)
      | Ok logEvents =>
          match jw_Encode (JLogEvents logEvents) w with
          | (Some e, w') => (Some (Errorf "Error writing to output stream: %v" e), w')
          | (None, w') => (None, w')
          end
      end
  end.

(** *** [case reqInfoQ:] *)

Fixpoint reqInfoNdjson (rows : list DbRow) (w : Sink) : option error * Sink :=
  match rows with
  | [] => (None, w)
  | r :: rs =>
      match scanReqInfo r with
      | Err e => (Some (Errorf "Error accessing db: %v" e), w)
      | Ok reqInfo =>
          match jw_Encode (JReqInfo reqInfo) w with
          | (Some e, w') => (Some (Errorf "Error writing to output stream: %v" e), w')
          | (None, w') => reqInfoNdjson rs w'
          end
      end
  end.

(** The record of one row. *)
Definition reqInfoRecord (i : ReqInfoRow) : list string :=
  [formatRFC3339Nano (Time i);
   APIName i;
   AccessKey i;
   Bucket i;
   Object i;
   Fmt.Sprintf "%d" [Fmt.FD (TimeToResponseNs i)];
   RemoteHost i;
   RequestID i;
   UserAgent i;
   ResponseStatus i;
   Fmt.Sprintf "%d" [Fmt.FD (ResponseStatusCode i)];
   iPtrToStr (RequestContentLength i);
   iPtrToStr (ResponseContentLength i)].

Fixpoint reqInfoCsvRows (rows : list DbRow) (cw : csvWriter) : option error * csvWriter :=
  match rows with
  | [] => (None, cw)
  | r :: rs =>
      match scanReqInfo r with
      | Err e => (Some (Errorf "Error accessing db: %v" e), cw)
      | Ok i =>
          match csv_Write (reqInfoRecord i) cw with
          | (Some e, cw') => (Some (Errorf "Error writing to output stream: %v" e), cw')
          | (None, cw') => reqInfoCsvRows rs cw'
          end
      end
  end.

Definition reqInfoCsv (rows : list DbRow) (w : Sink) : option error * Sink :=
  let cw := csv_NewWriter w in
  match csv_Write reqInfoCSVHeader cw with
  | (Some e, cw) => (Some (Errorf "Error writing to output stream: %v" e), cw_sink cw)
  | (None, cw) =>
      match reqInfoCsvRows rows cw with
      | (Some e, cw) => (Some e, cw_sink cw)
      | (None, cw) =>
          let cw := csv_Flush cw in
          match csv_Error cw with
          | Some e => (Some (Errorf "Error writing to output stream: %v" e), cw_sink cw)
          | None => (None, cw_sink cw)
          end
      end
  end.

Definition reqInfoPage (rows : list DbRow) (w : Sink) : option error * Sink :=
  match ScanAll scanReqInfo rows with
  | Err e => (Some (Errorf "Error accessing db: %v" e), w)
  | Ok reqInfos =>
      match jw_Encode (JReqInfos reqInfos) w with
      | (Some e, w') => (Some (Errorf "Error writing to output stream: %v" e), w')
      | (None, w') => (None, w')
      end
  end.

(** What a call of [Search] leaves behind: the error it returns, the sink, and
    the queries it sent to the database. *)
Record SearchOutcome : Type := mkOutcome {
  so_err : option error;
  so_sink : Sink;
  so_queries : list (string * list SqlArg)
}.

Definition Search (s : SearchQuery) (w : Sink) : SearchOutcome :=
  match Query s with
  | rawQ =>
      let '(q, sqlArgs) := rawQuery s in
      match QueryContext q sqlArgs with
      | Err e => mkOutcome (Some (Errorf "Error querying db: %v" e)) w [(q, sqlArgs)]
      | Ok rows =>
          let '(r, w') :=
            if String.eqb (ExportFormat s) "ndjson" then rawNdjson rows w
            else if String.eqb (ExportFormat s) "csv" then rawCsv rows w
            else rawPage rows w in
          mkOutcome r w' [(q, sqlArgs)]
      end
  | reqInfoQ =>
      let '(q, sqlArgs) := reqInfoQuery s in
      match QueryContext q sqlArgs with
      | Err e => mkOutcome (Some (Errorf "Error querying db: %v" e)) w [(q, sqlArgs)]
      | Ok rows =>
          let '(r, w') :=
            if String.eqb (ExportFormat s) "ndjson" then reqInfoNdjson rows w
            else if String.eqb (ExportFormat s) "csv" then reqInfoCsv rows w
            else reqInfoPage rows w in
          mkOutcome r w' [(q, sqlArgs)]
      end
  | otherQ name =>
      mkOutcome (Some (Errorf "Invalid query name: %v" name)) w []
  end.

End Search.

(** ** The database under [InsertEvent]

    The relational engine is outside the program and is assumed transactional.
    Its model keeps the committed rows of the two tables, the working copy of
    the open transaction if there is one, a script of the failures to come
    (every call that reaches the database takes the head of the script), and
    the calls made so far. *)

Section Database.
Context `{C : Carrier}.

Record DB : Type := mkDB {
  audit_log_events : list (list SqlArg);
  request_info : list (list SqlArg)
}.

Inductive Op : Type :=
| OpParse (payload : string)
| OpBeginTx
| OpExec (q : string) (args : list SqlArg)
| OpCommit
| OpRollback
| OpLog (msg : string).

Record World : Type := mkWorld {
  committed : DB;
  tx : option DB;
  dbfaults : list (option error);
  ops : list Op
}.

Definition record_op (o : Op) (w : World) : World :=
  mkWorld (committed w) (tx w) (dbfaults w) (ops w ++ [o])%list.

Definition take_fault (w : World) : option error * World :=
  match dbfaults w with
  | [] => (None, w)
  | f :: fs => (f, mkWorld (committed w) (tx w) fs (ops w))
  end.

(** The engine on the two statements the program sends: a row is appended to
    the table the statement names; any other text is rejected. *)
Definition engine_exec (q : string) (args : list SqlArg) (d : DB) : result DB :=
  if (String.eqb q (build insertAuditLogEvent [Name auditLogEventsTable])
      && Nat.eqb (List.length args) 2)%bool
  then Ok (mkDB (audit_log_events d ++ [args])%list (request_info d))
  else if (String.eqb q (build insertRequestInfo [Name requestInfoTable])
           && Nat.eqb (List.length args) 13)%bool
  then Ok (mkDB (audit_log_events d) (request_info d ++ [args])%list)
  else Err "pq: statement rejected".

(** A computation over the world that may fail with an error. *)
Definition M (A : Type) : Type := World -> result A * World.

Definition ret {A : Type} (a : A) : M A := fun w => (Ok a, w).

Definition bind {A B : Type} (m : M A) (k : A -> M B) : M B :=
  fun w => match m w with
           | (Ok a, w') => k a w'
           | (Err e, w') => (Err e, w')
           end.

(** [c.BeginTx]. *)
Definition BeginTx : M unit :=
  fun w =>
    let w := record_op OpBeginTx w in
    match take_fault w with
    | (Some e, w) => (Err e, w)
    | (None, w) => (Ok tt, mkWorld (committed w) (Some (committed w)) (dbfaults w) (ops w))
    end.

(** [tx.ExecContext]. *)
Definition tx_ExecContext (q : string) (args : list SqlArg) : M unit :=
  fun w =>
    let w := record_op (OpExec q args) w in
    match take_fault w with
    | (Some e, w) => (Err e, w)
    | (None, w) =>
        match tx w with
        | None => (Err "sql: transaction has already been committed or rolled back", w)
        | Some d =>
            match engine_exec q args d with
            | Err e => (Err e, w)
            | Ok d' => (Ok tt, mkWorld (committed w) (Some d') (dbfaults w) (ops w))
            end
        end
    end.

(** [tx.Commit]: the working copy becomes the committed state, or nothing
    does. *)
Definition tx_Commit : M unit :=
  fun w =>
    let w := record_op OpCommit w in
    match take_fault w with
    | (Some e, w) => (Err e, mkWorld (committed w) None (dbfaults w) (ops w))
    | (None, w) =>
        match tx w with
        | None => (Err "sql: transaction has already been committed or rolled back", w)
        | Some d => (Ok tt, mkWorld d None (dbfaults w) (ops w))
        end
    end.

(** [tx.Rollback]: the working copy is dropped; after a commit there is
    nothing to drop. *)
Definition tx_Rollback (w : World) : World :=
  let w := record_op OpRollback w in
  mkWorld (committed w) None (dbfaults w) (ops w).

Definition log_Printf (msg : string) (w : World) : World := record_op (OpLog msg) w.

End Database.

Notation "x <- m ;; k" := (bind m (fun x => k))
  (at level 61, m at next level, right associativity).
Notation "m ;;; k" := (bind m (fun _ => k))
  (at level 61, right associativity).

(** ** [InsertEvent] *)

Section InsertEvent.
Context `{X : Externals}.

Definition lift {A : Type} (r : result A) : M A := fun w => (r, w).

(** The arguments of the insert into the request-info table. *)
Definition requestInfoArgs (event : Event) : list SqlArg :=
  let reqLen : option Z :=
    match getRequestContentLength event with
    | Ok rqlen => Some rqlen
    | Err _ => None
    end in
  let respLen : option Z :=
    match getResponseContentLength event with
    | Ok rsplen => Some rsplen
    | Err _ => None
    end in
  [ArgTime (ev_Time event);
   ArgString (api_Name (ev_API event));
   ArgString (api_AccessKey (ev_API event));
   ArgString (api_Bucket (ev_API event));
   ArgString (api_Object (ev_API event));
   ArgInt (api_TimeToResponse (ev_API event));
   ArgString (ev_RemoteHost event);
   ArgString (ev_RequestID event);
   ArgString (ev_UserAgent event);
   ArgString (api_Status (ev_API event));
   ArgInt (api_StatusCode (ev_API event));
   ArgUint64Ptr reqLen;
   ArgUint64Ptr respLen].

(** The arguments of the insert into the raw-log table. *)
Definition rawArgsOf (event : Event) (eventJSON : string) : list SqlArg :=
  [ArgTime (ev_Time event); ArgBytes eventJSON].

(** The statements after [tx, err := c.BeginTx(ctx, nil)] has succeeded. *)
Definition insertInTx (event : Event) : M unit :=
  eventJSON <- lift (jsonMarshalEvent event) ;;
  tx_ExecContext (build insertAuditLogEvent [Name auditLogEventsTable])
                 (rawArgsOf event eventJSON) ;;;
  tx_ExecContext (build insertRequestInfo [Name requestInfoTable])
                 (requestInfoArgs event) ;;;
  tx_Commit.

(** The statements after the check for an empty event; the deferred rollback
    runs when the part after [BeginTx] returns. *)
Definition insertBody (eventBytes : string) : M unit :=
  event <- (fun w => lift (parseJSONEvent eventBytes) (record_op (OpParse eventBytes) w)) ;;
  BeginTx ;;;
  (fun w => let '(r, w') := insertInTx event w in (r, tx_Rollback w')).

(** [InsertEvent]: the returned error ([None] is [nil]) and the world after the
    call; the deferred logging runs last. *)
Definition InsertEvent (eventBytes : string) (w : World) : option error * World :=
  if isEmptyEvent eventBytes then (None, w)
  else
    match insertBody eventBytes w with
    | (Ok _, w') => (None, w')
    | (Err err, w') =>
        (Some err,
         log_Printf (Fmt.Sprintf "audit event not saved: %s (cause: %v)"
                                 [Fmt.FS eventBytes; Fmt.FS err]) w')
    end.

End InsertEvent.

(** ** The two cases of [Search], read side by side

    The two cases build their query with the same statements and differ in the
    column of the bounds, the column of the relative window, the template and
    the table. [whereOf] and [queryOf] are those
    statements with the differences as parameters; [boundClauses], [boundArgs],
    [lastClauses], [whereText] and [pagingText] say what the statements are
    meant to produce. *)

Section Factored.
Context `{X : Externals}.

Definition whereOf (col colLast : string) (s : SearchQuery)
  : list string * list SqlArg * Z :=
  let sqlArgs : list SqlArg := [] in
  let dollarStart := 1 in
  let whereClauses : list string := [] in
  let '(sqlArgs, whereClauses, dollarStart) :=
    match TimeStart s with
    | Some t =>
        ((sqlArgs ++ [ArgString (formatRFC3339Nano t)])%list,
         (whereClauses ++ [Fmt.Sprintf (col ++ " >= $%d") [Fmt.FD dollarStart]])%list,
         GoInt.add dollarStart 1)
    | None => (sqlArgs, whereClauses, dollarStart)
    end in
  let '(sqlArgs, whereClauses, dollarStart) :=
    match TimeEnd s with
    | Some t =>
        ((sqlArgs ++ [ArgString (formatRFC3339Nano t)])%list,
         (whereClauses ++ [Fmt.Sprintf (col ++ " < $%d") [Fmt.FD dollarStart]])%list,
         GoInt.add dollarStart 1)
    | None => (sqlArgs, whereClauses, dollarStart)
    end in
  let whereClauses :=
    match LastDuration s with
    | Some d =>
        (whereClauses ++
         [Fmt.Sprintf (colLast ++ " >= CURRENT_TIMESTAMP - '%d seconds'::interval")
                      [Fmt.FD (durationSeconds d)]])%list
    | None => whereClauses
    end in
  let '(filterClauses, filterArgs, dollarStart) :=
    generateFilterClauses (FParams s) dollarStart in
  ((whereClauses ++ filterClauses)%list, (sqlArgs ++ filterArgs)%list, dollarStart).

(** The where clause of a list of predicates. *)
Definition whereText (whereClauses : list string) : string :=
  match whereClauses with
  | [] => ""
  | _ => "WHERE " ++ String.concat " AND " whereClauses
  end.

(** The paging clause and the paging arguments of a request whose filter
    clauses end at [dollarStart]. *)
Definition pagingText (s : SearchQuery) (dollarStart : Z) : string :=
  if String.eqb (ExportFormat s) "" then
    "OFFSET $" ++ Fmt.fmt_d dollarStart ++ " LIMIT $" ++ Fmt.fmt_d (GoInt.add dollarStart 1)
  else "".

Definition pagingArgs (s : SearchQuery) : list SqlArg :=
  if String.eqb (ExportFormat s) "" then
    [ArgInt (GoInt.mul (PageNumber s) (PageSize s)); ArgInt (PageSize s)]
  else [].

Definition queryOf (template table : string) (col colLast : string)
  (s : SearchQuery) : string * list SqlArg :=
  let '(whereClauses, sqlArgs, dollarStart) := whereOf col colLast s in
  (build template [table; whereText whereClauses; timeOrder s; pagingText s dollarStart],
   (sqlArgs ++ pagingArgs s)%list).

(** The predicates and the arguments of the absolute bounds on column [col]. *)
Definition boundClauses (col : string) (s : SearchQuery) : list string :=
  match TimeStart s, TimeEnd s with
  | Some _, Some _ => [col ++ " >= $1"; col ++ " < $2"]
  | Some _, None => [col ++ " >= $1"]
  | None, Some _ => [col ++ " < $1"]
  | None, None => []
  end.

Definition boundArgs (s : SearchQuery) : list SqlArg :=
  (match TimeStart s with
   | Some t => [ArgString (formatRFC3339Nano t)]
   | None => []
   end ++
   match TimeEnd s with
   | Some t => [ArgString (formatRFC3339Nano t)]
   | None => []
   end)%list.

(** The predicate of the relative window on column [col]. *)
Definition lastClauses (col : string) (s : SearchQuery) : list string :=
  match LastDuration s with
  | Some d => [col ++ " >= CURRENT_TIMESTAMP - '" ++ Fmt.fmt_d (durationSeconds d)
                   ++ " seconds'::interval"]
  | None => []
  end.

(** The number of the first placeholder after those of the bounds. *)
Definition afterBounds (s : SearchQuery) : Z :=
  1 + Z.of_nat (List.length (boundArgs s)).

(** What [Search] needs of [generateFilterClauses] on the request [s]: the
    clauses it returns carry the placeholders that follow those of the bounds,
    one for each argument it returns, it returns the number after the last of
    them, and that number is not the largest [int]. *)
Definition filterContract (s : SearchQuery) : Prop :=
  let '(filterClauses, filterArgs, dollarEnd) :=
    generateFilterClauses (FParams s) (afterBounds s) in
  dollarEnd = afterBounds s + Z.of_nat (List.length filterArgs) /\
  dollarEnd < GoInt.int_max /\
  List.flat_map Placeholders.placeholders filterClauses =
  Placeholders.zseq (afterBounds s) (List.length filterArgs).

End Factored.

(** ** Parts of the package that are not in db.go *)

Module Spec.

(** The whitespace of ASCII: space, tab, line feed, vertical tab, form feed,
    carriage return. *)
Definition is_space (c : ascii) : bool :=
  let n := nat_of_ascii c in
  ((Nat.eqb n 32) || (Nat.leb 9 n && Nat.leb n 13))%bool.

(** Modelled from the spec: [isEmptyEvent], which db.go calls and another file
    defines. The specification makes the empty and the whitespace-only payload
    a no-op. *)
Fixpoint isEmptyEvent (eventBytes : string) : bool :=
  match eventBytes with
  | "" => true
  | String c rest => (is_space c && isEmptyEvent rest)%bool
  end.

(** The error of a request that is malformed or contradictory. *)
Inductive RequestError : Type := InvalidRequest.

Definition is_some {A : Type} (o : option A) : bool :=
  match o with Some _ => true | None => false end.

(** Modelled from the spec: the validation of a search request, which the
    comments of [Search] rely on (["would be nil due to validation of s"]) and
    another file defines. A page size of zero is rejected where a page is asked
    for (export mode none), and so is a request with both an absolute bound and
    a relative duration. *)
Definition validate `{Carrier} (s : SearchQuery) : option RequestError :=
  if (String.eqb (ExportFormat s) "" && (PageSize s =? 0))%bool then Some InvalidRequest
  else if ((is_some (TimeStart s) || is_some (TimeEnd s)) && is_some (LastDuration s))%bool
  then Some InvalidRequest
  else None.

(** Modelled from the spec: the caller of [Search], which validates the request
    before any I/O and only then searches. *)
Definition validatedSearch `{Externals} (s : SearchQuery) (w : Sink)
  : option RequestError * SearchOutcome :=
  match validate s with
  | Some e => (Some e, mkOutcome None w [])
  | None => (None, Search s w)
  end.

(** The columns a filter may name. *)
Inductive Column : Type :=
| ColAPIName | ColAccessKey | ColBucket | ColObject | ColRemoteHost
| ColRequestID | ColUserAgent | ColResponseStatus.

Definition column_name (c : Column) : string :=
  match c with
  | ColAPIName => "api_name"
  | ColAccessKey => "access_key"
  | ColBucket => "bucket"
  | ColObject => "object"
  | ColRemoteHost => "remote_host"
  | ColRequestID => "request_id"
  | ColUserAgent => "user_agent"
  | ColResponseStatus => "response_status"
  end.

(** Modelled from the spec: [generateFilterClauses], which db.go calls and
    another file defines: one predicate per filter parameter, over a column of
    a fixed allow-list, its value bound to the next positional argument. *)
Fixpoint generateFilterClauses `{Carrier} (fParams : list (Column * string))
  (dollarStart : Z) : list string * list SqlArg * Z :=
  match fParams with
  | [] => ([], [], dollarStart)
  | (c, v) :: rest =>
      let clause := Fmt.Sprintf "%s = $%d" [Fmt.FS (column_name c); Fmt.FD dollarStart] in
      let '(clauses, args, dollarEnd) := generateFilterClauses rest (dollarStart + 1) in
      (clause :: clauses, ArgString v :: args, dollarEnd)
  end.

End Spec.

(** ** [strings.Contains] *)

Fixpoint Contains (s substr : string) : bool :=
  (String.prefix substr s ||
   match s with
   | "" => false
   | String _ s' => Contains s' substr
   end)%bool.

(** ** The words of a statement

    A statement is cut at blanks, commas, parentheses and semicolons; the
    column list of a statement is what stands between two of its words. *)

Definition is_separator (c : ascii) : bool :=
  let n := nat_of_ascii c in
  ((Nat.eqb n 32) || (Nat.eqb n 9) || (Nat.eqb n 10) || (Nat.eqb n 44)
   || (Nat.eqb n 40) || (Nat.eqb n 41) || (Nat.eqb n 59))%bool.

Fixpoint tokens_aux (cur : string) (s : string) : list string :=
  match s with
  | "" => match cur with "" => [] | _ => [cur] end
  | String c s' =>
      if is_separator c
      then match cur with
           | "" => tokens_aux "" s'
           | _ => cur :: tokens_aux "" s'
           end
      else tokens_aux (cur ++ String c "") s'
  end.

Definition tokens (s : string) : list string := tokens_aux "" s.

Fixpoint upto (stop : string) (l : list string) : list string :=
  match l with
  | [] => []
  | x :: l' => if String.eqb x stop then [] else x :: upto stop l'
  end.

Fixpoint after (start : string) (l : list string) : list string :=
  match l with
  | [] => []
  | x :: l' => if String.eqb x start then l' else after start l'
  end.

(** The words of [s] after the word [start] and before the word [stop]. *)
Definition between (start stop : string) (s : string) : list string :=
  upto stop (after start (tokens s)).

(** ** The schema: parent tables and partitions

    The partition scheme is declared in another file of the package; the clock
    is that of the machine. [clockAt n] is what the [n]-th call of [time.Now]
    returns. *)

Class SchemaExternals `{Carrier} : Type := {
  partitionTimeRange : Type;
  newPartitionTimeRange : time_Time -> partitionTimeRange;
  previous : partitionTimeRange -> partitionTimeRange;
  next : partitionTimeRange -> partitionTimeRange;
  StartDate : partitionTimeRange -> time_Time;
  getPartnameSuffix : partitionTimeRange -> string;
  getCreatePartitionStatement : Table -> partitionTimeRange -> string;
  clockAt : nat -> time_Time
}.

Section Schema.
Context `{X : Externals} {P : SchemaExternals}.

Definition existsQuery : string := "SELECT 1 FROM %s WHERE false;".

(** [checkTableExists]: whether the table exists, and the error (<<None>> is
    [nil]). *)
Definition checkTableExists (table : string) : bool * option error :=
  match QueryContext (build existsQuery [table]) [] with
  | Err err =>
      if Contains err
           (Fmt.Sprintf ("relation " ++ dquote ++ "%s" ++ dquote ++ " does not exist")
                        [Fmt.FS table])
      then (false, None)
      else (false, Some err)
  | Ok _ => (true, None)
  end.

Definition checkPartitionTableExists (table : string) (givenTime : time_Time)
  : bool * option error :=
  let p := newPartitionTimeRange givenTime in
  let partitionTable :=
    Fmt.Sprintf "%s_%s" [Fmt.FS table; Fmt.FS (getPartnameSuffix p)] in
  checkTableExists partitionTable.

(** The database under the schema functions: the statements sent to it so far,
    the script of the failures to come, and the number of times the clock has
    been read. *)
Record DDLWorld : Type := mkDDL {
  sent : list string;
  ddlfaults : list (option error);
  ticks : nat
}.

(** [c.ExecContext] of a statement without arguments. *)
Definition ExecContext (stmt : string) (w : DDLWorld) : option error * DDLWorld :=
  let w' := mkDDL (sent w ++ [stmt])%list (List.tl (ddlfaults w)) (ticks w) in
  match ddlfaults w with
  | Some e :: _ => (Some e, w')
  | _ => (None, w')
  end.

Definition time_Now (w : DDLWorld) : time_Time * DDLWorld :=
  (clockAt (ticks w), mkDDL (sent w) (ddlfaults w) (S (ticks w))).

Definition createTablePartition (table : Table) (givenTime : time_Time)
  (w : DDLWorld) : option error * DDLWorld :=
  let partTimeRange := newPartitionTimeRange givenTime in
  ExecContext (getCreatePartitionStatement table partTimeRange) w.

(** The loop over [partitionTimes]. *)
Fixpoint createPartitions (table : Table) (partitionTimes : list time_Time)
  (w : DDLWorld) : option error * DDLWorld :=
  match partitionTimes with
  | [] => (None, w)
  | pt :: rest =>
      match createTablePartition table pt w with
      | (Some err, w') => (Some err, w')
      | (None, w') => createPartitions table rest w'
      end
  end.

Definition createTableAndPartition (table : Table) (w : DDLWorld)
  : option error * DDLWorld :=
  match ExecContext (getCreateStatement table) w with
  | (Some err, w') => (Some err, w')
  | (None, w') =>
      let '(now, w'') := time_Now w' in
      let partitionNow := newPartitionTimeRange now in
      let partitionTimes :=
        [StartDate (previous partitionNow); now; StartDate (next partitionNow)] in
      createPartitions table partitionTimes w''
  end.

Definition allTables : list Table := [auditLogEventsTable; requestInfoTable].

(** The loop over [allTables]. *)
Fixpoint createTablesOf (tables : list Table) (w : DDLWorld)
  : option error * DDLWorld :=
  match tables with
  | [] => (None, w)
  | table :: rest =>
      match createTableAndPartition table w with
      | (Some err, w') => (Some err, w')
      | (None, w') => createTablesOf rest w'
      end
  end.

Definition createTables (w : DDLWorld) : option error * DDLWorld :=
  createTablesOf allTables w.

Definition InitDBTables (w : DDLWorld) : option error * DDLWorld := createTables w.

End Schema.


(** ** A closed instance, on which the statements below are run

    Times are nanoseconds since the epoch and print as such, a database row is
    its list of text fields, a JSON object is its text, and the database
    answers every query with two rows. *)

Module Demo.

#[export] Instance carrier : Carrier := {|
  time_Time := Z;
  FilterParams := list (Spec.Column * string);
  DbRow := list string;
  JsonObject := string;
  EventRest := list (string * string)
|}.

Definition header (k : string) (e : Event) : result Z :=
  match List.find (fun kv => String.eqb (fst kv) k) (ev_rest e) with
  | Some (_, v) => Ok (Z.of_nat (String.length v))
  | None => Err "missing header"
  end.

Definition scanReqInfoRow (r : list string) : result ReqInfoRow :=
  match r with
  | [api; bucket] =>
      Ok (mkReqInfoRow 1710496800000000000 api "minio" bucket "obj" 1500
                       "10.0.0.1" "req-1" "mc" "OK" 200 None (Some 42))
  | _ => Err "sqlscan: unexpected columns"
  end.

Definition scanRawRow (r : list string) : result logEventRawRow :=
  match r with
  | [l] => Ok (mkLogEventRawRow 1710496800000000000 l)
  | _ => Err "sqlscan: unexpected columns"
  end.

Definition event (b : string) : Event :=
  mkEvent 1710496800000000000
          (mkAPI "PutObject" "minio" "b" "o" 1500 "OK" 200)
          "10.0.0.1" "req-1" "mc" [("Content-Length", b)].

Definition parse (b : string) : result Event :=
  if String.prefix "{" b then Ok (event b) else Err "invalid character".

#[export] Instance externals : Externals := {|
  formatRFC3339Nano := Fmt.fmt_d;
  generateFilterClauses := Spec.generateFilterClauses;
  isEmptyEvent := Spec.isEmptyEvent;
  parseJSONEvent := parse;
  jsonMarshalEvent := fun e => Ok "{}";
  getRequestContentLength := header "Content-Length";
  getResponseContentLength := header "X-Response-Length";
  QueryContext := fun _ _ => Ok [["PutObject"; "b1"]; ["GetObject"; "b2"]];
  scanLogEventRaw := scanRawRow;
  scanReqInfo := scanReqInfoRow;
  jsonUnmarshalLog := fun l => Ok l;
  jsonMarshal := fun _ => Ok "{}"
|}.

Definition request (q : qType) (start stop : option Z) (last : option Z)
  (fp : list (Spec.Column * string)) (fmt : string) (page size : Z) : SearchQuery :=
  mkSearchQuery q start stop last fp false fmt page size.

Definition emptyDB : DB := mkDB [] [].
Definition world (faults : list (option error)) : World := mkWorld emptyDB None faults [].
Definition sink (faults : list (option error)) : Sink := mkSink [] faults.

End Demo.

(** ** More closed instances: a partition scheme of one window a week, a
    database that misses a partition, and a cursor with a row that does not
    scan. *)

Module Demo2.
Import Demo.

Definition week : Z := 604800000000000.

Definition partitionStatement (t : Table) (p : Z) : string :=
  "CREATE TABLE " ++ Name t ++ "_" ++ Fmt.fmt_d p ++ " PARTITION OF " ++ Name t ++ ";".

#[export] Instance schema : SchemaExternals := {|
  partitionTimeRange := Z;
  newPartitionTimeRange := fun t => t / week;
  previous := fun p => p - 1;
  next := fun p => p + 1;
  StartDate := fun p => p * week;
  getPartnameSuffix := Fmt.fmt_d;
  getCreatePartitionStatement := partitionStatement;
  clockAt := fun n => 1710496800000000000 + Z.of_nat n
|}.

Definition missingRelation : error :=
  "pq: relation " ++ dquote ++ "audit_log_events_2828" ++ dquote ++ " does not exist".

Definition marshal (d : JsonDoc) : result string :=
  match d with
  | JLogEvent r => Ok (Log r)
  | JLogEvents l => Ok ("[" ++ String.concat "," (List.map Log l) ++ "]")
  | JReqInfo r => Ok (APIName r)
  | JReqInfos l => Ok ("[" ++ String.concat "," (List.map APIName l) ++ "]")
  end.

Definition withQuery (q : string -> list SqlArg -> result (list DbRow)) : Externals := {|
  formatRFC3339Nano := Fmt.fmt_d;
  generateFilterClauses := Spec.generateFilterClauses;
  isEmptyEvent := Spec.isEmptyEvent;
  parseJSONEvent := parse;
  jsonMarshalEvent := fun e => Ok "{}";
  getRequestContentLength := header "Content-Length";
  getResponseContentLength := header "X-Response-Length";
  QueryContext := q;
  scanLogEventRaw := scanRawRow;
  scanReqInfo := scanReqInfoRow;
  jsonUnmarshalLog := fun l => Ok l;
  jsonMarshal := marshal
|}.

(** The database answers that the relation does not exist. *)
Definition missing : Externals := withQuery (fun _ _ => Err missingRelation).

(** The second of three rows does not scan. *)
Definition brokenRow : Externals :=
  withQuery (fun _ _ => Ok [["PutObject"; "b1"]; ["broken"]; ["GetObject"; "b2"]]).

(** Two rows of the request-info table, two rows of the raw-log table, and
    raw-log rows of which the second does not scan. *)
Definition twoRows : Externals :=
  withQuery (fun _ _ => Ok [["PutObject"; "b1"]; ["GetObject"; "b2"]]).

Definition rawRows : Externals :=
  withQuery (fun _ _ => Ok [["{a}"]; ["{b}"]]).

Definition brokenRawRow : Externals :=
  withQuery (fun _ _ => Ok [["{a}"]; ["x"; "y"]; ["{b}"]]).

Definition ddl (faults : list (option error)) : DDLWorld := mkDDL [] faults 0.

End Demo2.

(** * Properties *)

(** ** Integers *)

Module GoIntFacts.
Import GoInt.

Lemma wrap_small (z : Z) : int_min <= z <= int_max -> wrap z = z.
Proof.
  unfold wrap, int_min, int_max. intros H.
  rewrite Z.mod_small by lia. lia.
Qed.

Lemma wrap_range (z : Z) : int_min <= wrap z <= int_max.
Proof.
  unfold wrap, int_min, int_max.
  pose proof (Z.mod_pos_bound (z + 2 ^ 63) (2 ^ 64) ltac:(lia)). lia.
Qed.

Lemma add_small (a b : Z) : int_min <= a + b <= int_max -> add a b = a + b.
Proof. apply wrap_small. Qed.

Lemma mul_small (a b : Z) : int_min <= a * b <= int_max -> mul a b = a * b.
Proof. apply wrap_small. Qed.

End GoIntFacts.

(** ** Strings and decimal numerals *)

Module StringFacts.

Lemma app_nil_r (s : string) : s ++ "" = s.
Proof. induction s as [|c s IH]; simpl; [reflexivity | now rewrite IH]. Qed.

Lemma app_assoc (a b c : string) : (a ++ b) ++ c = a ++ (b ++ c).
Proof. induction a as [|x a IH]; simpl; [reflexivity | now rewrite IH]. Qed.

End StringFacts.

Module FmtFacts.
Import Fmt Placeholders.

Lemma digit_of_digit_char (d : Z) :
  0 <= d < 10 -> digit_of (digit_char d) = Some d.
Proof.
  intros H.
  assert (E : d = 0 \/ d = 1 \/ d = 2 \/ d = 3 \/ d = 4 \/ d = 5 \/ d = 6 \/
              d = 7 \/ d = 8 \/ d = 9) by lia.
  repeat (destruct E as [-> | E]; [reflexivity|]). subst d. reflexivity.
Qed.

Lemma eat_app (a b : string) : forall v,
  all_digits a = true -> eat v (a ++ b) = eat (eat v a) b.
Proof.
  induction a as [|c a IH]; intros v H; simpl in *; [reflexivity|].
  destruct (digit_of c); [now apply IH | discriminate].
Qed.

Lemma all_digits_app (a b : string) :
  all_digits a = true -> all_digits b = true -> all_digits (a ++ b) = true.
Proof.
  induction a as [|c a IH]; simpl; intros Ha Hb; [exact Hb|].
  destruct (digit_of c); [now apply IH | discriminate].
Qed.

Lemma dec_digits_S (f : nat) (n : Z) (acc : string) :
  dec_digits (S f) n acc =
  if n / 10 =? 0 then String (digit_char (n mod 10)) acc
  else dec_digits f (n / 10) (String (digit_char (n mod 10)) acc).
Proof. reflexivity. Qed.

(** The digits [dec_digits] writes are a non-empty numeral of the number. *)
Lemma dec_digits_spec (fuel : nat) : forall n acc,
  0 <= n < 2 ^ Z.of_nat (S fuel) ->
  exists ds, dec_digits (S fuel) n acc = ds ++ acc /\
             all_digits ds = true /\ ds <> "" /\ eat 0 ds = n.
Proof.
  assert (Base : forall n acc, 0 <= n -> n / 10 = 0 ->
            exists ds, String (digit_char (n mod 10)) acc = ds ++ acc /\
                       all_digits ds = true /\ ds <> "" /\ eat 0 ds = n).
  { intros n acc Hn Hq. exists (String (digit_char (n mod 10)) "").
    pose proof (Z.mod_pos_bound n 10 ltac:(lia)) as Hm.
    simpl. rewrite (digit_of_digit_char _ Hm).
    repeat split; [discriminate|].
    pose proof (Z.div_mod n 10 ltac:(lia)). lia. }
  induction fuel as [|f IH]; intros n acc Hn.
  - assert (Hq : n / 10 = 0) by (apply Z.div_small; simpl in Hn; lia).
    rewrite dec_digits_S, Hq. simpl (0 =? 0). now apply Base.
  - rewrite dec_digits_S. destruct (n / 10 =? 0) eqn:Eq.
    + apply Z.eqb_eq in Eq. now apply Base.
    + apply Z.eqb_neq in Eq.
      assert (Hq : 0 <= n / 10 < 2 ^ Z.of_nat (S f)).
      { split; [apply Z.div_pos; lia|].
        apply Z.div_lt_upper_bound; [lia|].
        replace (Z.of_nat (S (S f))) with (Z.succ (Z.of_nat (S f))) in Hn by lia.
        rewrite Z.pow_succ_r in Hn by lia.
        pose proof (Z.pow_pos_nonneg 2 (Z.of_nat (S f)) ltac:(lia) ltac:(lia)).
        clear IH. set (P := 2 ^ Z.of_nat (S f)) in *. clearbody P. lia. }
      destruct (IH (n / 10) (String (digit_char (n mod 10)) acc) Hq)
        as (ds & E & Hd & _ & Hv).
      exists (ds ++ String (digit_char (n mod 10)) "").
      pose proof (Z.mod_pos_bound n 10 ltac:(lia)) as Hm.
      rewrite E, StringFacts.app_assoc. simpl. repeat split.
      * apply all_digits_app; [exact Hd|]. simpl.
        now rewrite (digit_of_digit_char _ Hm).
      * destruct ds; discriminate.
      * rewrite eat_app by exact Hd. cbn [eat].
        rewrite (digit_of_digit_char _ Hm), Hv.
        pose proof (Z.div_mod n 10 ltac:(lia)). lia.
Qed.

Lemma dec_spec (n : Z) :
  0 <= n ->
  exists ds, dec n = ds /\ all_digits ds = true /\ ds <> "" /\ eat 0 ds = n.
Proof.
  intros Hn. unfold dec.
  destruct (dec_digits_spec (Z.to_nat (Z.log2 n)) n "") as (ds & E & H).
  - split; [exact Hn|].
    rewrite Nat2Z.inj_succ, Z2Nat.id by apply Z.log2_nonneg.
    destruct (Z.eq_dec n 0) as [->|Hz]; [reflexivity|].
    apply Z.log2_spec. lia.
  - exists ds. now rewrite E, StringFacts.app_nil_r.
Qed.

Lemma fmt_d_nonneg (n : Z) : 0 <= n -> fmt_d n = dec n.
Proof. intros H. unfold fmt_d. now rewrite (proj2 (Z.ltb_ge n 0)). Qed.

End FmtFacts.

(** ** The placeholder scanner *)

Module PlaceholderFacts.
Import Fmt Placeholders.

Lemma lacks_app (x : ascii) (a b : string) :
  lacks x (a ++ b) = (lacks x a && lacks x b)%bool.
Proof.
  induction a as [|c a IH]; simpl; [reflexivity|].
  rewrite IH. now rewrite andb_assoc.
Qed.

Lemma digit_char_not_dollar (d : Z) :
  0 <= d < 10 -> Ascii.eqb (digit_char d) "$" = false.
Proof.
  intros H.
  assert (E : d = 0 \/ d = 1 \/ d = 2 \/ d = 3 \/ d = 4 \/ d = 5 \/ d = 6 \/
              d = 7 \/ d = 8 \/ d = 9) by lia.
  repeat (destruct E as [-> | E]; [reflexivity|]). subst d. reflexivity.
Qed.

Lemma lacks_dollar_dec_digits (fuel : nat) : forall n acc,
  lacks "$" acc = true -> lacks "$" (dec_digits fuel n acc) = true.
Proof.
  induction fuel as [|f IH]; intros n acc Hacc; [exact Hacc|].
  rewrite FmtFacts.dec_digits_S.
  assert (H : lacks "$" (String (digit_char (n mod 10)) acc) = true).
  { simpl. rewrite digit_char_not_dollar by (apply Z.mod_pos_bound; lia).
    exact Hacc. }
  destruct (n / 10 =? 0); [exact H | now apply IH].
Qed.

Lemma lacks_dollar_fmt_d (z : Z) : lacks "$" (fmt_d z) = true.
Proof.
  unfold fmt_d, dec. destruct (z <? 0).
  - change (lacks "$" (dec_digits (S (Z.to_nat (Z.log2 (- z)))) (- z) "") = true).
    now apply lacks_dollar_dec_digits.
  - now apply lacks_dollar_dec_digits.
Qed.

(** Text without a dollar sign is passed over. *)
Lemma scan_lacks_dollar (p x : string) :
  lacks "$" p = true -> scan Idle (p ++ x) = scan Idle x.
Proof.
  induction p as [|c p IH]; simpl; intros H; [reflexivity|].
  apply andb_prop in H. destruct H as [Hc Hp].
  apply negb_true_iff in Hc. rewrite Hc.
  destruct (digit_of c); simpl; now apply IH.
Qed.

Lemma placeholders_lacks_dollar (p : string) :
  lacks "$" p = true -> placeholders p = [].
Proof.
  intros H. unfold placeholders.
  rewrite <- (StringFacts.app_nil_r p). now rewrite scan_lacks_dollar.
Qed.

(** Scanning may be split in front of anything that is not a digit. *)
Lemma scan_app (a b : string) : forall st,
  nd_start b = true -> scan st (a ++ b) = (scan st a ++ placeholders b)%list.
Proof.
  induction a as [|c a IH]; intros st Hb.
  - simpl. destruct b as [|c b]; [simpl; now rewrite List.app_nil_r|].
    simpl in Hb. unfold placeholders. simpl.
    destruct (digit_of c); [discriminate | reflexivity].
  - simpl. destruct (digit_of c).
    + destruct st; now apply IH.
    + rewrite IH by exact Hb. now rewrite List.app_assoc.
Qed.

Lemma placeholders_app (a b : string) :
  nd_start b = true -> placeholders (a ++ b) = (placeholders a ++ placeholders b)%list.
Proof. apply scan_app. Qed.

Lemma scan_num_digits (ds rest : string) : forall v,
  all_digits ds = true -> nd_start rest = true ->
  scan (Num v) (ds ++ rest) = eat v ds :: placeholders rest.
Proof.
  induction ds as [|c ds IH]; intros v Hd Hr.
  - simpl. destruct rest as [|c r]; [reflexivity|].
    simpl in Hr. unfold placeholders. simpl.
    destruct (digit_of c); [discriminate | reflexivity].
  - simpl in *. destruct (digit_of c); [now apply IH | discriminate].
Qed.

Lemma scan_dollar_digits (ds rest : string) :
  ds <> "" -> all_digits ds = true -> nd_start rest = true ->
  scan Dollar (ds ++ rest) = eat 0 ds :: placeholders rest.
Proof.
  intros Hne Hd Hr. destruct ds as [|c ds]; [congruence|].
  simpl in *. destruct (digit_of c); [|discriminate].
  now apply scan_num_digits.
Qed.

(** A dollar sign followed by the numeral of [n] is the placeholder [n]. *)
Lemma placeholders_dollar (p : string) (n : Z) (rest : string) :
  lacks "$" p = true -> 0 <= n -> nd_start rest = true ->
  placeholders (p ++ "$" ++ fmt_d n ++ rest) = n :: placeholders rest.
Proof.
  intros Hp Hn Hr. unfold placeholders.
  rewrite scan_lacks_dollar by exact Hp.
  rewrite FmtFacts.fmt_d_nonneg by exact Hn.
  destruct (FmtFacts.dec_spec n Hn) as (ds & -> & Hd & Hne & Hv).
  simpl. rewrite scan_dollar_digits by assumption. now rewrite Hv.
Qed.

Lemma placeholders_concat (cls : list string) :
  placeholders (String.concat " AND " cls) = List.flat_map placeholders cls.
Proof.
  induction cls as [|c cls IH]; [reflexivity|].
  destruct cls as [|c' cls].
  - simpl. now rewrite List.app_nil_r.
  - change (String.concat " AND " (c :: c' :: cls))
      with (c ++ " AND " ++ String.concat " AND " (c' :: cls)).
    rewrite placeholders_app by reflexivity.
    change (List.flat_map placeholders (c :: c' :: cls))
      with (placeholders c ++ List.flat_map placeholders (c' :: cls))%list.
    f_equal. rewrite <- IH. unfold placeholders.
    now rewrite scan_lacks_dollar.
Qed.

Lemma zseq_length (d : Z) (k : nat) : List.length (zseq d k) = k.
Proof. unfold zseq. now rewrite List.length_map, List.length_seq. Qed.

Lemma zseq_cons (d : Z) (k : nat) : zseq d (S k) = d :: zseq (d + 1) k.
Proof.
  unfold zseq. simpl. f_equal; [lia|].
  rewrite <- List.seq_shift, List.map_map.
  apply List.map_ext. intros i. lia.
Qed.

Lemma zseq_app (d : Z) (m n : nat) :
  (zseq d m ++ zseq (d + Z.of_nat m) n)%list = zseq d (m + n).
Proof.
  revert d. induction m as [|m IH]; intros d.
  - simpl. f_equal. lia.
  - rewrite Nat.add_succ_l, !zseq_cons. simpl. f_equal.
    rewrite <- IH. do 2 f_equal. lia.
Qed.

End PlaceholderFacts.

(** ** binary64 arithmetic on sub-second durations *)

Module Float64Facts.
Import Float64.

Lemma digits2_bounds (p : positive) :
  2 ^ (Zpos (digits2_pos p) - 1) <= Zpos p < 2 ^ Zpos (digits2_pos p).
Proof.
  induction p as [p IH | p IH | ]; cbn [digits2_pos].
  - rewrite Pos2Z.inj_succ.
    replace (Z.succ (Zpos (digits2_pos p)) - 1) with (Z.succ (Zpos (digits2_pos p) - 1)) by lia.
    rewrite !Z.pow_succ_r by lia. lia.
  - rewrite Pos2Z.inj_succ.
    replace (Z.succ (Zpos (digits2_pos p)) - 1) with (Z.succ (Zpos (digits2_pos p) - 1)) by lia.
    rewrite !Z.pow_succ_r by lia. lia.
  - simpl. lia.
Qed.

Lemma digits2_le (p : positive) (a : Z) :
  Zpos p < 2 ^ a -> Zpos (digits2_pos p) <= a.
Proof.
  intros H. pose proof (digits2_bounds p) as [Hl _].
  destruct (Z_le_gt_dec (Zpos (digits2_pos p)) a) as [|Hgt]; [assumption|].
  exfalso. assert (0 <= a \/ a < 0) as [Ha|Ha] by lia.
  - assert (2 ^ a <= 2 ^ (Zpos (digits2_pos p) - 1))
      by (apply Z.pow_le_mono_r; lia). lia.
  - rewrite Z.pow_neg_r in H by lia. lia.
Qed.

Lemma iter_xO (k p : positive) :
  Zpos (Pos.iter xO p k) = Zpos p * 2 ^ Zpos k /\
  digits2_pos (Pos.iter xO p k) = (digits2_pos p + k)%positive.
Proof.
  induction k as [|k IH] using Pos.peano_ind.
  - simpl. split; [lia|]. now rewrite Pos.add_1_r.
  - rewrite Pos.iter_succ. destruct IH as [IH1 IH2]. split.
    + rewrite Pos2Z.inj_xO, IH1, Pos2Z.inj_succ, Z.pow_succ_r by lia. lia.
    + cbn [digits2_pos]. rewrite IH2. lia.
Qed.

Lemma shr_1_m (r : shr_record) :
  0 <= shr_m r -> shr_m (shr_1 r) = shr_m r / 2.
Proof.
  destruct r as [m b s]. cbn [shr_m]. intros Hm.
  rewrite <- Z.div2_div. destruct m as [|[p|p|]|p]; try reflexivity. lia.
Qed.

Lemma shr_m_iter (p : positive) : forall r,
  0 <= shr_m r ->
  shr_m (iter_pos shr_1 p r) = shr_m r / 2 ^ Zpos p.
Proof.
  assert (Hnn : forall r, 0 <= shr_m r -> 0 <= shr_m (shr_1 r)).
  { intros r Hr. rewrite shr_1_m by exact Hr. apply Z.div_pos; lia. }
  induction p as [p IH | p IH | ]; intros r Hr; cbn [iter_pos].
  - rewrite IH, IH, shr_1_m by
      (try rewrite IH; try apply Z.div_pos; try apply Hnn; try exact Hr;
       try apply Z.pow_pos_nonneg; lia).
    rewrite !Z.div_div by (try apply Z.pow_pos_nonneg; lia).
    f_equal. assert (Zpos p~1 = 1 + Zpos p + Zpos p) as -> by lia.
    rewrite !Z.pow_add_r, Z.pow_1_r by lia. lia.
  - rewrite IH, IH by
      (try rewrite IH; try apply Z.div_pos; try exact Hr;
       try apply Z.pow_pos_nonneg; lia).
    rewrite !Z.div_div by (try apply Z.pow_pos_nonneg; lia).
    f_equal. assert (Zpos p~0 = Zpos p + Zpos p) as -> by lia.
    rewrite !Z.pow_add_r by lia. lia.
  - rewrite shr_1_m by exact Hr. reflexivity.
Qed.


Lemma shr_spec (r : shr_record) (e n : Z) :
  0 <= shr_m r ->
  snd (shr r e n) = e + Z.max 0 n /\
  shr_m (fst (shr r e n)) = shr_m r / 2 ^ Z.max 0 n.
Proof.
  intros Hr. destruct n as [|p|p]; cbn [shr fst snd].
  - split; [lia|]. now rewrite Z.div_1_r.
  - split; [lia|]. rewrite shr_m_iter by exact Hr. f_equal.
  - split; [lia|]. now rewrite Z.div_1_r.
Qed.

Lemma shr_record_of_loc_m (m : Z) (l : location) : shr_m (shr_record_of_loc m l) = m.
Proof. destruct l as [|[| |]]; reflexivity. Qed.

Lemma round_nearest_even_bounds (m : Z) (l : location) :
  m <= round_nearest_even m l <= m + 1.
Proof.
  destruct l as [|[| |]]; cbn [round_nearest_even]; try lia.
  destruct (Z.even m); lia.
Qed.

Lemma Zdigits2_le (q a : Z) : 0 <= q -> 0 <= a -> q < 2 ^ a -> Zdigits2 q <= a.
Proof.
  intros Hq Ha H. destruct q as [|p|p]; cbn [Zdigits2]; [lia| |lia].
  now apply digits2_le.
Qed.

Lemma Zdigits2_lt (q : Z) : 0 <= q -> q < 2 ^ Zdigits2 q.
Proof.
  intros Hq. destruct q as [|p|p]; cbn [Zdigits2]; [reflexivity| |lia].
  apply digits2_bounds.
Qed.

(** What rounding makes of the quotient [q] at the exponent [- a], when [q]
    has at most [kmax + 53] digits: a mantissa [m] at an exponent [- t] at most
    [kmax + 1] above, not below [q] shifted there and at most one unit of the
    first shift above it. *)
Lemma round_aux_shape (s : bool) (q a kmax : Z) (l : location) :
  0 <= q -> 0 <= kmax -> kmax + 2 <= a <= 1074 -> Zdigits2 q <= kmax + 53 ->
  exists m t,
    ((m = 0 /\ binary_round_aux prec emax s q (- a) l = S754_zero s) \/
     (exists mp, m = Zpos mp /\
                 binary_round_aux prec emax s q (- a) l = S754_finite s mp (- t))) /\
    a - kmax - 1 <= t <= a /\
    q / 2 ^ (a - t) <= m /\
    m * 2 ^ (a - t) <= q + 2 ^ kmax.
Proof.
  intros Hq Hkm Ha Hdq.
  assert (Hdq0 : 0 <= Zdigits2 q) by (destruct q; cbn [Zdigits2]; lia).
  pose proof (Zdigits2_lt q Hq) as Hqlt.
  unfold binary_round_aux, shr_fexp.
  set (n1 := fexp prec emax (Zdigits2 q + - a) - - a).
  assert (Hn1 : Z.max 0 n1 <= kmax /\ Zdigits2 q - 53 <= Z.max 0 n1).
  { unfold n1, fexp, SpecFloat.emin, prec, emax. lia. }
  pose proof (shr_spec (shr_record_of_loc q l) (- a) n1) as S1.
  rewrite shr_record_of_loc_m in S1. specialize (S1 Hq).
  destruct (shr (shr_record_of_loc q l) (- a) n1) as [r1 e1].
  cbn [fst snd] in S1. destruct S1 as [He1 Hm1].
  set (k1 := Z.max 0 n1) in *.
  assert (Hk1 : 0 <= k1) by (unfold k1; lia).
  assert (Hp1 : 0 < 2 ^ k1) by (apply Z.pow_pos_nonneg; lia).
  assert (Hm1nn : 0 <= shr_m r1) by (rewrite Hm1; apply Z.div_pos; lia).
  assert (Hm1le : shr_m r1 * 2 ^ k1 <= q).
  { rewrite Hm1, Z.mul_comm. apply Z.mul_div_le. lia. }
  assert (Hm1lt : shr_m r1 < 2 ^ 53).
  { rewrite Hm1. apply Z.div_lt_upper_bound; [lia|].
    rewrite <- Z.pow_add_r by lia.
    assert (2 ^ Zdigits2 q <= 2 ^ (k1 + 53)) by (apply Z.pow_le_mono_r; lia). lia. }
  pose proof (round_nearest_even_bounds (shr_m r1) (loc_of_shr_record r1)) as Hr.
  set (m2 := round_nearest_even (shr_m r1) (loc_of_shr_record r1)) in *.
  assert (Hd2 : Zdigits2 m2 <= 54).
  { apply Zdigits2_le; [lia | lia |].
    change (2 ^ 54) with (2 * 2 ^ 53). lia. }
  set (n2 := fexp prec emax (Zdigits2 m2 + e1) - e1).
  assert (Hn2 : Z.max 0 n2 <= 1).
  { unfold n2, fexp, SpecFloat.emin, prec, emax. lia. }
  pose proof (shr_spec (shr_record_of_loc m2 loc_Exact) e1 n2) as S2.
  rewrite shr_record_of_loc_m in S2. specialize (S2 ltac:(lia)).
  destruct (shr (shr_record_of_loc m2 loc_Exact) e1 n2) as [r2 e2].
  cbn [fst snd] in S2. destruct S2 as [He2 Hm2].
  set (k2 := Z.max 0 n2) in *.
  assert (Hk2 : 0 <= k2) by (unfold k2; lia).
  assert (Hp2 : 0 < 2 ^ k2) by (apply Z.pow_pos_nonneg; lia).
  assert (Hm2nn : 0 <= shr_m r2) by (rewrite Hm2; apply Z.div_pos; lia).
  assert (Hm2le : shr_m r2 * 2 ^ k2 <= m2).
  { rewrite Hm2, Z.mul_comm. apply Z.mul_div_le. lia. }
  exists (shr_m r2), (a - k1 - k2).
  replace (a - (a - k1 - k2)) with (k1 + k2) by lia.
  assert (He2' : e2 = - (a - k1 - k2)) by lia.
  split; [|split; [lia|split]].
  - destruct (shr_m r2) as [|mp|mp]; [left; now split| |lia].
    right. exists mp. split; [reflexivity|].
    replace (e2 <=? emax - prec) with true
      by (symmetry; apply Z.leb_le; unfold emax, prec; lia).
    now rewrite He2'.
  - rewrite Z.pow_add_r, <- Z.div_div by lia.
    rewrite <- Hm1, Hm2. apply Z.div_le_mono; lia.
  - assert (Hk1le : 2 ^ k1 <= 2 ^ kmax) by (apply Z.pow_le_mono_r; lia).
    rewrite Z.pow_add_r by lia.
    assert (shr_m r2 * 2 ^ k2 * 2 ^ k1 <= m2 * 2 ^ k1)
      by (apply Z.mul_le_mono_nonneg_r; lia).
    assert (m2 * 2 ^ k1 <= (shr_m r1 + 1) * 2 ^ k1)
      by (apply Z.mul_le_mono_nonneg_r; lia).
    lia.
Qed.

(** [int64] of a rounded quotient whose value lies in [[N, N+1)], the room
    below [N+1] being more than the rounding can add. *)
Lemma round_aux_trunc (s : bool) (q a kmax N : Z) (l : location) :
  0 <= q -> 0 <= kmax -> kmax + 2 <= a <= 1074 -> Zdigits2 q <= kmax + 53 ->
  0 <= N < 2 ^ 62 ->
  N * 2 ^ a <= q -> q + 2 ^ kmax < (N + 1) * 2 ^ a ->
  to_int64 (binary_round_aux prec emax s q (- a) l) = if s then - N else N.
Proof.
  intros Hq Hkm Ha Hdq HN Hlo Hhi.
  destruct (round_aux_shape s q a kmax l Hq Hkm Ha Hdq)
    as (m & t & Hres & Ht & Hml & Hmu).
  assert (Hu : 0 < 2 ^ (a - t)) by (apply Z.pow_pos_nonneg; lia).
  assert (Hpt : 0 < 2 ^ t) by (apply Z.pow_pos_nonneg; lia).
  assert (Hat : 2 ^ a = 2 ^ t * 2 ^ (a - t)).
  { rewrite <- Z.pow_add_r by lia. f_equal. lia. }
  assert (Hlow : N * 2 ^ t <= m).
  { eapply Z.le_trans; [|exact Hml]. apply Z.div_le_lower_bound; [lia|].
    rewrite Hat in Hlo. lia. }
  assert (Hupp : m < (N + 1) * 2 ^ t).
  { apply (Z.mul_lt_mono_pos_r (2 ^ (a - t))); [lia|]. rewrite Hat in Hhi. lia. }
  assert (Hdiv : m / 2 ^ t = N).
  { symmetry. apply (Z.div_unique m (2 ^ t) N (m - N * 2 ^ t)); lia. }
  destruct Hres as [[Hm0 ->] | (mp & Hmp & ->)].
  - subst m. rewrite Z.div_0_l in Hdiv by lia. subst N. now destruct s.
  - unfold to_int64. destruct (- t) as [|pe|pe] eqn:Et; try lia.
    replace (Zpos pe) with t by lia. rewrite <- Hmp, Hdiv.
    assert (Hr : ((GoInt.int_min <=? (if s then - N else N))
                  && ((if s then - N else N) <=? GoInt.int_max))%bool = true).
    { apply andb_true_iff. unfold GoInt.int_min, GoInt.int_max.
      change (2 ^ 62) with 4611686018427387904 in HN.
      change (2 ^ 63) with 9223372036854775808.
      split; apply Z.leb_le; destruct s; lia. }
    cbv zeta. now rewrite Hr.
Qed.

(** A quotient that stays below one after rounding converts to zero. *)
Lemma round_aux_below_one (s : bool) (q a : Z) (l : location) :
  0 <= q -> 53 <= a <= 1074 -> q + 2 ^ (a - 53) < 2 ^ a ->
  to_int64 (binary_round_aux prec emax s q (- a) l) = 0.
Proof.
  intros Hq Ha Hb.
  assert (Hp53 : 0 < 2 ^ (a - 53)) by (apply Z.pow_pos_nonneg; lia).
  assert (Hdq : Zdigits2 q <= a) by (apply Zdigits2_le; lia).
  rewrite (round_aux_trunc s q a (a - 53) 0 l) by (try reflexivity; lia).
  now destruct s.
Qed.

(** A mantissa of 53 digits with an exponent in range is already rounded. *)
Lemma binary_round_aux_exact (s : bool) (m : positive) (e : Z) :
  digits2_pos m = 53%positive -> -1074 <= e <= 971 ->
  binary_round_aux prec emax s (Zpos m) e loc_Exact = S754_finite s m e.
Proof.
  intros Hd He. unfold binary_round_aux, shr_fexp. cbn [Zdigits2]. rewrite Hd.
  assert (Hn : fexp prec emax (53 + e) - e = 0)
    by (unfold fexp, SpecFloat.emin, prec, emax; lia).
  rewrite Hn. cbn [shr shr_record_of_loc shr_m loc_of_shr_record round_nearest_even Zdigits2].
  rewrite Hd, Hn. cbn [shr shr_record_of_loc shr_m].
  replace (e <=? emax - prec) with true
    by (symmetry; apply Z.leb_le; unfold emax, prec; lia).
  reflexivity.
Qed.

(** [float64] of a small integer is exact: a mantissa of 53 digits and the
    exponent that goes with it. *)
Lemma binary_round_small (s : bool) (p : positive) :
  Zpos p < 2 ^ 53 ->
  exists m,
    binary_round prec emax s p 0 = S754_finite s m (Zpos (digits2_pos p) - 53) /\
    digits2_pos m = 53%positive /\
    Zpos m = Zpos p * 2 ^ (53 - Zpos (digits2_pos p)).
Proof.
  intros Hp. pose proof (digits2_le p 53 Hp) as Hd.
  unfold binary_round.
  assert (Hf : fexp prec emax (Zpos (digits2_pos p) + 0) = Zpos (digits2_pos p) - 53)
    by (unfold fexp, SpecFloat.emin, prec, emax; lia).
  rewrite Hf. unfold shl_align.
  destruct (Zpos (digits2_pos p) - 53 - 0) as [|k|k] eqn:Ek; [ |lia| ].
  - exists p. assert (E : digits2_pos p = 53%positive) by lia.
    rewrite E. change (Zpos 53 - 53) with 0.
    rewrite binary_round_aux_exact by (exact E || lia).
    split; [reflexivity|]. split; [reflexivity|]. change (2 ^ (53 - 53)) with 1. lia.
  - destruct (iter_xO k p) as [Hv Hdg].
    exists (Pos.iter xO p k).
    assert (Hdm : digits2_pos (Pos.iter xO p k) = 53%positive) by lia.
    rewrite binary_round_aux_exact by (exact Hdm || lia).
    split; [reflexivity|]. split; [exact Hdm|]. rewrite Hv. f_equal. f_equal. lia.
Qed.

(** The quotient and the exponent the division works with, for two mantissas
    of 53 digits. *)
Lemma SFdiv_core_53 (m1 m2 : positive) (e1 e2 : Z) :
  digits2_pos m1 = 53%positive -> digits2_pos m2 = 53%positive ->
  -1021 <= e1 - e2 ->
  exists l,
    SFdiv_core_binary prec emax (Zpos m1) e1 (Zpos m2) e2
    = (Zpos m1 * 2 ^ 53 / Zpos m2, e1 - e2 - 53, l).
Proof.
  intros H1 H2 He. unfold SFdiv_core_binary. cbn [Zdigits2]. rewrite H1, H2.
  assert (Hf : Z.min (fexp prec emax (53 + e1 - (53 + e2))) (e1 - e2) = e1 - e2 - 53)
    by (unfold fexp, SpecFloat.emin, prec, emax; lia).
  rewrite Hf. replace (e1 - e2 - (e1 - e2 - 53)) with 53 by lia.
  rewrite Z.shiftl_mul_pow2 by lia.
  unfold Z.div. destruct (Z.div_eucl (Zpos m1 * 2 ^ 53) (Zpos m2)) as [q r].
  now exists (new_location (Zpos m2) r).
Qed.


Lemma to_int64_add_zero (y : spec_float) :
  to_int64 (add (S754_zero false) y) = to_int64 y.
Proof. destruct y as [[|]|[|]| |s m e]; reflexivity. Qed.

Lemma of_int_signed (s : bool) (p : positive) :
  of_int (if s then Zneg p else Zpos p) = binary_round prec emax s p 0.
Proof. now destruct s. Qed.

(** [int64(float64(z))] is [z] for a small [z]. *)
Lemma to_int64_binary_round_small (s : bool) (p : positive) :
  Zpos p < 2 ^ 53 ->
  to_int64 (binary_round prec emax s p 0) = if s then Zneg p else Zpos p.
Proof.
  intros Hp. pose proof (digits2_le p 53 Hp) as Hd.
  destruct (binary_round_small s p Hp) as (m & -> & _ & Hm).
  set (dp := Zpos (digits2_pos p)) in *.
  assert (Hpw : 0 < 2 ^ (53 - dp)) by (apply Z.pow_pos_nonneg; lia).
  assert (Ha : match dp - 53 with
               | Zneg k => Zpos m / 2 ^ Zpos k
               | _ => Zpos m * 2 ^ (dp - 53)
               end = Zpos p).
  { destruct (dp - 53) as [|k|k] eqn:E; try lia.
    - replace (53 - dp) with 0 in Hm by lia. lia.
    - replace (Zpos k) with (53 - dp) by lia. rewrite Hm. apply Z.div_mul. lia. }
  unfold to_int64. rewrite Ha.
  assert (Hr : ((GoInt.int_min <=? (if s then - Zpos p else Zpos p))
                && ((if s then - Zpos p else Zpos p) <=? GoInt.int_max))%bool = true).
  { apply andb_true_iff. unfold GoInt.int_min, GoInt.int_max.
    change (2 ^ 53) with 9007199254740992 in Hp.
    change (2 ^ 63) with 9223372036854775808.
    split; apply Z.leb_le; destruct s; lia. }
  cbv zeta. rewrite Hr. now destruct s.
Qed.

Lemma shl_align_fst (m : positive) (e e' : Z) :
  e' <= e -> Zpos (fst (shl_align m e e')) = Zpos m * 2 ^ (e - e').
Proof.
  intros H. unfold shl_align. destruct (e' - e) as [|k|k] eqn:E; cbn [fst]; try lia.
  - replace (e - e') with 0 by lia. lia.
  - destruct (iter_xO k m) as [-> _]. f_equal. f_equal. lia.
Qed.

(** The rounded quotient of a sub-second number of nanoseconds by [1e9]: zero,
    or a mantissa at an exponent [- t] that stays [2 ^ (t - 31)] below one. *)
Lemma div_subsecond_shape (s : bool) (p : positive) :
  Zpos p < 1000000000 ->
  div (binary_round prec emax s p 0) (of_int 1000000000) = S754_zero s \/
  exists mp t,
    div (binary_round prec emax s p 0) (of_int 1000000000) = S754_finite s mp (- t) /\
    52 <= t <= 82 /\ Zpos mp + 2 ^ (t - 31) < 2 ^ t.
Proof.
  intros Hp.
  assert (Hp53 : Zpos p < 2 ^ 53) by (change (2 ^ 53) with 9007199254740992; lia).
  assert (Hp30 : Zpos p < 2 ^ 30) by (change (2 ^ 30) with 1073741824; lia).
  pose proof (digits2_le p 30 Hp30) as Hdp.
  destruct (binary_round_small s p Hp53) as (m & -> & Hdm & Hm).
  change (of_int 1000000000) with (S754_finite false 8388608000000000 (-23)).
  unfold div. cbn [SFdiv].
  destruct (SFdiv_core_53 m 8388608000000000 (Zpos (digits2_pos p) - 53) (-23)
              Hdm eq_refl ltac:(lia)) as (l & ->).
  replace (xorb s false) with s by now destruct s.
  set (dp := Zpos (digits2_pos p)) in *.
  replace (dp - 53 - -23 - 53) with (- (83 - dp)) by lia.
  set (A := 83 - dp) in *.
  assert (Hpow : 2 ^ (53 - dp) = 2 ^ (A - 53) * 2 ^ 23).
  { rewrite <- Z.pow_add_r by lia. f_equal. lia. }
  assert (Hpa : 2 ^ A = 2 ^ (A - 53) * 2 ^ 53).
  { rewrite <- Z.pow_add_r by lia. f_equal. lia. }
  set (P := 2 ^ (A - 53)) in *.
  assert (HP : 0 < P) by (apply Z.pow_pos_nonneg; lia).
  set (q := Zpos m * 2 ^ 53 / 8388608000000000).
  assert (Hq0 : 0 <= q) by (apply Z.div_pos; lia).
  assert (Hqb : q + P * 8388608 <= P * 9007199254740992).
  { unfold q. rewrite Hm, Hpow.
    change (2 ^ 53) with 9007199254740992. change (2 ^ 23) with 8388608.
    set (q' := Zpos p * (P * 8388608) * 9007199254740992 / 8388608000000000).
    assert (Hq : 8388608000000000 * q'
                 <= Zpos p * (P * 8388608) * 9007199254740992)
      by (apply Z.mul_div_le; lia).
    assert (HT : Zpos p * P <= 999999999 * P)
      by (apply Z.mul_le_mono_nonneg_r; lia).
    set (T := Zpos p * P) in *.
    replace (Zpos p * (P * 8388608) * 9007199254740992)
      with (T * 75557863725914323419136) in Hq by (unfold T; ring).
    lia. }
  change (2 ^ 53) with 9007199254740992 in Hpa.
  assert (Hdq : Zdigits2 q <= A - 53 + 53).
  { replace (A - 53 + 53) with A by lia. apply Zdigits2_le; [lia | lia |].
    rewrite Hpa. lia. }
  destruct (round_aux_shape s q A (A - 53) l Hq0 ltac:(lia) ltac:(lia) Hdq)
    as (mm & t & Hres & Ht & _ & Hmu).
  destruct Hres as [[_ ->] | (mp & Hmp & ->)]; [now left|].
  right. exists mp, t. split; [reflexivity|]. split; [lia|].
  subst mm. fold P in Hmu.
  assert (Hu : 0 < 2 ^ (A - t)) by (apply Z.pow_pos_nonneg; lia).
  assert (HAt : 2 ^ A = 2 ^ t * 2 ^ (A - t)).
  { rewrite <- Z.pow_add_r by lia. f_equal. lia. }
  assert (H31 : P * 4194304 = 2 ^ (t - 31) * 2 ^ (A - t)).
  { unfold P. change 4194304 with (2 ^ 22).
    rewrite <- !Z.pow_add_r by lia. f_equal. lia. }
  apply (Z.mul_lt_mono_pos_r (2 ^ (A - t))); [exact Hu|].
  rewrite Z.mul_add_distr_r, <- H31, <- HAt, Hpa. lia.
Qed.

(** The quotient of a sub-second number of nanoseconds by [1e9] converts to
    zero, whatever its sign. *)
Lemma div_subsecond (s : bool) (p : positive) :
  Zpos p < 1000000000 ->
  to_int64 (div (binary_round prec emax s p 0) (of_int 1000000000)) = 0.
Proof.
  intros Hp.
  destruct (div_subsecond_shape s p Hp) as [-> | (mp & t & -> & Ht & Hb)];
    [reflexivity|].
  assert (0 < 2 ^ (t - 31)) by (apply Z.pow_pos_nonneg; lia).
  unfold to_int64. destruct (- t) as [|pe|pe] eqn:Et; try lia.
  replace (Zpos pe) with t by lia.
  rewrite Z.div_small by lia. now destruct s.
Qed.

(** [int64(d.Seconds())] of a duration shorter than a second, of either sign,
    is zero. *)
Lemma durationSeconds_subsecond (d : Z) :
  - 1000000000 < d < 1000000000 -> durationSeconds d = 0.
Proof.
  intros Hd. unfold durationSeconds, Duration.Seconds, Duration.Second.
  rewrite (proj2 (Z.quot_small_iff d 1000000000 ltac:(lia))) by lia.
  rewrite (proj2 (Z.rem_small_iff d 1000000000 ltac:(lia))) by lia.
  change (of_int 0) with (S754_zero false).
  rewrite to_int64_add_zero.
  destruct d as [|p|p].
  - reflexivity.
  - apply (div_subsecond false p). lia.
  - apply (div_subsecond true p). lia.
Qed.

Lemma shl_align_noshift (m : positive) (e e' : Z) :
  e <= e' -> shl_align m e e' = (m, e).
Proof.
  intros H. unfold shl_align. destruct (e' - e) as [|k|k] eqn:E; try reflexivity. lia.
Qed.

(** Whole seconds plus a rounded fraction of a second convert to the whole
    seconds, for less than [2 ^ 22] seconds. *)
Lemma add_sec_nsec (s : bool) (ps pn : positive) :
  Zpos ps < 2 ^ 22 -> Zpos pn < 1000000000 ->
  to_int64 (add (binary_round prec emax s ps 0)
                (div (binary_round prec emax s pn 0) (of_int 1000000000)))
  = if s then Zneg ps else Zpos ps.
Proof.
  intros Hps Hpn.
  change (2 ^ 22) with 4194304 in Hps.
  assert (Hps53 : Zpos ps < 2 ^ 53) by (change (2 ^ 53) with 9007199254740992; lia).
  assert (Hps22 : Zpos ps < 2 ^ 22) by (change (2 ^ 22) with 4194304; lia).
  pose proof (digits2_le ps 22 Hps22) as Hdps.
  destruct (div_subsecond_shape s pn Hpn) as [-> | (mp & t & -> & Ht & Hb)].
  - rewrite <- (to_int64_binary_round_small s ps Hps53).
    destruct (binary_round_small s ps Hps53) as (mx & -> & _ & _). reflexivity.
  - destruct (binary_round_small s ps Hps53) as (mx & -> & Hdx & Hmx).
    set (dps := Zpos (digits2_pos ps)) in *.
    assert (Hdps1 : 1 <= dps) by (unfold dps; lia).
    unfold add. cbn [SFadd]. rewrite (Z.min_r (dps - 53) (- t)) by lia.
    pose proof (shl_align_fst mx (dps - 53) (- t) ltac:(lia)) as Hax.
    pose proof (shl_align_fst mp (- t) (- t) ltac:(lia)) as Hay.
    set (ax := fst (shl_align mx (dps - 53) (- t))) in *.
    set (ay := fst (shl_align mp (- t) (- t))) in *.
    replace (- t - - t) with 0 in Hay by lia.
    rewrite Z.pow_0_r, Z.mul_1_r in Hay.
    assert (Hax' : Zpos ax = Zpos ps * 2 ^ t).
    { rewrite Hax, Hmx, <- Z.mul_assoc, <- Z.pow_add_r by lia.
      do 2 f_equal. lia. }
    assert (Hpt : 0 < 2 ^ t) by (apply Z.pow_pos_nonneg; lia).
    assert (Hp31 : 0 < 2 ^ (t - 31)) by (apply Z.pow_pos_nonneg; lia).
    assert (Hsum : cond_Zopp s (Zpos ax) + cond_Zopp s (Zpos ay)
                   = if s then Zneg (ax + ay) else Zpos (ax + ay))
      by now destruct s.
    rewrite Hsum.
    assert (Hnorm : binary_normalize prec emax
                      (if s then Zneg (ax + ay) else Zpos (ax + ay)) (- t) false
                    = binary_round prec emax s (ax + ay) (- t))
      by now destruct s.
    rewrite Hnorm. unfold binary_round.
    assert (HM : Zpos (ax + ay) = Zpos ps * 2 ^ t + Zpos mp) by lia.
    assert (HdM : 53 <= Zpos (digits2_pos (ax + ay))).
    { pose proof (digits2_bounds (ax + ay)) as [_ Hu].
      assert (H52 : 2 ^ 52 <= Zpos (ax + ay)).
      { rewrite HM.
        assert (2 ^ 52 <= 2 ^ t) by (apply Z.pow_le_mono_r; lia). nia. }
      destruct (Z_le_gt_dec 53 (Zpos (digits2_pos (ax + ay)))) as [|Hgt]; [assumption|].
      assert (2 ^ Zpos (digits2_pos (ax + ay)) <= 2 ^ 52)
        by (apply Z.pow_le_mono_r; lia). lia. }
    rewrite shl_align_noshift
      by (unfold fexp, SpecFloat.emin, prec, emax; lia).
    rewrite (round_aux_trunc s (Zpos (ax + ay)) t (t - 31) (Zpos ps) loc_Exact).
    + now destruct s.
    + lia.
    + lia.
    + lia.
    + replace (t - 31 + 53) with (22 + t) by lia.
      apply Zdigits2_le; [lia | lia |].
      rewrite Z.pow_add_r by lia. change (2 ^ 22) with 4194304. nia.
    + change (2 ^ 62) with 4611686018427387904. lia.
    + lia.
    + nia.
Qed.

Lemma to_int64_add_zero_r (x : spec_float) :
  to_int64 (add x (S754_zero false)) = to_int64 x.
Proof. destruct x as [[|]|[|]| |s m e]; reflexivity. Qed.

(** [int64(d.Seconds())] is the number of whole seconds of [d], rounded toward
    zero, for every duration of less than [2 ^ 22] seconds (48 days) of either
    sign. *)
Lemma durationSeconds_trunc (d : Z) :
  Z.abs d < 4194304 * 1000000000 -> durationSeconds d = Z.quot d 1000000000.
Proof.
  intros Hd.
  assert (Hqr : d = 1000000000 * Z.quot d 1000000000 + Z.rem d 1000000000)
    by (apply Z.quot_rem'; lia).
  assert (Hsign : (0 <= d /\ 0 <= Z.quot d 1000000000 /\
                   0 <= Z.rem d 1000000000 < 1000000000) \/
                  (d < 0 /\ Z.quot d 1000000000 <= 0 /\
                   - 1000000000 < Z.rem d 1000000000 <= 0)).
  { destruct (Z_le_gt_dec 0 d) as [Hp|Hn].
    - left. split; [exact Hp|]. split.
      + apply Z.quot_pos; lia.
      + apply Z.rem_bound_pos; lia.
    - right. split; [lia|].
      replace d with (- (- d)) by lia.
      rewrite Z.quot_opp_l, Z.rem_opp_l by lia.
      pose proof (Z.quot_pos (- d) 1000000000 ltac:(lia) ltac:(lia)).
      pose proof (Z.rem_bound_pos (- d) 1000000000 ltac:(lia) ltac:(lia)).
      lia. }
  unfold durationSeconds, Duration.Seconds, Duration.Second.
  set (sec := Z.quot d 1000000000) in *. set (nsec := Z.rem d 1000000000) in *.
  change (2 ^ 22) with 4194304 in *.
  destruct sec as [|ps|ps].
  - (* less than a second *)
    change (of_int 0) with (S754_zero false). rewrite to_int64_add_zero.
    destruct nsec as [|pn|pn].
    + reflexivity.
    + apply (div_subsecond false pn). lia.
    + apply (div_subsecond true pn). lia.
  - destruct nsec as [|pn|pn]; [ | |lia].
    + change (div (of_int 0) (of_int 1000000000)) with (S754_zero false).
      rewrite to_int64_add_zero_r.
      apply (to_int64_binary_round_small false ps).
      change (2 ^ 53) with 9007199254740992. lia.
    + apply (add_sec_nsec false ps pn); [change (2 ^ 22) with 4194304|]; lia.
  - destruct nsec as [|pn|pn]; [ |lia| ].
    + change (div (of_int 0) (of_int 1000000000)) with (S754_zero false).
      rewrite to_int64_add_zero_r.
      apply (to_int64_binary_round_small true ps).
      change (2 ^ 53) with 9007199254740992. lia.
    + apply (add_sec_nsec true ps pn); [change (2 ^ 22) with 4194304|]; lia.
Qed.

(** Beyond that range the sum is rounded to the next whole second when the
    fraction is too close to one: 16777216.999999999 seconds become 16777217. *)
Lemma durationSeconds_rounds_up :
  durationSeconds 16777216999999999 = 16777217 /\
  Z.quot 16777216999999999 1000000000 = 16777216.
Proof. split; vm_compute; reflexivity. Qed.

End Float64Facts.

(** ** The query builder *)

Section QueryFacts.
Context {C : Carrier} {X : Externals}.
Import Fmt Placeholders.

Lemma Sprintf_lacks_percent (p t : string) (args : list fmt_arg) :
  lacks "%" p = true -> Sprintf (p ++ t) args = p ++ Sprintf t args.
Proof.
  induction p as [|c p IH]; simpl; intros H; [reflexivity|].
  apply andb_prop in H. destruct H as [Hc Hp].
  apply negb_true_iff in Hc. rewrite Hc. now rewrite IH.
Qed.

Lemma Sprintf_bound (col op : string) (d : Z) :
  lacks "%" col = true -> lacks "%" op = true ->
  Sprintf (col ++ op ++ "$%d") [FD d] = col ++ op ++ "$" ++ fmt_d d.
Proof.
  intros Hc Ho. rewrite !Sprintf_lacks_percent by assumption.
  simpl. now rewrite StringFacts.app_nil_r.
Qed.

Lemma rawWhere_factored (s : SearchQuery) :
  rawWhere s = whereOf "event_time" "event_time" s.
Proof. reflexivity. Qed.

Lemma reqInfoWhere_factored (s : SearchQuery) :
  reqInfoWhere s = whereOf "time" "event_time" s.
Proof. reflexivity. Qed.

Lemma whereClause_text (cls : list string) :
  (if 0 <? Z.of_nat (List.length cls)
   then Sprintf "WHERE %s" [FS (Join cls " AND ")] else Join cls " AND ")
  = whereText cls.
Proof.
  destruct cls as [|c cls]; [reflexivity|].
  change (0 <? Z.of_nat (List.length (c :: cls))) with true.
  unfold whereText, Join. cbn [Sprintf Ascii.eqb Bool.eqb fmt_verb orb].
  now rewrite StringFacts.app_nil_r.
Qed.

Lemma paging_text (s : SearchQuery) (args : list SqlArg) (d : Z) :
  (if String.eqb (ExportFormat s) "" then
     ((args ++ [ArgInt (GoInt.mul (PageNumber s) (PageSize s)); ArgInt (PageSize s)])%list,
      Sprintf "OFFSET $%d LIMIT $%d" [FD d; FD (GoInt.add d 1)])
   else (args, ""))
  = ((args ++ pagingArgs s)%list, pagingText s d).
Proof.
  unfold pagingArgs, pagingText. destruct (String.eqb (ExportFormat s) "").
  - f_equal. cbn [Sprintf Ascii.eqb Bool.eqb fmt_verb orb].
    now rewrite StringFacts.app_nil_r.
  - now rewrite List.app_nil_r.
Qed.

Lemma rawQuery_factored (s : SearchQuery) :
  rawQuery s = queryOf logEventSelect "audit_log_events" "event_time" "event_time" s.
Proof.
  unfold rawQuery, queryOf. rewrite rawWhere_factored.
  destruct (whereOf "event_time" "event_time" s) as [[cls args] d].
  rewrite whereClause_text, paging_text. reflexivity.
Qed.

Lemma reqInfoQuery_factored (s : SearchQuery) :
  reqInfoQuery s = queryOf reqInfoSelect "request_info" "time" "event_time" s.
Proof.
  unfold reqInfoQuery, queryOf. rewrite reqInfoWhere_factored.
  destruct (whereOf "time" "event_time" s) as [[cls args] d].
  rewrite whereClause_text, paging_text. reflexivity.
Qed.

(** The statements of a case produce the predicates of the bounds, then that
    of the relative window, then the filter clauses. *)
Lemma whereOf_spec (col colLast : string) (s : SearchQuery) :
  lacks "%" col = true -> lacks "%" colLast = true ->
  whereOf col colLast s =
  let '(fcl, fargs, d) := generateFilterClauses (FParams s) (afterBounds s) in
  ((boundClauses col s ++ lastClauses colLast s ++ fcl)%list,
   (boundArgs s ++ fargs)%list, d).
Proof.
  intros Hc Hl.
  assert (Hge : forall d, Sprintf (col ++ " >= $%d") [FD d] = col ++ " >= $" ++ fmt_d d).
  { intros d. now apply (Sprintf_bound col " >= "). }
  assert (Hlt : forall d, Sprintf (col ++ " < $%d") [FD d] = col ++ " < $" ++ fmt_d d).
  { intros d. now apply (Sprintf_bound col " < "). }
  assert (Hlast : forall v,
            Sprintf (colLast ++ " >= CURRENT_TIMESTAMP - '%d seconds'::interval") [FD v]
            = colLast ++ " >= CURRENT_TIMESTAMP - '" ++ fmt_d v ++ " seconds'::interval").
  { intros v. rewrite Sprintf_lacks_percent by exact Hl. reflexivity. }
  unfold whereOf, boundClauses, lastClauses, afterBounds, boundArgs.
  rewrite ?Hge, ?Hlt.
  destruct (TimeStart s) as [t1|], (TimeEnd s) as [t2|], (LastDuration s) as [d|];
    cbn [List.app List.length Z.of_nat];
    rewrite ?Hge, ?Hlt, ?Hlast;
    repeat match goal with
    | |- context [generateFilterClauses (FParams s) ?a] =>
        lazymatch a with
        | Zpos _ => fail
        | _ => let v := eval vm_compute in a in change a with v
        end
    end;
    match goal with
    | |- context [generateFilterClauses (FParams s) ?a] =>
        destruct (generateFilterClauses (FParams s) a) as [[fcl fargs] d']
    end; reflexivity.
Qed.

End QueryFacts.

Section QueryPlaceholders.
Context {C : Carrier} {X : Externals}.
Import Fmt Placeholders PlaceholderFacts.

Lemma placeholders_whereText (cls : list string) :
  placeholders (whereText cls) = List.flat_map placeholders cls.
Proof.
  destruct cls as [|c cls]; [reflexivity|].
  unfold whereText, placeholders.
  rewrite scan_lacks_dollar by reflexivity. apply placeholders_concat.
Qed.

Lemma placeholders_logEventSelect (t w o p : string) :
  lacks "$" t = true -> lacks "$" o = true ->
  placeholders (build logEventSelect [t; w; o; p])
  = (placeholders w ++ placeholders p)%list.
Proof.
  intros Ht Ho. unfold placeholders, build. simpl.
  rewrite scan_lacks_dollar by exact Ht. simpl.
  rewrite scan_app by reflexivity. f_equal.
  unfold placeholders. simpl.
  rewrite scan_lacks_dollar by exact Ho. simpl.
  rewrite scan_app by reflexivity. simpl. now rewrite List.app_nil_r.
Qed.

Lemma placeholders_reqInfoSelect (t w o p : string) :
  lacks "$" t = true -> lacks "$" o = true ->
  placeholders (build reqInfoSelect [t; w; o; p])
  = (placeholders w ++ placeholders p)%list.
Proof.
  intros Ht Ho. unfold placeholders, build. simpl.
  rewrite scan_lacks_dollar by exact Ht. simpl.
  rewrite scan_app by reflexivity. f_equal.
  unfold placeholders. simpl.
  rewrite scan_lacks_dollar by exact Ho. simpl.
  rewrite scan_app by reflexivity. simpl. now rewrite List.app_nil_r.
Qed.

Lemma lacks_dollar_timeOrder (s : SearchQuery) : lacks "$" (timeOrder s) = true.
Proof. unfold timeOrder. now destruct (TimeAscending s). Qed.

Lemma placeholders_lastClauses (s : SearchQuery) :
  List.flat_map placeholders (lastClauses "event_time" s) = [].
Proof.
  unfold lastClauses. destruct (LastDuration s) as [d|]; [|reflexivity].
  simpl. rewrite List.app_nil_r. apply placeholders_lacks_dollar.
  change (lacks "$" ("event_time >= CURRENT_TIMESTAMP - '" ++
                     (fmt_d (durationSeconds d) ++ " seconds'::interval")) = true).
  now rewrite !lacks_app, lacks_dollar_fmt_d.
Qed.

Lemma placeholders_boundClauses (col : string) (s : SearchQuery) :
  col = "event_time" \/ col = "time" ->
  List.flat_map placeholders (boundClauses col s)
  = zseq 1 (List.length (boundArgs s)).
Proof.
  unfold boundClauses, boundArgs.
  intros [-> | ->]; destruct (TimeStart s), (TimeEnd s); reflexivity.
Qed.

Lemma placeholders_pagingText (s : SearchQuery) (d : Z) :
  1 <= d < GoInt.int_max ->
  placeholders (pagingText s d) = zseq d (List.length (pagingArgs s)).
Proof.
  intros Hd. unfold pagingText, pagingArgs.
  destruct (String.eqb (ExportFormat s) ""); [|reflexivity].
  rewrite GoIntFacts.add_small by (unfold GoInt.int_min, GoInt.int_max in *; lia).
  change ("OFFSET $" ++ fmt_d d ++ " LIMIT $" ++ fmt_d (d + 1))
    with ("OFFSET " ++ "$" ++ fmt_d d ++ (" LIMIT $" ++ fmt_d (d + 1))).
  rewrite placeholders_dollar by (reflexivity || lia).
  rewrite <- (StringFacts.app_nil_r (fmt_d (d + 1))).
  change (" LIMIT $" ++ fmt_d (d + 1) ++ "")
    with (" LIMIT " ++ "$" ++ fmt_d (d + 1) ++ "").
  rewrite placeholders_dollar by (reflexivity || lia).
  cbn [List.length]. rewrite !zseq_cons. reflexivity.
Qed.

(** The placeholders of a factored query, under the contract of the filter
    clauses. *)
Lemma placeholders_queryOf (template table col : string) (s : SearchQuery) :
  (forall t w o p, lacks "$" t = true -> lacks "$" o = true ->
     placeholders (build template [t; w; o; p])
     = (placeholders w ++ placeholders p)%list) ->
  lacks "$" table = true ->
  col = "event_time" \/ col = "time" ->
  filterContract s ->
  placeholders (fst (queryOf template table col "event_time" s))
  = zseq 1 (List.length (snd (queryOf template table col "event_time" s))).
Proof.
  intros Htmpl Htable Hcol Hf. unfold queryOf.
  rewrite whereOf_spec by (destruct Hcol as [-> | ->]; reflexivity).
  unfold filterContract in Hf.
  destruct (generateFilterClauses (FParams s) (afterBounds s)) as [[fcl fargs] d].
  destruct Hf as (Hd & Hmax & Hfcl). cbn [fst snd].
  rewrite Htmpl by (exact Htable || apply lacks_dollar_timeOrder).
  rewrite placeholders_whereText, !List.flat_map_app.
  rewrite placeholders_boundClauses by exact Hcol.
  rewrite placeholders_lastClauses, Hfcl. cbn [List.app].
  rewrite placeholders_pagingText
    by (split; [unfold afterBounds in Hd; lia | exact Hmax]).
  rewrite !List.length_app. unfold afterBounds in *. subst d.
  rewrite zseq_app.
  replace (1 + Z.of_nat (List.length (boundArgs s)) + Z.of_nat (List.length fargs))
    with (1 + Z.of_nat (List.length (boundArgs s) + List.length fargs)) by lia.
  rewrite zseq_app. f_equal; lia.
Qed.

End QueryPlaceholders.

(** The filter clauses modelled from the specification keep the contract. *)
Lemma spec_filter_clauses_contract `{Carrier} (fp : list (Spec.Column * string)) :
  forall d, 0 <= d ->
  let '(cl, args, d') := Spec.generateFilterClauses fp d in
  d' = d + Z.of_nat (List.length args) /\
  List.flat_map Placeholders.placeholders cl = Placeholders.zseq d (List.length args).
Proof.
  induction fp as [|[c v] fp IH]; intros d Hd.
  - cbn. split; [lia | reflexivity].
  - cbn [Spec.generateFilterClauses]. specialize (IH (d + 1) ltac:(lia)).
    destruct (Spec.generateFilterClauses fp (d + 1)) as [[cl args] d'].
    destruct IH as [IH1 IH2]. split.
    + cbn [List.length]. lia.
    + cbn [List.flat_map List.length]. rewrite PlaceholderFacts.zseq_cons, IH2.
      assert (E : Fmt.Sprintf "%s = $%d" [Fmt.FS (Spec.column_name c); Fmt.FD d]
                  = (Spec.column_name c ++ " = ") ++ "$" ++ Fmt.fmt_d d ++ "").
      { cbn. now rewrite StringFacts.app_assoc. }
      rewrite E, PlaceholderFacts.placeholders_dollar;
        [reflexivity | now destruct c | exact Hd | reflexivity].
Qed.

Section QueryTheorems.
Context {C : Carrier} {X : Externals}.
Import Fmt Placeholders PlaceholderFacts.

(** C1. A search of the request-info table over a relative window puts its
    predicate on the column [event_time], which that table does not have: its
    time column is [time], the one the absolute bounds of the same case use.
    The specification asks for [time]; the code writes [event_time]. *)
Theorem reqinfo_last_duration_filters_event_time
  (d : Z) (fp : FilterParams) (asc : bool) (fmt : string) (page size : Z) :
  let s := mkSearchQuery reqInfoQ None None (Some d) fp asc fmt page size in
  fst (fst (reqInfoWhere s))
  = ("event_time >= CURRENT_TIMESTAMP - '" ++ fmt_d (durationSeconds d)
       ++ " seconds'::interval") :: fst (fst (generateFilterClauses fp 1))
  /\ List.In "time" (columnsOf requestInfoTable)
  /\ ~ List.In "event_time" (columnsOf requestInfoTable).
Proof.
  intros s. split; [|split].
  - rewrite reqInfoWhere_factored, whereOf_spec by reflexivity.
    change (afterBounds s) with 1. change (FParams s) with fp.
    destruct (generateFilterClauses fp 1) as [[fcl fargs] d']. reflexivity.
  - vm_compute. tauto.
  - vm_compute. intros H.
    repeat (destruct H as [H | H]; [discriminate H|]). exact H.
Qed.

(** C4. In both cases of [Search] the predicates are: [col >= $n] for an
    absolute start, [col < $n] for an absolute end, each with the formatted
    bound as the argument of that position and nothing of the bound in the
    text, then the predicate of the relative window, then the filter clauses;
    the where clause is [WHERE] followed by the predicates joined with [AND],
    and is empty when there is no predicate. *)
Theorem search_where_clause (s : SearchQuery) :
  let '(fcl, fargs, d) := generateFilterClauses (FParams s) (afterBounds s) in
  (rawWhere s
   = ((boundClauses "event_time" s ++ lastClauses "event_time" s ++ fcl)%list,
      (boundArgs s ++ fargs)%list, d)
   /\ fst (rawQuery s)
      = build logEventSelect
          ["audit_log_events"; whereText (fst (fst (rawWhere s))); timeOrder s;
           pagingText s d])
  /\ (reqInfoWhere s
      = ((boundClauses "time" s ++ lastClauses "event_time" s ++ fcl)%list,
         (boundArgs s ++ fargs)%list, d)
      /\ fst (reqInfoQuery s)
         = build reqInfoSelect
             ["request_info"; whereText (fst (fst (reqInfoWhere s))); timeOrder s;
              pagingText s d]).
Proof.
  pose proof (whereOf_spec "event_time" "event_time" s eq_refl eq_refl) as Hr.
  pose proof (whereOf_spec "time" "event_time" s eq_refl eq_refl) as Hq.
  rewrite rawQuery_factored, reqInfoQuery_factored.
  rewrite rawWhere_factored, reqInfoWhere_factored. unfold queryOf.
  destruct (generateFilterClauses (FParams s) (afterBounds s)) as [[fcl fargs] d].
  rewrite Hr, Hq. repeat split.
Qed.

(** C5. In both cases of [Search] the paging clause [OFFSET $d LIMIT $d+1] and
    its two arguments, the offset and the page size, are appended when the
    export format is the empty string, and nothing is appended for any other
    format, [ndjson] and [csv] among them. The offset is the page number times
    the page size in the 64-bit arithmetic of [int]: the product itself
    whenever it lies between [- 2^63] and [2^63 - 1], and the product wrapped
    modulo [2^64] into that range otherwise. *)
Theorem search_paging (s : SearchQuery) :
  let offset := (PageNumber s * PageSize s + 2 ^ 63) mod 2 ^ 64 - 2 ^ 63 in
  (let '(cls, args, d) := rawWhere s in
   if String.eqb (ExportFormat s) "" then
     rawQuery s
     = (build logEventSelect
          ["audit_log_events"; whereText cls; timeOrder s;
           "OFFSET $" ++ fmt_d d ++ " LIMIT $" ++ fmt_d (GoInt.add d 1)],
        (args ++ [ArgInt offset; ArgInt (PageSize s)])%list)
   else
     rawQuery s
     = (build logEventSelect ["audit_log_events"; whereText cls; timeOrder s; ""],
        args))
  /\
  (let '(cls, args, d) := reqInfoWhere s in
   if String.eqb (ExportFormat s) "" then
     reqInfoQuery s
     = (build reqInfoSelect
          ["request_info"; whereText cls; timeOrder s;
           "OFFSET $" ++ fmt_d d ++ " LIMIT $" ++ fmt_d (GoInt.add d 1)],
        (args ++ [ArgInt offset; ArgInt (PageSize s)])%list)
   else
     reqInfoQuery s
     = (build reqInfoSelect ["request_info"; whereText cls; timeOrder s; ""],
        args))
  /\
  (- 2 ^ 63 <= PageNumber s * PageSize s <= 2 ^ 63 - 1 ->
   offset = PageNumber s * PageSize s).
Proof.
  intros offset.
  assert (Ho : GoInt.mul (PageNumber s) (PageSize s) = offset) by reflexivity.
  split; [|split].
  - rewrite rawQuery_factored, rawWhere_factored. unfold queryOf.
    destruct (whereOf "event_time" "event_time" s) as [[cls args] d].
    unfold pagingText, pagingArgs. rewrite Ho.
    destruct (String.eqb (ExportFormat s) ""); rewrite ?List.app_nil_r; reflexivity.
  - rewrite reqInfoQuery_factored, reqInfoWhere_factored. unfold queryOf.
    destruct (whereOf "time" "event_time" s) as [[cls args] d].
    unfold pagingText, pagingArgs. rewrite Ho.
    destruct (String.eqb (ExportFormat s) ""); rewrite ?List.app_nil_r; reflexivity.
  - intros Hr. rewrite <- Ho. apply GoIntFacts.mul_small.
    unfold GoInt.int_min, GoInt.int_max. exact Hr.
Qed.

(** C9. Whenever [Search] sends a query, in either case and under every export
    format, the placeholders of its text are [$1], [$2], ... up to the number
    of arguments sent with it, in this order, so that the i-th placeholder
    names the i-th argument; this holds when the filter clauses obtained from
    [generateFilterClauses] keep their part of the numbering. *)
Theorem search_placeholders_match_args
  (s : SearchQuery) (q : string) (args : list SqlArg) :
  filterContract s ->
  searchQuery s = Some (q, args) ->
  placeholders q = zseq 1 (List.length args).
Proof.
  intros Hf Hq. unfold searchQuery in Hq.
  destruct (Query s); [ | |discriminate].
  - rewrite rawQuery_factored in Hq. injection Hq as Hq.
    pose proof (placeholders_queryOf logEventSelect "audit_log_events" "event_time" s
                  placeholders_logEventSelect eq_refl (or_introl eq_refl) Hf) as H.
    rewrite Hq in H. cbn [fst snd] in H. exact H.
  - rewrite reqInfoQuery_factored in Hq. injection Hq as Hq.
    pose proof (placeholders_queryOf reqInfoSelect "request_info" "time" s
                  placeholders_reqInfoSelect eq_refl (or_intror eq_refl) Hf) as H.
    rewrite Hq in H. cbn [fst snd] in H. exact H.
Qed.

(** C10. The predicate of a relative window holds, as a literal, the integer
    part of the [float64] number of seconds of the duration. For every
    duration of less than 2^22 seconds (48 days), of either sign, that literal
    is the number of whole seconds of the duration, rounded toward zero, in
    both cases of [Search]; and for a duration shorter than a second it is
    zero, so that the predicate compares with the current time minus
    ['0 seconds']. *)
Theorem search_last_duration_whole_seconds (s : SearchQuery) (d : Z) :
  LastDuration s = Some d ->
  Z.abs d < 4194304 * 1000000000 ->
  let clause :=
    "event_time >= CURRENT_TIMESTAMP - '"
      ++ fmt_d (Z.quot d 1000000000) ++ " seconds'::interval" in
  List.In clause (fst (fst (rawWhere s))) /\
  List.In clause (fst (fst (reqInfoWhere s))) /\
  (Z.abs d < 1000000000 ->
   clause = "event_time >= CURRENT_TIMESTAMP - '0 seconds'::interval").
Proof.
  intros Hl Hd clause.
  assert (Hlast : lastClauses "event_time" s = [clause]).
  { unfold lastClauses. rewrite Hl.
    now rewrite (Float64Facts.durationSeconds_trunc d Hd). }
  split; [|split].
  - rewrite rawWhere_factored, whereOf_spec by reflexivity.
    destruct (generateFilterClauses (FParams s) (afterBounds s)) as [[fcl fargs] d'].
    cbn [fst]. rewrite Hlast. apply List.in_or_app. right. now left.
  - rewrite reqInfoWhere_factored, whereOf_spec by reflexivity.
    destruct (generateFilterClauses (FParams s) (afterBounds s)) as [[fcl fargs] d'].
    cbn [fst]. rewrite Hlast. apply List.in_or_app. right. now left.
  - intros Hs. unfold clause.
    rewrite (proj2 (Z.quot_small_iff d 1000000000 ltac:(lia))) by lia.
    reflexivity.
Qed.

End QueryTheorems.
Section QueryWitnesses.
Import Demo.

Lemma search_placeholders_match_args_witness :
  let s := Demo.request rawQ (Some 5) (Some 9) None [(Spec.ColBucket, "b")] "" 2 10 in
  filterContract s /\
  searchQuery s = Some (rawQuery s) /\
  Placeholders.placeholders (fst (rawQuery s))
  = Placeholders.zseq 1 (List.length (snd (rawQuery s))).
Proof.
  intros s.
  assert (Hf : filterContract s) by (vm_compute; repeat split; reflexivity).
  split; [exact Hf|]. split; [reflexivity|].
  apply (search_placeholders_match_args s (fst (rawQuery s)) (snd (rawQuery s)) Hf).
  vm_compute; reflexivity.
Defined.

Lemma search_last_duration_whole_seconds_witness :
  let s := Demo.request reqInfoQ None None (Some (- 90500000000)) [] "csv" 0 0 in
  LastDuration s = Some (- 90500000000) /\
  List.In "event_time >= CURRENT_TIMESTAMP - '-90 seconds'::interval"
          (fst (fst (rawWhere s))).
Proof.
  intros s. split; [reflexivity|].
  destruct (search_last_duration_whole_seconds s (- 90500000000) eq_refl
              ltac:(vm_compute; reflexivity)) as (H & _).
  exact H.
Defined.

(** Beyond 2^24 seconds the literal is no longer the whole seconds of the
    duration: 16777216.999999999 seconds give ['16777217 seconds']. *)
Lemma last_duration_rounds_up :
  let s := Demo.request rawQ None None (Some 16777216999999999) [] "" 0 10 in
  fst (fst (rawWhere s))
  = ["event_time >= CURRENT_TIMESTAMP - '16777217 seconds'::interval"] /\
  Z.quot 16777216999999999 1000000000 = 16777216.
Proof. split; vm_compute; reflexivity. Qed.

(** A page number and a page size whose product does not fit: the offset sent
    is not the product. *)
Lemma paging_offset_wraps :
  let s := Demo.request rawQ None None None [] "" 4611686018427387904 2 in
  snd (rawQuery s) = [ArgInt (- 9223372036854775808); ArgInt 2] /\
  PageNumber s * PageSize s = 9223372036854775808.
Proof. split; vm_compute; reflexivity. Qed.

End QueryWitnesses.

(** ** The write path *)

Section InsertFacts.
Context {C : Carrier} {X : Externals}.

Lemma engine_exec_raw (event : Event) (eventJSON : string) (d : DB) :
  engine_exec (build insertAuditLogEvent [Name auditLogEventsTable])
              (rawArgsOf event eventJSON) d
  = Ok (mkDB (audit_log_events d ++ [rawArgsOf event eventJSON])%list (request_info d)).
Proof. unfold engine_exec. reflexivity. Qed.

Lemma engine_exec_req (event : Event) (d : DB) :
  engine_exec (build insertRequestInfo [Name requestInfoTable]) (requestInfoArgs event) d
  = Ok (mkDB (audit_log_events d) (request_info d ++ [requestInfoArgs event])%list).
Proof. unfold engine_exec. reflexivity. Qed.

(** The rows a successful call adds and the calls it makes. *)
Lemma InsertEvent_outcome (eventBytes : string) (event : Event) (w : World) :
  isEmptyEvent eventBytes = false ->
  parseJSONEvent eventBytes = Ok event ->
  tx w = None ->
  let '(r, w') := InsertEvent eventBytes w in
  tx w' = None /\
  match r with
  | Some _ => committed w' = committed w
  | None =>
      exists eventJSON,
        jsonMarshalEvent event = Ok eventJSON /\
        committed w'
        = mkDB (audit_log_events (committed w) ++ [rawArgsOf event eventJSON])%list
               (request_info (committed w) ++ [requestInfoArgs event])%list /\
        ops w'
        = (ops w ++
           [OpParse eventBytes; OpBeginTx;
            OpExec (build insertAuditLogEvent [Name auditLogEventsTable])
                   (rawArgsOf event eventJSON);
            OpExec (build insertRequestInfo [Name requestInfoTable])
                   (requestInfoArgs event);
            OpCommit; OpRollback])%list
  end.
Proof.
  intros He Hp Ht. destruct w as [db t faults tr]. simpl in Ht. subst t.
  unfold InsertEvent, insertBody, insertInTx, bind, lift, BeginTx, tx_ExecContext,
    tx_Commit, tx_Rollback, log_Printf, take_fault, record_op.
  rewrite He, Hp. cbn [committed tx dbfaults ops].
  destruct faults as [|[e1|] faults]; cbn [committed tx dbfaults ops]; [ |now split| ].
  all: destruct (jsonMarshalEvent event) as [eventJSON|e];
    cbn [committed tx dbfaults ops]; [ |now split].
  all: try (destruct faults as [|[e2|] faults]; cbn [committed tx dbfaults ops]; [ |now split| ]).
  all: rewrite engine_exec_raw; cbn [committed tx dbfaults ops].
  all: try (destruct faults as [|[e3|] faults]; cbn [committed tx dbfaults ops]; [ |now split| ]).
  all: rewrite engine_exec_req; cbn [committed tx dbfaults ops].
  all: try (destruct faults as [|[e4|] faults]; cbn [committed tx dbfaults ops]; [ |now split| ]).
  all: (split; [reflexivity|]); exists eventJSON; split; [reflexivity|];
    cbn [audit_log_events request_info]; split; [reflexivity|];
    rewrite <- !List.app_assoc; reflexivity.
Qed.

(** Without a failure on the way the call succeeds. *)
Lemma InsertEvent_succeeds (eventBytes : string) (event : Event) (eventJSON : string)
  (w : World) :
  isEmptyEvent eventBytes = false ->
  parseJSONEvent eventBytes = Ok event ->
  jsonMarshalEvent event = Ok eventJSON ->
  dbfaults w = [] ->
  fst (InsertEvent eventBytes w) = None.
Proof.
  intros He Hp Hm Hf. destruct w as [db t faults tr]. simpl in Hf. subst faults.
  unfold InsertEvent, insertBody, insertInTx, bind, lift, BeginTx, tx_ExecContext,
    tx_Commit, tx_Rollback, log_Printf, take_fault, record_op.
  rewrite He, Hp. cbn [committed tx dbfaults ops]. rewrite Hm.
  cbn [committed tx dbfaults ops]. rewrite engine_exec_raw.
  cbn [committed tx dbfaults ops]. rewrite engine_exec_req. reflexivity.
Qed.


(** C2. For a non-empty event that parses, starting with no transaction open:
    a call that returns an error leaves the committed rows as they were and no
    transaction open; a call that returns [nil] has begun one transaction,
    inserted the raw-log row, then the request-info row, committed, and added
    exactly these two rows; and without a failure on the way the call returns
    [nil]. *)
Theorem insert_event_atomic (eventBytes : string) (event : Event) (w : World) :
  isEmptyEvent eventBytes = false ->
  parseJSONEvent eventBytes = Ok event ->
  tx w = None ->
  let '(r, w') := InsertEvent eventBytes w in
  tx w' = None /\
  match r with
  | Some _ => committed w' = committed w
  | None =>
      exists eventJSON,
        jsonMarshalEvent event = Ok eventJSON /\
        committed w'
        = mkDB (audit_log_events (committed w) ++ [rawArgsOf event eventJSON])%list
               (request_info (committed w) ++ [requestInfoArgs event])%list /\
        ops w'
        = (ops w ++
           [OpParse eventBytes; OpBeginTx;
            OpExec (build insertAuditLogEvent [Name auditLogEventsTable])
                   (rawArgsOf event eventJSON);
            OpExec (build insertRequestInfo [Name requestInfoTable])
                   (requestInfoArgs event);
            OpCommit; OpRollback])%list
  end /\
  (dbfaults w = [] ->
   forall eventJSON, jsonMarshalEvent event = Ok eventJSON -> r = None).
Proof.
  intros He Hp Ht.
  pose proof (InsertEvent_outcome eventBytes event w He Hp Ht) as H.
  pose proof (fun j Hm Hf => InsertEvent_succeeds eventBytes event j w He Hp Hm Hf) as Hs.
  destruct (InsertEvent eventBytes w) as [r w']. cbn [fst] in Hs.
  destruct H as [H1 H2]. repeat split; [exact H1 | exact H2 |].
  intros Hf eventJSON Hm. exact (Hs eventJSON Hm Hf).
Qed.

(** C6. When [isEmptyEvent] is the test for an empty or whitespace-only payload,
    [InsertEvent] on such a payload returns [nil] and leaves the world as it
    was: nothing is parsed, no transaction is begun, nothing is written or
    logged. *)
Theorem insert_event_empty_noop (eventBytes : string) (w : World) :
  (forall b, isEmptyEvent b = Spec.isEmptyEvent b) ->
  List.Forall (fun c => Spec.is_space c = true) (list_ascii_of_string eventBytes) ->
  InsertEvent eventBytes w = (None, w).
Proof.
  intros Hx Hs. unfold InsertEvent. rewrite Hx.
  replace (Spec.isEmptyEvent eventBytes) with true; [reflexivity|].
  symmetry. induction eventBytes as [|c b IH]; [reflexivity|].
  simpl in *. inversion Hs as [|? ? Hc Hb]; subst.
  rewrite Hc. now apply IH.
Qed.

(** C7. When [InsertEvent] succeeds on a non-empty event that parses, the
    request-info row it has added holds, in the columns of the request and of
    the response content length, a nil pointer (NULL) where the length cannot
    be derived and the length itself where it can. *)
Theorem insert_event_content_length_null
  (eventBytes : string) (event : Event) (w : World) :
  isEmptyEvent eventBytes = false ->
  parseJSONEvent eventBytes = Ok event ->
  tx w = None ->
  fst (InsertEvent eventBytes w) = None ->
  exists row,
    request_info (committed (snd (InsertEvent eventBytes w)))
    = (request_info (committed w) ++ [row])%list /\
    List.nth_error row 11
    = Some (ArgUint64Ptr match getRequestContentLength event with
                         | Ok n => Some n
                         | Err _ => None
                         end) /\
    List.nth_error row 12
    = Some (ArgUint64Ptr match getResponseContentLength event with
                         | Ok n => Some n
                         | Err _ => None
                         end) /\
    List.nth_error (columnsOf requestInfoTable) 11 = Some "request_content_length" /\
    List.nth_error (columnsOf requestInfoTable) 12 = Some "response_content_length".
Proof.
  intros He Hp Ht Hr.
  pose proof (InsertEvent_outcome eventBytes event w He Hp Ht) as H.
  destruct (InsertEvent eventBytes w) as [r w']. cbn [fst snd] in *. subst r.
  destruct H as (_ & eventJSON & _ & Hc & _).
  exists (requestInfoArgs event). rewrite Hc. repeat split.
Qed.

End InsertFacts.

Section InsertWitnesses.
Import Demo.

Lemma insert_event_atomic_witness :
  let w := Demo.world [None; None; Some "pq: connection lost"] in
  isEmptyEvent "{abc}" = false /\
  tx w = None /\
  fst (InsertEvent "{abc}" w) = Some "pq: connection lost" /\
  committed (snd (InsertEvent "{abc}" w)) = committed w.
Proof.
  intros w.
  pose proof (insert_event_atomic "{abc}"
                (Demo.event "{abc}")
                w eq_refl eq_refl eq_refl) as H.
  split; [reflexivity|]. split; [reflexivity|].
  split; [vm_compute; reflexivity|].
  destruct (InsertEvent "{abc}" w) as [r w'] eqn:E.
  assert (Hr : r = Some "pq: connection lost").
  { apply (f_equal fst) in E. vm_compute in E. now rewrite <- E. }
  subst r. cbn [snd]. exact (proj1 (proj2 H)).
Defined.

Lemma insert_event_empty_noop_witness :
  let b := String (ascii_of_nat 32) (String (ascii_of_nat 10) "") in
  List.Forall (fun c => Spec.is_space c = true) (list_ascii_of_string b) /\
  InsertEvent b (Demo.world []) = (None, Demo.world []).
Proof.
  intros b.
  assert (H : List.Forall (fun c => Spec.is_space c = true) (list_ascii_of_string b)).
  { repeat constructor. }
  split; [exact H|].
  apply (insert_event_empty_noop b (Demo.world [])); [reflexivity | exact H].
Defined.

Lemma insert_event_content_length_null_witness :
  exists row,
    request_info (committed (snd (InsertEvent "{abc}" (Demo.world []))))
    = [row] /\
    List.nth_error row 11 = Some (ArgUint64Ptr (Some 5)) /\
    List.nth_error row 12 = Some (ArgUint64Ptr None).
Proof.
  pose proof (insert_event_content_length_null (X := Demo.externals)
                "{abc}" (Demo.event "{abc}") (Demo.world [])
                eq_refl eq_refl eq_refl) as H.
  destruct H as (row & H1 & H2 & H3 & _); [vm_compute; reflexivity|].
  exists row. repeat split; assumption.
Defined.

End InsertWitnesses.
(** ** The buffered writer *)

Section BufioFacts.

Lemma length_app (a b : string) :
  String.length (a ++ b) = (String.length a + String.length b)%nat.
Proof. induction a as [|c a IH]; [reflexivity|]. cbn. now rewrite IH. Qed.

Lemma bufSize_pos : (0 < bufSize)%nat.
Proof. unfold bufSize. lia. Qed.

Lemma received_app (a b : list SinkEvent) :
  received (a ++ b) = received a ++ received b.
Proof.
  induction a as [|ev a IH]; [reflexivity|].
  cbn [app received List.fold_right]. fold (received (a ++ b)). fold (received a).
  now rewrite IH, StringFacts.app_assoc.
Qed.

Lemma received_blocks_one (block : string) : received [EvBytes block] = block.
Proof. cbn. apply StringFacts.app_nil_r. Qed.

(** A writer that holds an error takes nothing more. *)
Lemma bw_WriteByte_err (c : ascii) (b : bufioWriter) (e : error) :
  bw_err b = Some e -> bw_WriteByte c b = b.
Proof. intros H. unfold bw_WriteByte. now rewrite H. Qed.

Lemma bw_WriteString_err (s : string) : forall (b : bufioWriter) (e : error),
  bw_err b = Some e -> bw_WriteString s b = b.
Proof.
  induction s as [|c s IH]; intros b e H; [reflexivity|].
  cbn [bw_WriteString]. rewrite (bw_WriteByte_err c b e H). now apply (IH b e).
Qed.

Lemma bw_Flush_err (b : bufioWriter) (e : error) :
  bw_err b = Some e -> bw_Flush b = b.
Proof. intros H. unfold bw_Flush. now rewrite H. Qed.

Lemma bw_WriteString_app (a c : string) : forall b,
  bw_WriteString (a ++ c) b = bw_WriteString c (bw_WriteString a b).
Proof. induction a as [|x a IH]; intros b; [reflexivity|]. cbn. apply IH. Qed.

(** What fits in the buffer stays in the buffer. *)
Lemma bw_WriteString_fits (s : string) : forall (w : Sink) (buf : string),
  (String.length buf + String.length s <= bufSize)%nat ->
  bw_WriteString s (mkBufio w buf None) = mkBufio w (buf ++ s) None.
Proof.
  induction s as [|c s IH]; intros w buf H.
  - now rewrite StringFacts.app_nil_r.
  - cbn [bw_WriteString String.length] in *. unfold bw_WriteByte. cbn [bw_err bw_buf bw_sink].
    replace (bufSize <=? String.length buf)%nat with false
      by (symmetry; apply Nat.leb_gt; lia).
    cbn [bw_err bw_buf bw_sink]. rewrite IH.
    + now rewrite StringFacts.app_assoc.
    + rewrite length_app. cbn [String.length]. lia.
Qed.

(** A full buffer and one more byte, on a sink that accepts the write. *)
Lemma bw_Flush_accepts (wr : list SinkEvent) (fs rest : list (option error))
  (buf : string) :
  buf <> "" ->
  calm 1 fs = Some rest ->
  bw_Flush (mkBufio (mkSink wr fs) buf None)
  = mkBufio (mkSink (wr ++ [EvBytes buf]) rest) "" None.
Proof.
  intros Hb Hc. unfold bw_Flush, sink_do. cbn [bw_err bw_buf bw_sink wfaults written].
  destruct buf as [|c buf]; [now elim Hb|].
  destruct fs as [|[e|] fs]; cbn [calm] in Hc; try discriminate;
    injection Hc as <-; reflexivity.
Qed.

Lemma bw_Flush_refused (wr : list SinkEvent) (fs : list (option error))
  (buf : string) (e : error) :
  buf <> "" ->
  bw_Flush (mkBufio (mkSink wr (Some e :: fs)) buf None)
  = mkBufio (mkSink wr fs) buf (Some e).
Proof.
  intros Hb. unfold bw_Flush, sink_do. cbn [bw_err bw_buf bw_sink wfaults written].
  destruct buf as [|c buf]; [now elim Hb|]. reflexivity.
Qed.

Lemma full_not_empty (buf : string) :
  (bufSize <= String.length buf)%nat -> buf <> "".
Proof. intros H ->. pose proof bufSize_pos. cbn in H. lia. Qed.

(** On a sink that never fails: the blocks handed over are full buffers, and
    together with what the buffer holds they are the bytes written. *)
Lemma bw_WriteString_quiet (s : string) : forall wr fs buf,
  List.Forall (fun f => f = None) fs ->
  (String.length buf <= bufSize)%nat ->
  exists blocks fs' buf',
    bw_WriteString s (mkBufio (mkSink wr fs) buf None)
    = mkBufio (mkSink (wr ++ List.map EvBytes blocks) fs') buf' None
    /\ List.Forall (fun f => f = None) fs'
    /\ (String.length buf' <= bufSize)%nat
    /\ List.Forall (fun b => String.length b = bufSize) blocks
    /\ received (List.map EvBytes blocks) ++ buf' = buf ++ s
    /\ (buf ++ s <> "" -> buf' <> "").
Proof.
  induction s as [|c s IH]; intros wr fs buf Hq Hl.
  - exists [], fs, buf. cbn [List.map bw_WriteString received List.fold_right].
    rewrite List.app_nil_r, StringFacts.app_nil_r.
    repeat split; auto using List.Forall_nil.
  - cbn [bw_WriteString]. unfold bw_WriteByte. cbn [bw_err bw_buf bw_sink].
    destruct (bufSize <=? String.length buf)%nat eqn:Ef.
    + apply Nat.leb_le in Ef.
      assert (Hc : calm 1 fs = Some (List.tl fs)).
      { destruct fs as [|f fs]; [reflexivity|].
        inversion Hq as [|? ? Hf _]; subst. reflexivity. }
      rewrite (bw_Flush_accepts wr fs (List.tl fs) buf (full_not_empty buf Ef) Hc).
      cbn [bw_err bw_buf bw_sink append].
      assert (Hq' : List.Forall (fun f => f = None) (List.tl fs)).
      { destruct fs as [|f fs]; [constructor|]. now inversion Hq. }
      destruct (IH (wr ++ [EvBytes buf])%list (List.tl fs) (String c "") Hq')
        as (blocks & fs' & buf' & E & Hq2 & Hl2 & Hb & Hr & Hn).
      { pose proof bufSize_pos. cbn. lia. }
      exists (buf :: blocks), fs', buf'. rewrite E.
      cbn [List.map]. rewrite <- List.app_assoc. cbn [app].
      repeat split; try assumption.
      * constructor; [lia | exact Hb].
      * change (received (EvBytes buf :: List.map EvBytes blocks))
          with (buf ++ received (List.map EvBytes blocks)).
        rewrite StringFacts.app_assoc, Hr. reflexivity.
      * intros _. apply Hn. discriminate.
    + apply Nat.leb_gt in Ef. cbn [bw_err bw_buf bw_sink].
      destruct (IH wr fs (buf ++ String c "") Hq)
        as (blocks & fs' & buf' & E & Hq2 & Hl2 & Hb & Hr & Hn).
      { rewrite length_app. cbn. lia. }
      exists blocks, fs', buf'. rewrite E. repeat split; try assumption.
      * rewrite Hr, StringFacts.app_assoc. reflexivity.
      * intros _. apply Hn. destruct buf; discriminate.
Qed.

(** On a sink that refuses its first write: either everything fits, and the
    sink has not been used, or the writer holds the error of the sink, which
    has received nothing. *)
Lemma bw_WriteString_refused (s : string) : forall wr e fs buf,
  (String.length buf <= bufSize)%nat ->
  (String.length buf + String.length s <= bufSize)%nat /\
  bw_WriteString s (mkBufio (mkSink wr (Some e :: fs)) buf None)
  = mkBufio (mkSink wr (Some e :: fs)) (buf ++ s) None
  \/
  (bufSize < String.length buf + String.length s)%nat /\
  bw_WriteString s (mkBufio (mkSink wr (Some e :: fs)) buf None)
  = mkBufio (mkSink wr fs)
      (buf ++ substring 0 (bufSize - String.length buf) s) (Some e).
Proof.
  induction s as [|c s IH]; intros wr e fs buf Hl.
  - left. cbn [String.length]. split; [lia|].
    now rewrite StringFacts.app_nil_r.
  - cbn [bw_WriteString String.length]. unfold bw_WriteByte. cbn [bw_err bw_buf bw_sink].
    destruct (bufSize <=? String.length buf)%nat eqn:Ef.
    + apply Nat.leb_le in Ef. right. split; [lia|].
      rewrite (bw_Flush_refused wr fs buf e (full_not_empty buf Ef)).
      cbn [bw_err].
      rewrite (bw_WriteString_err s (mkBufio (mkSink wr fs) buf (Some e)) e eq_refl).
      replace (bufSize - String.length buf)%nat with 0%nat by lia.
      cbn [substring]. now rewrite StringFacts.app_nil_r.
    + apply Nat.leb_gt in Ef. cbn [bw_err bw_buf bw_sink].
      destruct (IH wr e fs (buf ++ String c "")) as [[H1 H2] | [H1 H2]].
      * rewrite length_app. cbn. lia.
      * left. rewrite length_app in H1. cbn [String.length] in H1. split; [lia|].
        now rewrite H2, StringFacts.app_assoc.
      * right. rewrite length_app in H1. cbn [String.length] in H1. split; [lia|].
        rewrite H2, StringFacts.app_assoc. rewrite length_app. cbn [String.length].
        destruct (bufSize - String.length buf)%nat as [|k] eqn:Ek; [lia|].
        replace (bufSize - (String.length buf + 1))%nat with k by lia.
        reflexivity.
Qed.

(** On any sink: either the writer holds no error, and what the sink has
    received together with what the buffer holds is everything written so far,
    or it holds an error of the script. *)
Lemma bw_WriteString_any (s : string) : forall wr fs buf,
  (String.length buf <= bufSize)%nat ->
  match bw_err (bw_WriteString s (mkBufio (mkSink wr fs) buf None)) with
  | None =>
      received (written (bw_sink (bw_WriteString s (mkBufio (mkSink wr fs) buf None))))
        ++ bw_buf (bw_WriteString s (mkBufio (mkSink wr fs) buf None))
      = received wr ++ buf ++ s /\
      (String.length (bw_buf (bw_WriteString s (mkBufio (mkSink wr fs) buf None)))
       <= bufSize)%nat /\
      (forall f,
         List.In f (wfaults (bw_sink (bw_WriteString s (mkBufio (mkSink wr fs) buf None))))
         -> List.In f fs)
  | Some e => List.In (Some e) fs
  end.
Proof.
  induction s as [|c s IH]; intros wr fs buf Hl.
  - cbn [bw_WriteString bw_err bw_sink bw_buf written wfaults].
    rewrite StringFacts.app_nil_r. auto.
  - cbn [bw_WriteString]. unfold bw_WriteByte. cbn [bw_err bw_buf bw_sink].
    destruct (bufSize <=? String.length buf)%nat eqn:Ef.
    + apply Nat.leb_le in Ef. pose proof (full_not_empty buf Ef) as Hne.
      destruct fs as [|[e|] fs].
      * rewrite (bw_Flush_accepts wr [] [] buf Hne eq_refl).
        cbn [bw_err bw_buf bw_sink append].
        specialize (IH (wr ++ [EvBytes buf])%list [] (String c "")
                       ltac:(pose proof bufSize_pos; cbn; lia)).
        destruct (bw_err (bw_WriteString s _)) as [e|]; [exact IH|].
        destruct IH as (H1 & H2 & H3). split; [|split]; [|exact H2|exact H3].
        rewrite H1, received_app, received_blocks_one, StringFacts.app_assoc.
        reflexivity.
      * rewrite (bw_Flush_refused wr fs buf e Hne). cbn [bw_err].
        rewrite (bw_WriteString_err s (mkBufio (mkSink wr fs) buf (Some e)) e eq_refl).
        cbn [bw_err]. now left.
      * rewrite (bw_Flush_accepts wr (None :: fs) fs buf Hne eq_refl).
        cbn [bw_err bw_buf bw_sink append].
        specialize (IH (wr ++ [EvBytes buf])%list fs (String c "")
                       ltac:(pose proof bufSize_pos; cbn; lia)).
        destruct (bw_err (bw_WriteString s _)) as [e|]; [now right|].
        destruct IH as (H1 & H2 & H3). split; [|split]; [|exact H2|].
        -- rewrite H1, received_app, received_blocks_one, StringFacts.app_assoc.
           reflexivity.
        -- intros f Hf. right. now apply H3.
    + apply Nat.leb_gt in Ef. cbn [bw_err bw_buf bw_sink].
      specialize (IH wr fs (buf ++ String c "")
                     ltac:(rewrite length_app; cbn; lia)).
      destruct (bw_err (bw_WriteString s _)) as [e|]; [exact IH|].
      destruct IH as (H1 & H2 & H3). split; [|split]; [|exact H2|exact H3].
      rewrite H1, StringFacts.app_assoc. reflexivity.
Qed.

End BufioFacts.

Section ExportFacts.

(** A text written to a new buffered writer and flushed, on a sink that never
    fails: full buffers, then what is left, and together they are the text. *)
Lemma export_quiet (text : string) (w : Sink) :
  text <> "" ->
  List.Forall (fun f => f = None) (wfaults w) ->
  exists full last fs',
    bw_Flush (bw_WriteString text (mkBufio w "" None))
    = mkBufio (mkSink (written w ++ List.map EvBytes (full ++ [last])) fs') "" None
    /\ List.Forall (fun b => String.length b = bufSize) full
    /\ last <> "" /\ (String.length last <= bufSize)%nat
    /\ received (List.map EvBytes (full ++ [last])) = text.
Proof.
  intros Hn Hq. destruct w as [wr fs]. cbn [wfaults written] in *.
  destruct (bw_WriteString_quiet text wr fs "" Hq ltac:(cbn; lia))
    as (blocks & fs' & buf' & E & Hq' & Hl & Hb & Hr & Hne).
  cbn [append] in Hr, Hne. specialize (Hne Hn).
  assert (Hc : calm 1 fs' = Some (List.tl fs')).
  { destruct fs' as [|f fs']; [reflexivity|].
    inversion Hq' as [|? ? Hf _]; subst. reflexivity. }
  exists blocks, buf', (List.tl fs'). rewrite E.
  rewrite (bw_Flush_accepts _ fs' (List.tl fs') buf' Hne Hc).
  rewrite List.map_app, List.app_assoc. cbn [List.map].
  repeat split; try assumption.
  rewrite received_app, received_blocks_one. exact Hr.
Qed.

(** A text that fits in the buffer reaches the sink in one write, at the
    flush. *)
Lemma export_fits (text : string) (w : Sink) (rest : list (option error)) :
  text <> "" ->
  (String.length text <= bufSize)%nat ->
  calm 1 (wfaults w) = Some rest ->
  bw_Flush (bw_WriteString text (mkBufio w "" None))
  = mkBufio (mkSink (written w ++ [EvBytes text]) rest) "" None.
Proof.
  intros Hn Hl Hc. rewrite bw_WriteString_fits by (cbn; lia). cbn [append].
  destruct w as [wr fs]. now apply bw_Flush_accepts.
Qed.

(** When the sink refuses its first write, the writer holds that error and the
    sink has received nothing. *)
Lemma export_refused (text : string) (w : Sink) (e : error) (rest : list (option error)) :
  text <> "" ->
  wfaults w = Some e :: rest ->
  exists buf,
    bw_Flush (bw_WriteString text (mkBufio w "" None))
    = mkBufio (mkSink (written w) rest) buf (Some e).
Proof.
  intros Hn Hf. destruct w as [wr fs]. cbn [wfaults written] in *. subst fs.
  destruct (bw_WriteString_refused text wr e rest "" ltac:(cbn; lia))
    as [[_ ->] | [_ ->]].
  - cbn [append]. exists text. now apply bw_Flush_refused.
  - eexists. apply (bw_Flush_err _ e). reflexivity.
Qed.

(** On any sink: without an error at the end the sink has received the whole
    text, and an error at the end is one of the script. *)
Lemma export_any (text : string) (w : Sink) :
  match bw_err (bw_Flush (bw_WriteString text (mkBufio w "" None))) with
  | None =>
      received (written (bw_sink (bw_Flush (bw_WriteString text (mkBufio w "" None)))))
      = received (written w) ++ text
  | Some e => List.In (Some e) (wfaults w)
  end.
Proof.
  destruct w as [wr fs]. cbn [written wfaults].
  pose proof (bw_WriteString_any text wr fs "" (Nat.le_0_l bufSize)) as H.
  destruct (bw_WriteString text (mkBufio (mkSink wr fs) "" None)) as [[wr' fs'] buf' err'].
  cbn [bw_err bw_sink bw_buf written wfaults append] in H.
  destruct err' as [e|].
  - rewrite (bw_Flush_err (mkBufio (mkSink wr' fs') buf' (Some e)) e eq_refl). exact H.
  - destruct H as (H1 & _ & H3). unfold bw_Flush, sink_do.
    cbn [bw_err bw_buf bw_sink wfaults written].
    destruct buf' as [|c buf'].
    + cbn [bw_err bw_sink written]. now rewrite <- H1, StringFacts.app_nil_r.
    + destruct fs' as [|[e|] fs']; cbn [bw_err bw_sink written].
      * now rewrite received_app, received_blocks_one.
      * apply H3. now left.
      * now rewrite received_app, received_blocks_one.
Qed.

Lemma concat_lines_cons (l : string) (ls : list string) :
  String.concat "" (l :: ls) = l ++ String.concat "" ls.
Proof.
  destruct ls as [|l' ls]; [cbn; now rewrite StringFacts.app_nil_r|reflexivity].
Qed.

Lemma csv_line_not_empty (record : list string) : csv_line record <> "".
Proof.
  unfold csv_line. destruct (String.concat "," (List.map csv_field record)); discriminate.
Qed.

Lemma csv_text_not_empty (header : list string) (records : list (list string)) :
  String.concat "" (List.map csv_line (header :: records)) <> "".
Proof.
  cbn [List.map]. rewrite concat_lines_cons.
  pose proof (csv_line_not_empty header) as H.
  destruct (csv_line header); [now elim H | discriminate].
Qed.

End ExportFacts.

(** ** The CSV exporter *)

Section CsvFacts.
Context {C : Carrier} {X : Externals}.

Lemma iPtrToStr_nil : iPtrToStr None = "".
Proof. reflexivity. Qed.

Lemma iPtrToStr_value (v : Z) : iPtrToStr (Some v) = Fmt.fmt_d v.
Proof. unfold iPtrToStr. simpl. apply StringFacts.app_nil_r. Qed.

(** The loop over the rows that scan is one write of their lines; it ends with
    the error of the writer, or goes on with the rows that follow. *)
Lemma reqInfoCsvRows_feed (good : list DbRow) : forall (more : list DbRow) rs b,
  ScanAll scanReqInfo good = Ok rs ->
  bw_err b = None ->
  reqInfoCsvRows (good ++ more) (mkCsvWriter b)
  = let b' := bw_WriteString
                (String.concat "" (List.map csv_line (List.map reqInfoRecord rs))) b in
    match bw_err b' with
    | Some e => (Some (Errorf "Error writing to output stream: %v" e), mkCsvWriter b')
    | None => reqInfoCsvRows more (mkCsvWriter b')
    end.
Proof.
  induction good as [|r good IH]; intros more rs b Hs Hb; cbv zeta.
  - injection Hs as <-. cbn [List.map String.concat bw_WriteString app]. now rewrite Hb.
  - cbn [ScanAll] in Hs. destruct (scanReqInfo r) as [i|e] eqn:Ei; [|discriminate].
    destruct (ScanAll scanReqInfo good) as [rs'|e] eqn:Er; [|discriminate].
    injection Hs as <-. cbn [app reqInfoCsvRows List.map]. rewrite Ei.
    rewrite concat_lines_cons, bw_WriteString_app.
    unfold csv_Write. cbn [cw_w].
    destruct (bw_err (bw_WriteString (csv_line (reqInfoRecord i)) b)) as [e|] eqn:Eb.
    + rewrite (bw_WriteString_err _ _ e Eb), Eb. reflexivity.
    + apply (IH more rs' _ eq_refl Eb).
Qed.

Lemma rawCsvRows_feed (good : list DbRow) : forall (more : list DbRow) rs b,
  ScanAll scanLogEventRaw good = Ok rs ->
  bw_err b = None ->
  rawCsvRows (good ++ more) (mkCsvWriter b)
  = let b' := bw_WriteString
                (String.concat ""
                   (List.map csv_line
                      (List.map (fun e => [formatRFC3339Nano (raw_EventTime e); raw_Log e])
                                rs))) b in
    match bw_err b' with
    | Some e => (Some (Errorf "Error writing to output stream: %v" e), mkCsvWriter b')
    | None => rawCsvRows more (mkCsvWriter b')
    end.
Proof.
  induction good as [|r good IH]; intros more rs b Hs Hb; cbv zeta.
  - injection Hs as <-. cbn [List.map String.concat bw_WriteString app]. now rewrite Hb.
  - cbn [ScanAll] in Hs. destruct (scanLogEventRaw r) as [i|e] eqn:Ei; [|discriminate].
    destruct (ScanAll scanLogEventRaw good) as [rs'|e] eqn:Er; [|discriminate].
    injection Hs as <-. cbn [app rawCsvRows List.map]. rewrite Ei.
    rewrite concat_lines_cons, bw_WriteString_app.
    unfold csv_Write. cbn [cw_w].
    destruct (bw_err (bw_WriteString
                        (csv_line [formatRFC3339Nano (raw_EventTime i); raw_Log i]) b))
      as [e|] eqn:Eb.
    + rewrite (bw_WriteString_err _ _ e Eb), Eb. reflexivity.
    + apply (IH more rs' _ eq_refl Eb).
Qed.

(** The whole export when every row scans: the header and the records are
    written and the writer is flushed; the error is the one the writer holds
    at the end. *)
Lemma reqInfoCsv_feed (rows : list DbRow) (rs : list ReqInfoRow) (w : Sink) :
  ScanAll scanReqInfo rows = Ok rs ->
  reqInfoCsv rows w
  = let b := bw_Flush
               (bw_WriteString
                  (String.concat ""
                     (List.map csv_line (reqInfoCSVHeader :: List.map reqInfoRecord rs)))
                  (mkBufio w "" None)) in
    (match bw_err b with
     | Some e => Some (Errorf "Error writing to output stream: %v" e)
     | None => None
     end, bw_sink b).
Proof.
  intros Hs. cbv zeta. cbn [List.map]. rewrite concat_lines_cons, bw_WriteString_app.
  unfold reqInfoCsv, csv_NewWriter, csv_Write, csv_Flush, csv_Error. cbn [cw_w].
  destruct (bw_err (bw_WriteString (csv_line reqInfoCSVHeader) (mkBufio w "" None)))
    as [e|] eqn:Eh.
  - rewrite (bw_WriteString_err _ _ e Eh), (bw_Flush_err _ e Eh), Eh. reflexivity.
  - rewrite <- (List.app_nil_r rows), (reqInfoCsvRows_feed rows [] rs _ Hs Eh). cbv zeta.
    destruct (bw_err (bw_WriteString _ (bw_WriteString _ _))) as [e|] eqn:Er.
    + rewrite (bw_Flush_err _ e Er), Er. reflexivity.
    + cbn [reqInfoCsvRows cw_w cw_sink].
      now destruct (bw_err (bw_Flush _)).
Qed.

Lemma rawCsv_feed (rows : list DbRow) (rs : list logEventRawRow) (w : Sink) :
  ScanAll scanLogEventRaw rows = Ok rs ->
  rawCsv rows w
  = let b := bw_Flush
               (bw_WriteString
                  (String.concat ""
                     (List.map csv_line
                        (logEventCSVHeader
                         :: List.map (fun e => [formatRFC3339Nano (raw_EventTime e);
                                                raw_Log e]) rs)))
                  (mkBufio w "" None)) in
    (match bw_err b with
     | Some e => Some (Errorf "Error writing to output stream: %v" e)
     | None => None
     end, bw_sink b).
Proof.
  intros Hs. cbv zeta. cbn [List.map]. rewrite concat_lines_cons, bw_WriteString_app.
  unfold rawCsv, csv_NewWriter, csv_Write, csv_Flush, csv_Error. cbn [cw_w].
  destruct (bw_err (bw_WriteString (csv_line logEventCSVHeader) (mkBufio w "" None)))
    as [e|] eqn:Eh.
  - rewrite (bw_WriteString_err _ _ e Eh), (bw_Flush_err _ e Eh), Eh. reflexivity.
  - rewrite <- (List.app_nil_r rows), (rawCsvRows_feed rows [] rs _ Hs Eh). cbv zeta.
    destruct (bw_err (bw_WriteString _ (bw_WriteString _ _))) as [e|] eqn:Er.
    + rewrite (bw_Flush_err _ e Er), Er. reflexivity.
    + cbn [rawCsvRows cw_w cw_sink].
      now destruct (bw_err (bw_Flush _)).
Qed.

(** The export when a row does not scan: the header and the records of the
    rows in front are written, and the writer is not flushed. *)
Lemma rawCsv_scan_fails (good : list DbRow) (bad : DbRow) (more : list DbRow)
  (rs : list logEventRawRow) (e : error) (w : Sink) :
  ScanAll scanLogEventRaw good = Ok rs ->
  scanLogEventRaw bad = Err e ->
  rawCsv (good ++ bad :: more) w
  = let b := bw_WriteString
               (String.concat ""
                  (List.map csv_line
                     (logEventCSVHeader
                      :: List.map (fun e => [formatRFC3339Nano (raw_EventTime e);
                                             raw_Log e]) rs)))
               (mkBufio w "" None) in
    (Some match bw_err b with
          | Some we => Errorf "Error writing to output stream: %v" we
          | None => Errorf "Error accessing db: %v" e
          end, bw_sink b).
Proof.
  intros Hs Hb. cbv zeta. cbn [List.map]. rewrite concat_lines_cons, bw_WriteString_app.
  unfold rawCsv, csv_NewWriter, csv_Write. cbn [cw_w].
  destruct (bw_err (bw_WriteString (csv_line logEventCSVHeader) (mkBufio w "" None)))
    as [we|] eqn:Eh.
  - rewrite (bw_WriteString_err _ _ we Eh), Eh. reflexivity.
  - rewrite (rawCsvRows_feed good (bad :: more) rs _ Hs Eh). cbv zeta.
    destruct (bw_err (bw_WriteString _ (bw_WriteString _ _))) as [we|] eqn:Er.
    + reflexivity.
    + cbn [rawCsvRows]. rewrite Hb. reflexivity.
Qed.

End CsvFacts.

Section ExportTheorems.
Context {C : Carrier} {X : Externals}.

Lemma Search_reqInfo_csv (s : SearchQuery) (w : Sink) (rows : list DbRow) :
  Query s = reqInfoQ ->
  ExportFormat s = "csv" ->
  QueryContext (fst (reqInfoQuery s)) (snd (reqInfoQuery s)) = Ok rows ->
  Search s w = mkOutcome (fst (reqInfoCsv rows w)) (snd (reqInfoCsv rows w))
                         [reqInfoQuery s].
Proof.
  intros Hq Hf Hr. unfold Search. rewrite Hq, Hf.
  destruct (reqInfoQuery s) as [q a]. cbn [fst snd] in Hr. rewrite Hr.
  change (String.eqb "csv" "ndjson") with false.
  change (String.eqb "csv" "csv") with true. cbv iota.
  now destruct (reqInfoCsv rows w).
Qed.

Lemma Search_raw_csv (s : SearchQuery) (w : Sink) (rows : list DbRow) :
  Query s = rawQ ->
  ExportFormat s = "csv" ->
  QueryContext (fst (rawQuery s)) (snd (rawQuery s)) = Ok rows ->
  Search s w = mkOutcome (fst (rawCsv rows w)) (snd (rawCsv rows w)) [rawQuery s].
Proof.
  intros Hq Hf Hr. unfold Search. rewrite Hq, Hf.
  destruct (rawQuery s) as [q a]. cbn [fst snd] in Hr. rewrite Hr.
  change (String.eqb "csv" "ndjson") with false.
  change (String.eqb "csv" "csv") with true. cbv iota.
  now destruct (rawCsv rows w).
Qed.

(** The outcome of writing a text through a new CSV writer and flushing it. *)
Lemma csv_delivery (text : string) (w : Sink) :
  text <> "" ->
  let b := bw_Flush (bw_WriteString text (mkBufio w "" None)) in
  let err := match bw_err b with
             | Some e => Some (Errorf "Error writing to output stream: %v" e)
             | None => None
             end in
  (List.Forall (fun f => f = None) (wfaults w) ->
   err = None /\
   received (written (bw_sink b)) = received (written w) ++ text /\
   exists full last,
     written (bw_sink b) = (written w ++ List.map EvBytes (full ++ [last]))%list /\
     List.Forall (fun blk => String.length blk = bufSize) full /\
     last <> "" /\ (String.length last <= bufSize)%nat) /\
  (forall rest,
     (String.length text <= bufSize)%nat ->
     calm 1 (wfaults w) = Some rest ->
     err = None /\
     written (bw_sink b) = (written w ++ [EvBytes text])%list) /\
  (forall e rest,
     wfaults w = Some e :: rest ->
     err = Some ("Error writing to output stream: " ++ e) /\
     written (bw_sink b) = written w) /\
  (err = None -> received (written (bw_sink b)) = received (written w) ++ text) /\
  (forall msg,
     err = Some msg ->
     exists e, List.In (Some e) (wfaults w) /\
               msg = "Error writing to output stream: " ++ e).
Proof.
  intros Hn b err. subst b err. split; [|split; [|split; [|split]]].
  - intros Hq. destruct (export_quiet text w Hn Hq)
      as (full & last & fs' & -> & Hf & Hl & Hs & Hr).
    cbn [bw_err bw_sink written]. split; [reflexivity|]. split.
    + now rewrite received_app, Hr.
    + now exists full, last.
  - intros rest Hl Hc. rewrite (export_fits text w rest Hn Hl Hc).
    cbn [bw_err bw_sink written]. now split.
  - intros e rest Hf. destruct (export_refused text w e rest Hn Hf) as (buf & ->).
    cbn [bw_err bw_sink written]. split; [|reflexivity].
    unfold Errorf. cbn. now rewrite StringFacts.app_nil_r.
  - intros He. pose proof (export_any text w) as H.
    destruct (bw_err (bw_Flush (bw_WriteString text (mkBufio w "" None))));
      [discriminate | exact H].
  - intros msg He. pose proof (export_any text w) as H.
    destruct (bw_err (bw_Flush (bw_WriteString text (mkBufio w "" None)))) as [e|];
      [|discriminate].
    exists e. split; [exact H|]. injection He as <-.
    unfold Errorf. cbn. now rewrite StringFacts.app_nil_r.
Qed.

(** C8. A search in csv mode, of either table, once the query has returned its
    rows and every row scans, writes through a buffered CSV writer the line of
    the header and then the line of each row, in the order of the cursor, and
    flushes the writer at the end. On a sink that never fails the bytes
    received are exactly this text, handed over in full buffers and a last
    block at the flush, and [nil] is returned; a text that fits in the buffer
    arrives in one write, at the flush; when the sink refuses its first write,
    that error is returned and nothing has arrived. On any sink, [nil] is
    returned only when the whole text has arrived, and an error returned is an
    error of the sink. The header is the list of
    the columns of the table; a record holds the time in the RFC3339Nano
    format, the integers in decimal, and each nullable length as the empty
    string when it is nil and in decimal otherwise. *)
Theorem search_csv_export
  (s : SearchQuery) (w : Sink) (rows : list DbRow)
  (header : list string) (records : list (list string)) :
  ExportFormat s = "csv" ->
  (Query s = reqInfoQ /\
   QueryContext (fst (reqInfoQuery s)) (snd (reqInfoQuery s)) = Ok rows /\
   header = reqInfoCSVHeader /\
   exists rs, ScanAll scanReqInfo rows = Ok rs /\
              records = List.map reqInfoRecord rs)
  \/
  (Query s = rawQ /\
   QueryContext (fst (rawQuery s)) (snd (rawQuery s)) = Ok rows /\
   header = logEventCSVHeader /\
   exists rs, ScanAll scanLogEventRaw rows = Ok rs /\
              records = List.map (fun e => [formatRFC3339Nano (raw_EventTime e);
                                            raw_Log e]) rs) ->
  let text := String.concat "" (List.map csv_line (header :: records)) in
  (List.Forall (fun f => f = None) (wfaults w) ->
   so_err (Search s w) = None /\
   received (written (so_sink (Search s w))) = received (written w) ++ text /\
   exists full last,
     written (so_sink (Search s w))
     = (written w ++ List.map EvBytes (full ++ [last]))%list /\
     List.Forall (fun blk => String.length blk = bufSize) full /\
     last <> "" /\ (String.length last <= bufSize)%nat)
  /\ (forall rest,
        (String.length text <= bufSize)%nat ->
        calm 1 (wfaults w) = Some rest ->
        so_err (Search s w) = None /\
        written (so_sink (Search s w)) = (written w ++ [EvBytes text])%list)
  /\ (forall e rest,
        wfaults w = Some e :: rest ->
        so_err (Search s w) = Some ("Error writing to output stream: " ++ e) /\
        written (so_sink (Search s w)) = written w)
  /\ (so_err (Search s w) = None ->
      received (written (so_sink (Search s w))) = received (written w) ++ text)
  /\ (forall msg,
        so_err (Search s w) = Some msg ->
        exists e, List.In (Some e) (wfaults w) /\
                  msg = "Error writing to output stream: " ++ e)
  /\ reqInfoCSVHeader = columnsOf requestInfoTable
  /\ logEventCSVHeader = columnsOf auditLogEventsTable
  /\ csv_line reqInfoCSVHeader
     = "time,api_name,access_key,bucket,object,time_to_response_ns,remote_host,"
       ++ "request_id,user_agent,response_status,response_status_code,"
       ++ "request_content_length,response_content_length" ++ nl
  /\ csv_line logEventCSVHeader = "event_time,log" ++ nl
  /\ (forall i : ReqInfoRow,
        reqInfoRecord i
        = [formatRFC3339Nano (Time i); APIName i; AccessKey i; Bucket i; Object i;
           Fmt.fmt_d (TimeToResponseNs i); RemoteHost i; RequestID i; UserAgent i;
           ResponseStatus i; Fmt.fmt_d (ResponseStatusCode i);
           iPtrToStr (RequestContentLength i); iPtrToStr (ResponseContentLength i)])
  /\ iPtrToStr None = ""
  /\ (forall v, iPtrToStr (Some v) = Fmt.fmt_d v).
Proof.
  intros Hf Hcase text.
  assert (Hn : text <> "") by apply csv_text_not_empty.
  assert (Hs : Search s w
               = mkOutcome
                   match bw_err (bw_Flush (bw_WriteString text (mkBufio w "" None))) with
                   | Some e => Some (Errorf "Error writing to output stream: %v" e)
                   | None => None
                   end
                   (bw_sink (bw_Flush (bw_WriteString text (mkBufio w "" None))))
                   (so_queries (Search s w))).
  { destruct Hcase as [(Hq & Hr & -> & rs & Hsc & ->) | (Hq & Hr & -> & rs & Hsc & ->)].
    - rewrite (Search_reqInfo_csv s w rows Hq Hf Hr), (reqInfoCsv_feed rows rs w Hsc).
      reflexivity.
    - rewrite (Search_raw_csv s w rows Hq Hf Hr), (rawCsv_feed rows rs w Hsc).
      reflexivity. }
  rewrite Hs. cbn [so_err so_sink].
  destruct (csv_delivery text w Hn) as (H1 & H2 & H3 & H4 & H5).
  split; [exact H1|]. split; [exact H2|]. split; [exact H3|].
  split; [exact H4|]. split; [exact H5|].
  split; [reflexivity|]. split; [reflexivity|].
  split; [vm_compute; reflexivity|]. split; [vm_compute; reflexivity|].
  split.
  - intros i. unfold reqInfoRecord. simpl. now rewrite !StringFacts.app_nil_r.
  - split; [reflexivity | apply iPtrToStr_value].
Qed.

(** C3. The validation in front of [Search] rejects, with [InvalidRequest] and
    before any query is sent or anything is written, a request for a page
    (export format empty) of size zero, and a request with an absolute bound
    together with a relative duration. *)
Theorem validated_search_rejects (s : SearchQuery) (w : Sink) :
  (ExportFormat s = "" /\ PageSize s = 0) \/
  ((TimeStart s <> None \/ TimeEnd s <> None) /\ LastDuration s <> None) ->
  Spec.validatedSearch s w = (Some Spec.InvalidRequest, mkOutcome None w []).
Proof.
  intros H. unfold Spec.validatedSearch.
  replace (Spec.validate s) with (Some Spec.InvalidRequest); [reflexivity|].
  symmetry. unfold Spec.validate.
  destruct H as [[Hf Hp] | [Hb Hl]].
  - now rewrite Hf, Hp.
  - destruct (String.eqb (ExportFormat s) "" && (PageSize s =? 0))%bool; [reflexivity|].
    destruct (LastDuration s); [|congruence].
    destruct (TimeStart s), (TimeEnd s); try reflexivity.
    destruct Hb; congruence.
Qed.

(** [Search] itself does not look at the page size: called on a request for a
    page of size zero it sends the query, with the limit zero. *)
Lemma search_sends_page_size_zero (s : SearchQuery) (w : Sink) :
  Query s = reqInfoQ -> ExportFormat s = "" -> PageSize s = 0 ->
  so_queries (Search s w) = [reqInfoQuery s] /\
  List.last (snd (reqInfoQuery s)) (ArgInt 1) = ArgInt 0.
Proof.
  intros Hq Hf Hp. split.
  - unfold Search. rewrite Hq. destruct (reqInfoQuery s) as [q a].
    destruct (QueryContext q a); [|reflexivity].
    now destruct (if String.eqb (ExportFormat s) "ndjson" then _ else _).
  - rewrite reqInfoQuery_factored. unfold queryOf.
    destruct (whereOf "time" "event_time" s) as [[cls args] d]. cbn [snd].
    unfold pagingArgs. rewrite Hf, Hp. simpl String.eqb. cbv iota.
    change [ArgInt (GoInt.mul (PageNumber s) 0); ArgInt 0]
      with ([ArgInt (GoInt.mul (PageNumber s) 0)] ++ [ArgInt 0])%list.
    now rewrite List.app_assoc, List.last_last.
Qed.

End ExportTheorems.

Section ExportWitnesses.
Import Demo Demo2.

Lemma search_csv_export_witness :
  let s := Demo.request reqInfoQ (Some 5) None None [] "csv" 0 0 in
  so_err (Search (X := Demo2.twoRows) s (Demo.sink [])) = None /\
  written (so_sink (Search (X := Demo2.twoRows) s (Demo.sink [])))
  = [EvBytes
       ("time,api_name,access_key,bucket,object,time_to_response_ns,remote_host,"
        ++ "request_id,user_agent,response_status,response_status_code,"
        ++ "request_content_length,response_content_length" ++ nl
        ++ "1710496800000000000,PutObject,minio,b1,obj,1500,10.0.0.1,req-1,mc,OK,200,,42"
        ++ nl
        ++ "1710496800000000000,GetObject,minio,b2,obj,1500,10.0.0.1,req-1,mc,OK,200,,42"
        ++ nl)].
Proof.
  intros s.
  pose proof (search_csv_export (X := Demo2.twoRows) s (Demo.sink [])
                [["PutObject"; "b1"]; ["GetObject"; "b2"]]
                reqInfoCSVHeader
                (List.map (reqInfoRecord (X := Demo2.twoRows))
                   [mkReqInfoRow 1710496800000000000 "PutObject" "minio" "b1" "obj" 1500
                                 "10.0.0.1" "req-1" "mc" "OK" 200 None (Some 42);
                    mkReqInfoRow 1710496800000000000 "GetObject" "minio" "b2" "obj" 1500
                                 "10.0.0.1" "req-1" "mc" "OK" 200 None (Some 42)])
                eq_refl
                (or_introl
                   (conj eq_refl
                      (conj eq_refl
                         (conj eq_refl
                            (ex_intro _ _ (conj eq_refl eq_refl))))))) as H.
  cbv zeta in H. destruct H as (_ & H & _).
  destruct (H [] ltac:(vm_compute; lia) eq_refl) as [H1 H2].
  split; [exact H1|]. rewrite H2. vm_compute. reflexivity.
Defined.

Lemma validated_search_rejects_witness :
  let s := Demo.request reqInfoQ None None None [] "" 0 0 in
  ExportFormat s = "" /\ PageSize s = 0 /\
  Spec.validatedSearch s (Demo.sink [])
  = (Some Spec.InvalidRequest, mkOutcome None (Demo.sink []) []).
Proof.
  intros s. split; [reflexivity|]. split; [reflexivity|].
  apply (validated_search_rejects s (Demo.sink [])).
  left. split; reflexivity.
Defined.

End ExportWitnesses.

(** ** The schema functions *)

Module ContainsFacts.

Lemma prefix_app (p b : string) : String.prefix p (p ++ b) = true.
Proof.
  induction p as [|c p IH]; simpl; [now destruct b|].
  destruct (ascii_dec c c) as [_|N]; [exact IH | now elim N].
Qed.

Lemma prefix_split (p s : string) :
  String.prefix p s = true -> exists b, s = p ++ b.
Proof.
  revert s. induction p as [|c p IH]; intros s H.
  - now exists s.
  - destruct s as [|c' s]; simpl in H; [discriminate|].
    destruct (ascii_dec c c') as [->|_]; [|discriminate].
    destruct (IH s H) as [b ->]. now exists b.
Qed.

Lemma Contains_nil (substr : string) :
  Contains "" substr = String.prefix substr "".
Proof. unfold Contains. apply orb_false_r. Qed.

Lemma Contains_cons (c : ascii) (s substr : string) :
  Contains (String c s) substr
  = (String.prefix substr (String c s) || Contains s substr)%bool.
Proof. reflexivity. Qed.

(** [strings.Contains] holds exactly of the texts that have the other text
    somewhere inside. *)
Lemma Contains_iff (s substr : string) :
  Contains s substr = true <-> exists a b, s = a ++ substr ++ b.
Proof.
  split.
  - induction s as [|c s IH]; intros H.
    + rewrite Contains_nil in H. destruct (prefix_split _ _ H) as [b E].
      now exists "", b.
    + rewrite Contains_cons in H. apply orb_true_iff in H. destruct H as [H|H].
      * destruct (prefix_split _ _ H) as [b E]. exists "", b. exact E.
      * destruct (IH H) as (a & b & ->). now exists (String c a), b.
  - intros (a & b & ->). induction a as [|c a IH].
    + change ("" ++ substr ++ b) with (substr ++ b).
      destruct (substr ++ b) as [|c r] eqn:E.
      * rewrite Contains_nil, <- E. apply prefix_app.
      * rewrite Contains_cons, <- E, prefix_app. reflexivity.
    + change (String c a ++ substr ++ b) with (String c (a ++ substr ++ b)).
      rewrite Contains_cons, IH. apply orb_true_r.
Qed.

End ContainsFacts.

Section SchemaFacts.
Context {C : Carrier} {X : Externals} {P : SchemaExternals}.

(** One statement on a database whose script lets it succeed. *)
Lemma ExecContext_calm (stmt : string) (w : DDLWorld) (n : nat)
  (rest : list (option error)) :
  calm (S n) (ddlfaults w) = Some rest ->
  ExecContext stmt w
  = (None, mkDDL (sent w ++ [stmt]) (List.tl (ddlfaults w)) (ticks w))
  /\ calm n (List.tl (ddlfaults w)) = Some rest.
Proof.
  intros H. unfold ExecContext. destruct (ddlfaults w) as [|[e|] fs]; cbn [calm] in H.
  - split; [reflexivity|]. exact H.
  - discriminate.
  - split; [reflexivity|]. exact H.
Qed.

(** The statements of one table: the parent, then the partitions of the window
    before, of the current window and of the window after. *)
Lemma createTableAndPartition_calm (table : Table) (w : DDLWorld) (n : nat)
  (rest : list (option error)) :
  calm (4 + n) (ddlfaults w) = Some rest ->
  let now := clockAt (ticks w) in
  let p := newPartitionTimeRange now in
  exists fs,
    createTableAndPartition table w
    = (None,
       mkDDL (sent w ++
              [getCreateStatement table;
               getCreatePartitionStatement table
                 (newPartitionTimeRange (StartDate (previous p)));
               getCreatePartitionStatement table (newPartitionTimeRange now);
               getCreatePartitionStatement table
                 (newPartitionTimeRange (StartDate (next p)))])
             fs (S (ticks w)))
    /\ calm n fs = Some rest.
Proof.
  intros H now p. destruct w as [st fs tk]. cbn [ddlfaults sent ticks] in *.
  unfold createTableAndPartition, createPartitions, createTablePartition, time_Now.
  subst now p. change (4 + n)%nat with (S (S (S (S n)))) in H.
  repeat match goal with
  | Hc : calm (S ?k) ?l = Some rest |- context [ExecContext ?s (mkDDL ?a ?l ?t)] =>
      let E := fresh "E" in
      destruct (ExecContext_calm s (mkDDL a l t) k rest Hc) as [E ?];
      rewrite E; clear E Hc; cbn [ddlfaults sent ticks fst snd] in *
  end.
  eexists. split; [|eassumption].
  rewrite <- !List.app_assoc. reflexivity.
Qed.

(** A script that lets [k] operations succeed and fails the next one. *)
Lemma calm_fail (k : nat) : forall (fs rest : list (option error)) (e : error),
  calm k fs = Some (Some e :: rest) ->
  fs = (List.repeat None k ++ Some e :: rest)%list.
Proof.
  induction k as [|k IH]; intros fs rest e H.
  - now injection H as ->.
  - destruct fs as [|[e'|] fs]; cbn [calm] in H.
    + specialize (IH [] rest e H). destruct k; discriminate.
    + discriminate.
    + cbn [List.repeat app]. now rewrite (IH fs rest e H).
Qed.

(** X1. When the database accepts the eight statements, [InitDBTables] returns
    [nil] after it has sent, for the raw-log table and then for the
    request-info table, the statement of the parent table followed by the
    statements of three partitions: the one of the window before the current
    one, the one of the current window and the one of the window after. The
    clock is read once for each table. *)
Theorem init_db_tables_plan (w : DDLWorld) (rest : list (option error)) :
  calm 8 (ddlfaults w) = Some rest ->
  let plan (table : Table) (now : time_Time) :=
    [getCreateStatement table;
     getCreatePartitionStatement table
       (newPartitionTimeRange (StartDate (previous (newPartitionTimeRange now))));
     getCreatePartitionStatement table (newPartitionTimeRange now);
     getCreatePartitionStatement table
       (newPartitionTimeRange (StartDate (next (newPartitionTimeRange now))))] in
  fst (InitDBTables w) = None /\
  sent (snd (InitDBTables w))
  = (sent w ++ plan auditLogEventsTable (clockAt (ticks w))
            ++ plan requestInfoTable (clockAt (S (ticks w))))%list /\
  ddlfaults (snd (InitDBTables w)) = rest /\
  ticks (snd (InitDBTables w)) = S (S (ticks w)).
Proof.
  intros H plan.
  destruct (createTableAndPartition_calm auditLogEventsTable w 4 rest H)
    as (fs1 & E1 & H1).
  pose proof (createTableAndPartition_calm requestInfoTable
                (mkDDL (sent w ++ plan auditLogEventsTable (clockAt (ticks w)))
                       fs1 (S (ticks w))) 0 rest H1) as (fs2 & E2 & H2).
  cbn [ddlfaults sent ticks] in E2. cbn [calm] in H2. injection H2 as ->.
  unfold InitDBTables, createTables, createTablesOf, allTables.
  subst plan. cbv beta in *. rewrite E1, E2. cbn [fst snd sent ddlfaults ticks].
  rewrite <- List.app_assoc. repeat split.
Qed.

(** X2. When the database accepts [k] statements and fails the next one, with
    [k] below eight, [InitDBTables] returns that error and has sent the first
    [k + 1] statements of its plan and nothing after them. *)
Theorem init_db_tables_stops_at_failure
  (w : DDLWorld) (k : nat) (e : error) (rest : list (option error)) :
  (k < 8)%nat ->
  calm k (ddlfaults w) = Some (Some e :: rest) ->
  let plan (table : Table) (now : time_Time) :=
    [getCreateStatement table;
     getCreatePartitionStatement table
       (newPartitionTimeRange (StartDate (previous (newPartitionTimeRange now))));
     getCreatePartitionStatement table (newPartitionTimeRange now);
     getCreatePartitionStatement table
       (newPartitionTimeRange (StartDate (next (newPartitionTimeRange now))))] in
  fst (InitDBTables w) = Some e /\
  sent (snd (InitDBTables w))
  = (sent w ++ List.firstn (S k)
                 (plan auditLogEventsTable (clockAt (ticks w))
                  ++ plan requestInfoTable (clockAt (S (ticks w)))))%list /\
  ddlfaults (snd (InitDBTables w)) = rest.
Proof.
  intros Hk H plan. destruct w as [st fs tk]. cbn [ddlfaults sent ticks] in *.
  apply calm_fail in H. subst fs plan.
  unfold InitDBTables, createTables, createTablesOf, allTables,
    createTableAndPartition, createPartitions, createTablePartition, time_Now,
    ExecContext.
  do 8 (destruct k as [|k]; [
    cbn [List.repeat app ddlfaults sent ticks fst snd List.tl List.firstn];
    rewrite <- ?List.app_assoc; repeat split | ]).
  lia.
Qed.

(** X3. [checkPartitionTableExists] asks the database for the table named by
    the parent and the suffix of the window of the given time. An answer makes
    the partition present. An error whose text has
    [relation "<name>" does not exist] somewhere inside makes it absent, with
    no error. Any other error is returned, and the partition is then reported
    absent. *)
Theorem check_partition_table_exists (table : string) (givenTime : time_Time) :
  let name := table ++ "_" ++ getPartnameSuffix (newPartitionTimeRange givenTime) in
  let q := "SELECT 1 FROM " ++ name ++ " WHERE false;" in
  let missing := "relation " ++ dquote ++ name ++ dquote ++ " does not exist" in
  (forall rows, QueryContext q [] = Ok rows ->
     checkPartitionTableExists table givenTime = (true, None)) /\
  (forall err, QueryContext q [] = Err err ->
     (exists a b, err = a ++ missing ++ b) ->
     checkPartitionTableExists table givenTime = (false, None)) /\
  (forall err, QueryContext q [] = Err err ->
     ~ (exists a b, err = a ++ missing ++ b) ->
     checkPartitionTableExists table givenTime = (false, Some err)).
Proof.
  intros name q missing.
  assert (Hn : Fmt.Sprintf "%s_%s"
                 [Fmt.FS table;
                  Fmt.FS (getPartnameSuffix (newPartitionTimeRange givenTime))]
               = name).
  { subst name. cbn [Fmt.Sprintf Fmt.fmt_verb Ascii.eqb Bool.eqb orb].
    now rewrite StringFacts.app_nil_r. }
  assert (Hq : build existsQuery [name] = q).
  { subst q. unfold build, existsQuery.
    cbn [Fmt.Sprintf Fmt.fmt_verb Ascii.eqb Bool.eqb orb List.map]. reflexivity. }
  assert (Hm : Fmt.Sprintf ("relation " ++ dquote ++ "%s" ++ dquote ++ " does not exist")
                 [Fmt.FS name] = missing).
  { subst missing. unfold dquote.
    cbn [Fmt.Sprintf Fmt.fmt_verb Ascii.eqb Bool.eqb orb append ascii_of_nat
         ascii_of_pos Pos.of_succ_nat Pos.succ]. reflexivity. }
  unfold checkPartitionTableExists, checkTableExists. rewrite Hn, Hq, Hm.
  repeat split.
  - intros rows ->. reflexivity.
  - intros err -> Hc. apply ContainsFacts.Contains_iff in Hc. now rewrite Hc.
  - intros err -> Hc. destruct (Contains err missing) eqn:E; [|reflexivity].
    apply ContainsFacts.Contains_iff in E. contradiction.
Qed.

End SchemaFacts.

Section SchemaWitnesses.
Import Demo Demo2.

Lemma init_db_tables_plan_witness :
  fst (InitDBTables (Demo2.ddl [])) = None /\
  sent (snd (InitDBTables (Demo2.ddl [])))
  = [getCreateStatement auditLogEventsTable;
     "CREATE TABLE audit_log_events_2827 PARTITION OF audit_log_events;";
     "CREATE TABLE audit_log_events_2828 PARTITION OF audit_log_events;";
     "CREATE TABLE audit_log_events_2829 PARTITION OF audit_log_events;";
     getCreateStatement requestInfoTable;
     "CREATE TABLE request_info_2827 PARTITION OF request_info;";
     "CREATE TABLE request_info_2828 PARTITION OF request_info;";
     "CREATE TABLE request_info_2829 PARTITION OF request_info;"].
Proof.
  pose proof (init_db_tables_plan (P := Demo2.schema) (Demo2.ddl []) [] eq_refl) as H.
  cbv zeta in H. destruct H as (H1 & H2 & _).
  split; [exact H1|]. rewrite H2. vm_compute. reflexivity.
Defined.

Lemma init_db_tables_stops_at_failure_witness :
  let w := Demo2.ddl [None; None; Some "pq: disk full"; None] in
  fst (InitDBTables w) = Some "pq: disk full" /\
  sent (snd (InitDBTables w))
  = [getCreateStatement auditLogEventsTable;
     "CREATE TABLE audit_log_events_2827 PARTITION OF audit_log_events;";
     "CREATE TABLE audit_log_events_2828 PARTITION OF audit_log_events;"] /\
  ddlfaults (snd (InitDBTables w)) = [None].
Proof.
  intros w.
  pose proof (init_db_tables_stops_at_failure (P := Demo2.schema) w 2 "pq: disk full"
                [None] ltac:(lia) eq_refl) as H.
  cbv zeta in H. destruct H as (H1 & H2 & H3).
  split; [exact H1|]. split; [|exact H3]. rewrite H2. vm_compute. reflexivity.
Defined.

Lemma check_partition_table_exists_witness :
  checkPartitionTableExists (X := Demo2.missing) (P := Demo2.schema)
    "audit_log_events" 1710496800000000000
  = (false, None).
Proof.
  pose proof (check_partition_table_exists (X := Demo2.missing) (P := Demo2.schema)
                "audit_log_events" 1710496800000000000) as H.
  cbv zeta in H. destruct H as (_ & H & _).
  apply (H Demo2.missingRelation eq_refl).
  exists "pq: ", "". vm_compute. reflexivity.
Defined.

End SchemaWitnesses.

(** ** The write path, on every payload *)

Section InsertPaths.
Context {C : Carrier} {X : Externals}.

(** The text of the line [InsertEvent] logs. *)
Lemma not_saved_text (eventBytes : string) (err : error) :
  Fmt.Sprintf "audit event not saved: %s (cause: %v)" [Fmt.FS eventBytes; Fmt.FS err]
  = "audit event not saved: " ++ eventBytes ++ " (cause: " ++ err ++ ")".
Proof. reflexivity. Qed.

(** X4. A non-empty payload that is rejected before there is a transaction
    reaches the database with no statement: when it does not parse, the parse
    error is returned, the database is not called at all and the payload is
    logged with the cause; when it parses and the transaction cannot be begun,
    that error is returned and logged, and no statement and no rollback
    follow. *)
Theorem insert_event_rejected_early (eventBytes : string) (w : World) :
  isEmptyEvent eventBytes = false ->
  (forall e, parseJSONEvent eventBytes = Err e ->
     InsertEvent eventBytes w
     = (Some e,
        mkWorld (committed w) (tx w) (dbfaults w)
          (ops w ++
           [OpParse eventBytes;
            OpLog ("audit event not saved: " ++ eventBytes ++ " (cause: " ++ e ++ ")")])))
  /\
  (forall event e rest,
     parseJSONEvent eventBytes = Ok event ->
     dbfaults w = Some e :: rest ->
     InsertEvent eventBytes w
     = (Some e,
        mkWorld (committed w) (tx w) rest
          (ops w ++
           [OpParse eventBytes; OpBeginTx;
            OpLog ("audit event not saved: " ++ eventBytes ++ " (cause: " ++ e ++ ")")]))).
Proof.
  intros He. destruct w as [db t faults tr]. split.
  - intros e Hp.
    unfold InsertEvent, insertBody, bind, lift, log_Printf, record_op.
    rewrite He, Hp. cbn [committed tx dbfaults ops]. rewrite not_saved_text.
    now rewrite <- List.app_assoc.
  - intros event e rest Hp Hf. cbn [dbfaults] in Hf. subst faults.
    unfold InsertEvent, insertBody, bind, lift, BeginTx, log_Printf, take_fault,
      record_op.
    rewrite He, Hp. cbn [committed tx dbfaults ops]. rewrite not_saved_text.
    now rewrite <- !List.app_assoc.
Qed.

Ltac insert_paths w :=
  destruct w as [db t faults tr];
  unfold InsertEvent, insertBody, insertInTx, bind, lift, BeginTx, tx_ExecContext,
    tx_Commit, tx_Rollback, log_Printf, take_fault, record_op;
  cbn [committed tx dbfaults ops fst snd].

Ltac next_fault faults :=
  destruct faults as [|[?e|] faults]; cbn [committed tx dbfaults ops fst snd].

Ltac no_log :=
  let m := fresh "m" in let H := fresh "H" in
  intros m H; cbn [List.In] in H;
  repeat (destruct H as [H|H]; [discriminate|]); exact H.

Ltac close_trace :=
  rewrite <- ?List.app_assoc; cbn [app];
  match goal with
  | |- exists mid, (?tr ++ ?l)%list = (?tr ++ mid ++ [])%list /\ _ =>
      exists l; split; [now rewrite List.app_nil_r | no_log]
  | |- exists mid, (?tr ++ ?l)%list = (?tr ++ mid ++ [?x])%list /\ _ =>
      exists (List.removelast l); split; [reflexivity | no_log]
  end.

(** X5. [InsertEvent] writes a line to the log exactly when it returns an
    error: the line is the last thing it does, it holds the payload and the
    cause, and nothing else is logged. *)
Theorem insert_event_logs_iff_error (eventBytes : string) (w : World) :
  exists mid,
    ops (snd (InsertEvent eventBytes w))
    = (ops w ++ mid ++
       match fst (InsertEvent eventBytes w) with
       | Some err =>
           [OpLog ("audit event not saved: " ++ eventBytes
                   ++ " (cause: " ++ err ++ ")")]
       | None => []
       end)%list
    /\ forall m, ~ List.In (OpLog m) mid.
Proof.
  destruct (isEmptyEvent eventBytes) eqn:He.
  { unfold InsertEvent. rewrite He. exists []. cbn [fst snd app].
    split; [now rewrite List.app_nil_r | intros m []]. }
  insert_paths w. rewrite He.
  destruct (parseJSONEvent eventBytes) as [event|e0];
    cbn [committed tx dbfaults ops fst snd]; [|close_trace].
  next_fault faults; [ |close_trace| ].
  all: destruct (jsonMarshalEvent event) as [eventJSON|e1];
    cbn [committed tx dbfaults ops fst snd]; [|close_trace].
  all: try (next_fault faults; [ |close_trace| ]).
  all: rewrite engine_exec_raw; cbn [committed tx dbfaults ops fst snd].
  all: try (next_fault faults; [ |close_trace| ]).
  all: rewrite engine_exec_req; cbn [committed tx dbfaults ops fst snd].
  all: try (next_fault faults; [ |close_trace| ]).
  all: close_trace.
Qed.

(** One call, on any payload: no transaction is left open, and either the
    committed rows are as before or one row has been added to each table. *)
Lemma InsertEvent_step (eventBytes : string) (w : World) :
  tx w = None ->
  tx (snd (InsertEvent eventBytes w)) = None /\
  (committed (snd (InsertEvent eventBytes w)) = committed w \/
   exists event eventJSON,
     parseJSONEvent eventBytes = Ok event /\
     jsonMarshalEvent event = Ok eventJSON /\
     committed (snd (InsertEvent eventBytes w))
     = mkDB (audit_log_events (committed w) ++ [rawArgsOf event eventJSON])
            (request_info (committed w) ++ [requestInfoArgs event])).
Proof.
  intros Ht. destruct (isEmptyEvent eventBytes) eqn:He.
  { unfold InsertEvent. rewrite He. cbn [snd]. now split; [|left]. }
  destruct (parseJSONEvent eventBytes) as [event|e0] eqn:Hp.
  - pose proof (InsertEvent_outcome eventBytes event w He Hp Ht) as H.
    destruct (InsertEvent eventBytes w) as [[err|] w']; cbn [snd];
      destruct H as [H1 H2]; (split; [exact H1|]).
    + now left.
    + right. destruct H2 as (eventJSON & Hm & Hc & _). now exists event, eventJSON.
  - unfold InsertEvent, insertBody, bind, lift, log_Printf, record_op.
    rewrite He, Hp. cbn [snd committed tx]. now split; [|left].
Qed.

(** X6. Any sequence of calls of [InsertEvent], whatever the payloads and
    whatever fails on the way, leaves no transaction open and keeps the two
    tables in step: the rows added to the raw-log table and the rows added to
    the request-info table come from the same events, in the same order, each
    event being a payload of the sequence that parses. *)
Theorem insert_events_tables_in_step (payloads : list string) (w : World) :
  tx w = None ->
  let w' := List.fold_left (fun w b => snd (InsertEvent b w)) payloads w in
  tx w' = None /\
  exists added : list (Event * string),
    audit_log_events (committed w')
    = (audit_log_events (committed w)
       ++ List.map (fun p => rawArgsOf (fst p) (snd p)) added)%list /\
    request_info (committed w')
    = (request_info (committed w)
       ++ List.map (fun p => requestInfoArgs (fst p)) added)%list /\
    List.Forall (fun p => exists b, List.In b payloads /\
                                    parseJSONEvent b = Ok (fst p) /\
                                    jsonMarshalEvent (fst p) = Ok (snd p)) added /\
    (List.length added <= List.length payloads)%nat.
Proof.
  revert w. induction payloads as [|b payloads IH]; intros w Ht; cbn [List.fold_left].
  - split; [exact Ht|]. exists []. cbn [List.map List.length].
    rewrite !List.app_nil_r. repeat split; [constructor | lia].
  - destruct (InsertEvent_step b w Ht) as [Ht1 Hc].
    destruct (IH (snd (InsertEvent b w)) Ht1) as (Ht2 & added & Ha & Hr & Hf & Hl).
    split; [exact Ht2|].
    assert (Hf' : List.Forall
                    (fun p => exists b0, List.In b0 (b :: payloads) /\
                                         parseJSONEvent b0 = Ok (fst p) /\
                                         jsonMarshalEvent (fst p) = Ok (snd p)) added).
    { eapply List.Forall_impl; [|exact Hf]. intros p (b0 & Hi & Hq).
      exists b0. split; [now right | exact Hq]. }
    destruct Hc as [Hc | (event & eventJSON & Hp & Hm & Hc)].
    + exists added. rewrite Ha, Hr, Hc. repeat split; [exact Hf'|].
      cbn [List.length]. lia.
    + exists ((event, eventJSON) :: added). rewrite Ha, Hr, Hc.
      cbn [audit_log_events request_info List.map fst snd List.length].
      rewrite <- !List.app_assoc. repeat split; [|lia].
      constructor; [|exact Hf']. exists b. cbn [fst snd].
      split; [now left|]. now split.
Qed.

End InsertPaths.

Section InsertPathsWitnesses.
Import Demo.

Lemma insert_event_rejected_early_witness :
  InsertEvent "oops" (Demo.world [])
  = (Some "invalid character",
     mkWorld Demo.emptyDB None []
       [OpParse "oops";
        OpLog "audit event not saved: oops (cause: invalid character)"]).
Proof.
  pose proof (insert_event_rejected_early (X := Demo.externals) "oops" (Demo.world [])
                eq_refl) as [H _].
  exact (H "invalid character" eq_refl).
Defined.

Lemma insert_events_tables_in_step_witness :
  let w' := List.fold_left (fun w b => snd (InsertEvent b w))
              ["{a}"; "oops"; ""; "{bc}"; "{d}"]
              (Demo.world [None; None; None; None;
                           None; None; Some "pq: deadlock detected"]) in
  tx w' = None /\
  List.length (audit_log_events (committed w')) = 2%nat /\
  List.length (request_info (committed w')) = 2%nat.
Proof.
  intros w'.
  pose proof (insert_events_tables_in_step (X := Demo.externals)
                ["{a}"; "oops"; ""; "{bc}"; "{d}"]
                (Demo.world [None; None; None; None;
                             None; None; Some "pq: deadlock detected"])
                eq_refl) as H.
  cbv zeta in H. destruct H as (Ht & _).
  split; [exact Ht|]. vm_compute. split; reflexivity.
Defined.

End InsertPathsWitnesses.

(** ** The statements and the tables *)

Section StatementFacts.
Context {C : Carrier} {X : Externals}.

(** X7. The two statements of [InsertEvent] agree with the tables and with the
    arguments it passes, whatever the event: each statement names the columns
    of its table, in the order of the table; its placeholders are numbered
    from one, one for each column; and the argument passed for a column is the
    field of the event that the column is named after. *)
Theorem insert_statements_match_tables (event : Event) (eventJSON : string) :
  let rawText := build insertAuditLogEvent [Name auditLogEventsTable] in
  let reqText := build insertRequestInfo [Name requestInfoTable] in
  between "audit_log_events" "VALUES" rawText = columnsOf auditLogEventsTable /\
  between "request_info" "VALUES" reqText = columnsOf requestInfoTable /\
  Placeholders.placeholders rawText
  = Placeholders.zseq 1 (List.length (columnsOf auditLogEventsTable)) /\
  Placeholders.placeholders reqText
  = Placeholders.zseq 1 (List.length (columnsOf requestInfoTable)) /\
  List.combine (columnsOf auditLogEventsTable) (rawArgsOf event eventJSON)
  = [("event_time", ArgTime (ev_Time event)); ("log", ArgBytes eventJSON)] /\
  List.combine (columnsOf requestInfoTable) (requestInfoArgs event)
  = [("time", ArgTime (ev_Time event));
     ("api_name", ArgString (api_Name (ev_API event)));
     ("access_key", ArgString (api_AccessKey (ev_API event)));
     ("bucket", ArgString (api_Bucket (ev_API event)));
     ("object", ArgString (api_Object (ev_API event)));
     ("time_to_response_ns", ArgInt (api_TimeToResponse (ev_API event)));
     ("remote_host", ArgString (ev_RemoteHost event));
     ("request_id", ArgString (ev_RequestID event));
     ("user_agent", ArgString (ev_UserAgent event));
     ("response_status", ArgString (api_Status (ev_API event)));
     ("response_status_code", ArgInt (api_StatusCode (ev_API event)));
     ("request_content_length",
      ArgUint64Ptr match getRequestContentLength event with
                   | Ok n => Some n
                   | Err _ => None
                   end);
     ("response_content_length",
      ArgUint64Ptr match getResponseContentLength event with
                   | Ok n => Some n
                   | Err _ => None
                   end)] /\
  List.length (rawArgsOf event eventJSON) = List.length (columnsOf auditLogEventsTable) /\
  List.length (requestInfoArgs event) = List.length (columnsOf requestInfoTable).
Proof.
  intros rawText reqText.
  assert (Ha : columnsOf auditLogEventsTable = ["event_time"; "log"])
    by (vm_compute; reflexivity).
  assert (Hr : columnsOf requestInfoTable = reqInfoCSVHeader)
    by (vm_compute; reflexivity).
  rewrite Ha, Hr.
  split; [vm_compute; reflexivity|]. split; [vm_compute; reflexivity|].
  split; [vm_compute; reflexivity|]. split; [vm_compute; reflexivity|].
  split; [reflexivity|]. split; [reflexivity|]. split; reflexivity.
Qed.

End StatementFacts.

(** ** What a search writes *)

Section SinkFacts.
Context {C : Carrier} {X : Externals}.
Variable P : SinkEvent -> Prop.

(** An operation on the sink adds its event or nothing. *)
Lemma sink_do_appends (ev : SinkEvent) (w : Sink) :
  P ev ->
  exists out, written (snd (sink_do ev w)) = (written w ++ out)%list /\ List.Forall P out.
Proof.
  intros Hev. unfold sink_do. destruct (wfaults w) as [|[e|] fs]; cbn [snd written].
  - exists [ev]. split; [reflexivity|]. now constructor.
  - exists []. split; [now rewrite List.app_nil_r | constructor].
  - exists [ev]. split; [reflexivity|]. now constructor.
Qed.

Lemma appends_trans (a b c : list SinkEvent) :
  (exists out, b = (a ++ out)%list /\ List.Forall P out) ->
  (exists out, c = (b ++ out)%list /\ List.Forall P out) ->
  exists out, c = (a ++ out)%list /\ List.Forall P out.
Proof.
  intros (o1 & -> & H1) (o2 & -> & H2). exists (o1 ++ o2)%list.
  split; [now rewrite List.app_assoc | now apply List.Forall_app].
Qed.

Lemma appends_refl (a : list SinkEvent) :
  exists out, a = (a ++ out)%list /\ List.Forall P out.
Proof. exists []. split; [now rewrite List.app_nil_r | constructor]. Qed.

Lemma jw_Encode_appends (v : JsonDoc) (w : Sink) :
  (forall t, P (EvJSON t)) ->
  exists out, written (snd (jw_Encode v w)) = (written w ++ out)%list /\ List.Forall P out.
Proof.
  intros HP. unfold jw_Encode. destruct (jsonMarshal v) as [text|e].
  - apply sink_do_appends, HP.
  - apply appends_refl.
Qed.

Lemma bw_Flush_appends (b : bufioWriter) :
  (forall blk, P (EvBytes blk)) ->
  exists out, written (bw_sink (bw_Flush b)) = (written (bw_sink b) ++ out)%list
              /\ List.Forall P out.
Proof.
  intros HP. unfold bw_Flush. destruct (bw_err b); [apply appends_refl|].
  destruct (bw_buf b) as [|c buf]; [apply appends_refl|].
  pose proof (sink_do_appends (EvBytes (String c buf)) (bw_sink b) (HP _)) as H.
  now destruct (sink_do _ (bw_sink b)) as [[e|] w'].
Qed.

Lemma bw_WriteByte_appends (c : ascii) (b : bufioWriter) :
  (forall blk, P (EvBytes blk)) ->
  exists out, written (bw_sink (bw_WriteByte c b)) = (written (bw_sink b) ++ out)%list
              /\ List.Forall P out.
Proof.
  intros HP. unfold bw_WriteByte. destruct (bw_err b); [apply appends_refl|].
  destruct (bufSize <=? String.length (bw_buf b))%nat.
  - pose proof (bw_Flush_appends b HP) as H. now destruct (bw_err (bw_Flush b)).
  - destruct (bw_err b); apply appends_refl.
Qed.

Lemma bw_WriteString_appends (s : string) : forall b,
  (forall blk, P (EvBytes blk)) ->
  exists out, written (bw_sink (bw_WriteString s b)) = (written (bw_sink b) ++ out)%list
              /\ List.Forall P out.
Proof.
  induction s as [|c s IH]; intros b HP; cbn [bw_WriteString].
  - apply appends_refl.
  - eapply appends_trans; [apply (bw_WriteByte_appends c b HP) | apply IH, HP].
Qed.

Lemma csv_Write_appends (record : list string) (cw : csvWriter) :
  (forall blk, P (EvBytes blk)) ->
  exists out, written (cw_sink (snd (csv_Write record cw)))
              = (written (cw_sink cw) ++ out)%list /\ List.Forall P out.
Proof. intros HP. unfold csv_Write, cw_sink. cbn [snd cw_w]. now apply bw_WriteString_appends. Qed.

Lemma rawNdjson_appends (rows : list DbRow) : forall w,
  (forall t, P (EvJSON t)) ->
  exists out, written (snd (rawNdjson rows w)) = (written w ++ out)%list
              /\ List.Forall P out.
Proof.
  induction rows as [|r rows IH]; intros w HP; cbn [rawNdjson].
  - apply appends_refl.
  - destruct (scanLogEventRaw r) as [raw|e]; [|apply appends_refl].
    destruct (jsonUnmarshalLog (raw_Log raw)) as [obj|e]; [|apply appends_refl].
    pose proof (jw_Encode_appends (JLogEvent (mkLogEventRow (raw_EventTime raw) obj)) w HP)
      as H.
    destruct (jw_Encode _ w) as [[e|] w']; cbn [snd] in *; [exact H|].
    eapply appends_trans; [exact H | apply IH, HP].
Qed.

Lemma reqInfoNdjson_appends (rows : list DbRow) : forall w,
  (forall t, P (EvJSON t)) ->
  exists out, written (snd (reqInfoNdjson rows w)) = (written w ++ out)%list
              /\ List.Forall P out.
Proof.
  induction rows as [|r rows IH]; intros w HP; cbn [reqInfoNdjson].
  - apply appends_refl.
  - destruct (scanReqInfo r) as [i|e]; [|apply appends_refl].
    pose proof (jw_Encode_appends (JReqInfo i) w HP) as H.
    destruct (jw_Encode _ w) as [[e|] w']; cbn [snd] in *; [exact H|].
    eapply appends_trans; [exact H | apply IH, HP].
Qed.

Lemma rawCsvRows_appends (rows : list DbRow) : forall cw,
  (forall blk, P (EvBytes blk)) ->
  exists out, written (cw_sink (snd (rawCsvRows rows cw)))
              = (written (cw_sink cw) ++ out)%list /\ List.Forall P out.
Proof.
  induction rows as [|r rows IH]; intros cw HP; cbn [rawCsvRows].
  - apply appends_refl.
  - destruct (scanLogEventRaw r) as [raw|e]; [|apply appends_refl].
    pose proof (csv_Write_appends
                  [formatRFC3339Nano (raw_EventTime raw); raw_Log raw] cw HP) as H.
    destruct (csv_Write _ cw) as [[e|] cw']; cbn [snd] in *; [exact H|].
    eapply appends_trans; [exact H | apply IH, HP].
Qed.

Lemma reqInfoCsvRows_appends (rows : list DbRow) : forall cw,
  (forall blk, P (EvBytes blk)) ->
  exists out, written (cw_sink (snd (reqInfoCsvRows rows cw)))
              = (written (cw_sink cw) ++ out)%list /\ List.Forall P out.
Proof.
  induction rows as [|r rows IH]; intros cw HP; cbn [reqInfoCsvRows].
  - apply appends_refl.
  - destruct (scanReqInfo r) as [i|e]; [|apply appends_refl].
    pose proof (csv_Write_appends (reqInfoRecord i) cw HP) as H.
    destruct (csv_Write _ cw) as [[e|] cw']; cbn [snd] in *; [exact H|].
    eapply appends_trans; [exact H | apply IH, HP].
Qed.

Lemma rawCsv_appends (rows : list DbRow) (w : Sink) :
  (forall blk, P (EvBytes blk)) ->
  exists out, written (snd (rawCsv rows w)) = (written w ++ out)%list
              /\ List.Forall P out.
Proof.
  intros HP. unfold rawCsv, csv_Error.
  pose proof (csv_Write_appends logEventCSVHeader (csv_NewWriter w) HP) as H1.
  destruct (csv_Write logEventCSVHeader (csv_NewWriter w)) as [[e|] cw1]; cbn [snd] in *;
    [exact H1|].
  pose proof (rawCsvRows_appends rows cw1 HP) as H2.
  destruct (rawCsvRows rows cw1) as [[e|] cw2]; cbn [snd] in *;
    [eapply appends_trans; eassumption|].
  pose proof (bw_Flush_appends (cw_w cw2) HP) as H3.
  assert (H : exists out, written (cw_sink (csv_Flush cw2))
                          = (written w ++ out)%list /\ List.Forall P out).
  { eapply appends_trans; [|exact H3]. eapply appends_trans; eassumption. }
  now destruct (bw_err (cw_w (csv_Flush cw2))).
Qed.

Lemma reqInfoCsv_appends (rows : list DbRow) (w : Sink) :
  (forall blk, P (EvBytes blk)) ->
  exists out, written (snd (reqInfoCsv rows w)) = (written w ++ out)%list
              /\ List.Forall P out.
Proof.
  intros HP. unfold reqInfoCsv, csv_Error.
  pose proof (csv_Write_appends reqInfoCSVHeader (csv_NewWriter w) HP) as H1.
  destruct (csv_Write reqInfoCSVHeader (csv_NewWriter w)) as [[e|] cw1]; cbn [snd] in *;
    [exact H1|].
  pose proof (reqInfoCsvRows_appends rows cw1 HP) as H2.
  destruct (reqInfoCsvRows rows cw1) as [[e|] cw2]; cbn [snd] in *;
    [eapply appends_trans; eassumption|].
  pose proof (bw_Flush_appends (cw_w cw2) HP) as H3.
  assert (H : exists out, written (cw_sink (csv_Flush cw2))
                          = (written w ++ out)%list /\ List.Forall P out).
  { eapply appends_trans; [|exact H3]. eapply appends_trans; eassumption. }
  now destruct (bw_err (cw_w (csv_Flush cw2))).
Qed.

Lemma rawPage_appends (rows : list DbRow) (w : Sink) :
  (forall t, P (EvJSON t)) ->
  exists out, written (snd (rawPage rows w)) = (written w ++ out)%list
              /\ List.Forall P out.
Proof.
  intros HP. unfold rawPage.
  destruct (ScanAll scanLogEventRaw rows) as [raws|e]; [|apply appends_refl].
  destruct (decodeLogs raws) as [evs|e]; [|apply appends_refl].
  pose proof (jw_Encode_appends (JLogEvents evs) w HP) as H.
  now destruct (jw_Encode _ w) as [[e|] w'].
Qed.

Lemma reqInfoPage_appends (rows : list DbRow) (w : Sink) :
  (forall t, P (EvJSON t)) ->
  exists out, written (snd (reqInfoPage rows w)) = (written w ++ out)%list
              /\ List.Forall P out.
Proof.
  intros HP. unfold reqInfoPage.
  destruct (ScanAll scanReqInfo rows) as [infos|e]; [|apply appends_refl].
  pose proof (jw_Encode_appends (JReqInfos infos) w HP) as H.
  now destruct (jw_Encode _ w) as [[e|] w'].
Qed.

End SinkFacts.

Section SearchOutput.
Context {C : Carrier} {X : Externals}.

(** X8. A search only ever adds to its output, and only in the format asked
    for: what the sink held before the call is still there, in front; in csv
    mode everything added is a block of bytes of the CSV writer, and in every
    other mode everything added is a JSON text. The database is sent the one
    query of the request, and no query at all when the query name is
    unknown. *)
Theorem search_output_append_only (s : SearchQuery) (w : Sink) :
  (exists out,
     written (so_sink (Search s w)) = (written w ++ out)%list /\
     List.Forall (fun ev => match ev with
                            | EvJSON _ => ExportFormat s <> "csv"
                            | _ => ExportFormat s = "csv"
                            end) out) /\
  so_queries (Search s w)
  = match searchQuery s with Some q => [q] | None => [] end.
Proof.
  unfold Search, searchQuery.
  destruct (Query s) as [| |name]; [| |split; [apply appends_refl | reflexivity]].
  - destruct (rawQuery s) as [q a].
    destruct (QueryContext q a) as [rows|e]; [|split; [apply appends_refl | reflexivity]].
    destruct (String.eqb (ExportFormat s) "ndjson") eqn:En.
    { apply String.eqb_eq in En.
      pose proof (rawNdjson_appends
                    (fun ev => match ev with
                               | EvJSON _ => ExportFormat s <> "csv"
                               | _ => ExportFormat s = "csv"
                               end) rows w) as H.
      destruct (rawNdjson rows w) as [r w']. cbn [so_sink so_queries snd] in *.
      split; [|reflexivity]. apply H. intros _. rewrite En. discriminate. }
    destruct (String.eqb (ExportFormat s) "csv") eqn:Ec.
    { apply String.eqb_eq in Ec.
      pose proof (rawCsv_appends
                    (fun ev => match ev with
                               | EvJSON _ => ExportFormat s <> "csv"
                               | _ => ExportFormat s = "csv"
                               end) rows w) as H.
      destruct (rawCsv rows w) as [r w']. cbn [so_sink so_queries snd] in *.
      split; [|reflexivity]. apply H. intros _. exact Ec. }
    apply String.eqb_neq in Ec.
    pose proof (rawPage_appends
                  (fun ev => match ev with
                             | EvJSON _ => ExportFormat s <> "csv"
                             | _ => ExportFormat s = "csv"
                             end) rows w) as H.
    destruct (rawPage rows w) as [r w']. cbn [so_sink so_queries snd] in *.
    split; [|reflexivity]. apply H. intros _. exact Ec.
  - destruct (reqInfoQuery s) as [q a].
    destruct (QueryContext q a) as [rows|e]; [|split; [apply appends_refl | reflexivity]].
    destruct (String.eqb (ExportFormat s) "ndjson") eqn:En.
    { apply String.eqb_eq in En.
      pose proof (reqInfoNdjson_appends
                    (fun ev => match ev with
                               | EvJSON _ => ExportFormat s <> "csv"
                               | _ => ExportFormat s = "csv"
                               end) rows w) as H.
      destruct (reqInfoNdjson rows w) as [r w']. cbn [so_sink so_queries snd] in *.
      split; [|reflexivity]. apply H. intros _. rewrite En. discriminate. }
    destruct (String.eqb (ExportFormat s) "csv") eqn:Ec.
    { apply String.eqb_eq in Ec.
      pose proof (reqInfoCsv_appends
                    (fun ev => match ev with
                               | EvJSON _ => ExportFormat s <> "csv"
                               | _ => ExportFormat s = "csv"
                               end) rows w) as H.
      destruct (reqInfoCsv rows w) as [r w']. cbn [so_sink so_queries snd] in *.
      split; [|reflexivity]. apply H. intros _. exact Ec. }
    apply String.eqb_neq in Ec.
    pose proof (reqInfoPage_appends
                  (fun ev => match ev with
                             | EvJSON _ => ExportFormat s <> "csv"
                             | _ => ExportFormat s = "csv"
                             end) rows w) as H.
    destruct (reqInfoPage rows w) as [r w']. cbn [so_sink so_queries snd] in *.
    split; [|reflexivity]. apply H. intros _. exact Ec.
Qed.

End SearchOutput.

Section StreamFacts.
Context {C : Carrier} {X : Externals}.

(** One operation on a sink whose script lets it succeed. *)
Lemma sink_do_calm (ev : SinkEvent) (wr : list SinkEvent) (fs rest : list (option error))
  (n : nat) :
  calm (S n) fs = Some rest ->
  exists fs',
    sink_do ev (mkSink wr fs) = (None, mkSink (wr ++ [ev])%list fs')
    /\ calm n fs' = Some rest.
Proof.
  intros H. unfold sink_do. cbn [wfaults written].
  destruct fs as [|[e|] fs]; cbn [calm] in H.
  - exists []. now split.
  - discriminate.
  - exists fs. now split.
Qed.

Lemma Errorf_text (prefix : string) (e : error) :
  Fmt.lacks "%" prefix = true ->
  Errorf (prefix ++ "%v") e = prefix ++ e.
Proof.
  intros H. unfold Errorf. induction prefix as [|c p IH].
  - cbn. now rewrite StringFacts.app_nil_r.
  - cbn [Fmt.lacks] in H. apply andb_true_iff in H. destruct H as [Hc Hp].
    cbn [append Fmt.Sprintf]. apply negb_true_iff in Hc. rewrite Hc.
    now rewrite (IH Hp).
Qed.

(** The lines of the rows that scan and marshal, written while the script is
    calm; the loop then goes on with the rows that follow. *)
Lemma reqInfoNdjson_good (good : list DbRow) :
  forall (more : list DbRow) infos texts wr fs rest n,
  ScanAll scanReqInfo good = Ok infos ->
  List.Forall2 (fun i t => jsonMarshal (JReqInfo i) = Ok t) infos texts ->
  calm (List.length good + n) fs = Some rest ->
  exists fs',
    reqInfoNdjson (good ++ more) (mkSink wr fs)
    = reqInfoNdjson more
        (mkSink (wr ++ List.map (fun t => EvJSON (t ++ nl)) texts)%list fs')
    /\ calm n fs' = Some rest.
Proof.
  induction good as [|r good IH]; intros more infos texts wr fs rest n Hs Hm Hc.
  - injection Hs as <-. inversion Hm; subst. exists fs.
    cbn [List.map app]. rewrite List.app_nil_r. now split.
  - cbn [ScanAll] in Hs. destruct (scanReqInfo r) as [i|e] eqn:Ei; [|discriminate].
    destruct (ScanAll scanReqInfo good) as [infos'|e] eqn:Er; [|discriminate].
    injection Hs as <-. inversion Hm as [|? t ? texts' Ht Hm']; subst.
    cbn [List.length Nat.add] in Hc.
    destruct (sink_do_calm (EvJSON (t ++ nl)) wr fs rest _ Hc) as (fs1 & E1 & Hc1).
    destruct (IH more infos' texts' (wr ++ [EvJSON (t ++ nl)])%list fs1 rest n eq_refl Hm' Hc1)
      as (fs2 & E2 & Hc2).
    exists fs2. split; [|exact Hc2].
    cbn [app reqInfoNdjson]. rewrite Ei. unfold jw_Encode at 1. rewrite Ht, E1, E2.
    cbn [List.map]. now rewrite <- List.app_assoc.
Qed.

Lemma rawNdjson_good (rows : list DbRow) :
  forall raws events texts wr fs rest,
  ScanAll scanLogEventRaw rows = Ok raws ->
  decodeLogs raws = Ok events ->
  List.Forall2 (fun ev t => jsonMarshal (JLogEvent ev) = Ok t) events texts ->
  calm (List.length rows) fs = Some rest ->
  rawNdjson rows (mkSink wr fs)
  = (None, mkSink (wr ++ List.map (fun t => EvJSON (t ++ nl)) texts)%list rest).
Proof.
  induction rows as [|r rows IH]; intros raws events texts wr fs rest Hs Hd Hm Hc.
  - injection Hs as <-. injection Hd as <-. inversion Hm; subst.
    cbn [calm List.length] in Hc. injection Hc as ->.
    cbn [rawNdjson List.map]. now rewrite List.app_nil_r.
  - cbn [ScanAll] in Hs. destruct (scanLogEventRaw r) as [raw|e] eqn:Ei; [|discriminate].
    destruct (ScanAll scanLogEventRaw rows) as [raws'|e] eqn:Er; [|discriminate].
    injection Hs as <-. cbn [decodeLogs] in Hd.
    destruct (jsonUnmarshalLog (raw_Log raw)) as [obj|e] eqn:Eo; [|discriminate].
    destruct (decodeLogs raws') as [events'|e] eqn:Ed; [|discriminate].
    injection Hd as <-. inversion Hm as [|? t ? texts' Ht Hm']; subst.
    cbn [List.length] in Hc.
    destruct (sink_do_calm (EvJSON (t ++ nl)) wr fs rest _ Hc) as (fs1 & E1 & Hc1).
    cbn [rawNdjson]. rewrite Ei, Eo. unfold jw_Encode at 1. rewrite Ht, E1.
    rewrite (IH raws' events' texts' _ fs1 rest eq_refl Ed Hm' Hc1).
    cbn [List.map]. now rewrite <- List.app_assoc.
Qed.

Lemma Search_reqInfo_ndjson (s : SearchQuery) (w : Sink) (rows : list DbRow) :
  Query s = reqInfoQ ->
  ExportFormat s = "ndjson" ->
  QueryContext (fst (reqInfoQuery s)) (snd (reqInfoQuery s)) = Ok rows ->
  Search s w = mkOutcome (fst (reqInfoNdjson rows w)) (snd (reqInfoNdjson rows w))
                         [reqInfoQuery s].
Proof.
  intros Hq Hf Hr. unfold Search. rewrite Hq, Hf.
  destruct (reqInfoQuery s) as [q a]. cbn [fst snd] in Hr. rewrite Hr.
  change (String.eqb "ndjson" "ndjson") with true. cbv iota.
  now destruct (reqInfoNdjson rows w).
Qed.

Lemma Search_raw_ndjson (s : SearchQuery) (w : Sink) (rows : list DbRow) :
  Query s = rawQ ->
  ExportFormat s = "ndjson" ->
  QueryContext (fst (rawQuery s)) (snd (rawQuery s)) = Ok rows ->
  Search s w = mkOutcome (fst (rawNdjson rows w)) (snd (rawNdjson rows w)) [rawQuery s].
Proof.
  intros Hq Hf Hr. unfold Search. rewrite Hq, Hf.
  destruct (rawQuery s) as [q a]. cbn [fst snd] in Hr. rewrite Hr.
  change (String.eqb "ndjson" "ndjson") with true. cbv iota.
  now destruct (rawNdjson rows w).
Qed.

(** X9. A search of the request-info table in ndjson mode, once the query has
    returned its rows, every row scans and marshals, and the sink accepts what
    it is given: one JSON text, ended by a line feed, is written for each row,
    in the order of the cursor, and [nil] is returned. *)
Theorem search_reqinfo_ndjson_stream
  (s : SearchQuery) (w : Sink) (rows : list DbRow) (infos : list ReqInfoRow)
  (texts : list string) (rest : list (option error)) :
  Query s = reqInfoQ ->
  ExportFormat s = "ndjson" ->
  QueryContext (fst (reqInfoQuery s)) (snd (reqInfoQuery s)) = Ok rows ->
  ScanAll scanReqInfo rows = Ok infos ->
  List.Forall2 (fun i t => jsonMarshal (JReqInfo i) = Ok t) infos texts ->
  calm (List.length rows) (wfaults w) = Some rest ->
  so_err (Search s w) = None /\
  written (so_sink (Search s w))
  = (written w ++ List.map (fun t => EvJSON (t ++ nl)) texts)%list.
Proof.
  intros Hq Hf Hr Hs Hm Hc. rewrite (Search_reqInfo_ndjson s w rows Hq Hf Hr).
  cbn [so_err so_sink]. destruct w as [wr fs]. cbn [wfaults written] in *.
  replace (List.length rows) with (List.length rows + 0)%nat in Hc by lia.
  destruct (reqInfoNdjson_good rows [] infos texts wr fs rest 0%nat Hs Hm Hc)
    as (fs' & E & _).
  rewrite List.app_nil_r in E. rewrite E. cbn [reqInfoNdjson fst snd written].
  now split.
Qed.

(** X10. A search of the raw-log table in ndjson mode, once the query has
    returned its rows, every row scans, every stored log decodes, every event
    marshals, and the sink accepts what it is given: one JSON text, ended by a
    line feed, is written for each row, in the order of the cursor; the event
    of a row holds the time of the row and the decoded log. *)
Theorem search_raw_ndjson_stream
  (s : SearchQuery) (w : Sink) (rows : list DbRow) (raws : list logEventRawRow)
  (objs : list JsonObject) (texts : list string) (rest : list (option error)) :
  Query s = rawQ ->
  ExportFormat s = "ndjson" ->
  QueryContext (fst (rawQuery s)) (snd (rawQuery s)) = Ok rows ->
  ScanAll scanLogEventRaw rows = Ok raws ->
  List.Forall2 (fun raw obj => jsonUnmarshalLog (raw_Log raw) = Ok obj) raws objs ->
  List.Forall2 (fun ev t => jsonMarshal (JLogEvent ev) = Ok t)
    (List.map (fun p => mkLogEventRow (raw_EventTime (fst p)) (snd p))
              (List.combine raws objs))
    texts ->
  calm (List.length rows) (wfaults w) = Some rest ->
  so_err (Search s w) = None /\
  written (so_sink (Search s w))
  = (written w ++ List.map (fun t => EvJSON (t ++ nl)) texts)%list.
Proof.
  intros Hq Hf Hr Hs Hd Hm Hc. rewrite (Search_raw_ndjson s w rows Hq Hf Hr).
  cbn [so_err so_sink]. destruct w as [wr fs]. cbn [wfaults written] in *.
  assert (Hd' : decodeLogs raws
                = Ok (List.map (fun p => mkLogEventRow (raw_EventTime (fst p)) (snd p))
                               (List.combine raws objs))).
  { clear -Hd. induction Hd as [|raw obj raws objs Ho _ IH]; [reflexivity|].
    cbn [decodeLogs List.combine List.map fst snd]. now rewrite Ho, IH. }
  rewrite (rawNdjson_good rows raws _ texts wr fs rest Hs Hd' Hm Hc).
  now split.
Qed.

(** X11. In ndjson mode the lines of the rows before a failure are written
    before the failure is met: when the rows in front scan and marshal and the
    sink accepts their lines, a next row that does not scan, that does not
    marshal, or whose line the sink refuses, ends the search with the error of
    that step, and the output holds the lines of the rows in front. *)
Theorem search_ndjson_partial_output
  (s : SearchQuery) (w : Sink) (good : list DbRow) (bad : DbRow) (more : list DbRow)
  (infos : list ReqInfoRow) (texts : list string) :
  Query s = reqInfoQ ->
  ExportFormat s = "ndjson" ->
  QueryContext (fst (reqInfoQuery s)) (snd (reqInfoQuery s)) = Ok (good ++ bad :: more)%list ->
  ScanAll scanReqInfo good = Ok infos ->
  List.Forall2 (fun i t => jsonMarshal (JReqInfo i) = Ok t) infos texts ->
  (forall e rest,
     scanReqInfo bad = Err e ->
     calm (List.length good) (wfaults w) = Some rest ->
     so_err (Search s w) = Some ("Error accessing db: " ++ e) /\
     written (so_sink (Search s w))
     = (written w ++ List.map (fun t => EvJSON (t ++ nl)) texts)%list) /\
  (forall i e rest,
     scanReqInfo bad = Ok i ->
     jsonMarshal (JReqInfo i) = Err e ->
     calm (List.length good) (wfaults w) = Some rest ->
     so_err (Search s w) = Some ("Error writing to output stream: " ++ e) /\
     written (so_sink (Search s w))
     = (written w ++ List.map (fun t => EvJSON (t ++ nl)) texts)%list) /\
  (forall i t e rest,
     scanReqInfo bad = Ok i ->
     jsonMarshal (JReqInfo i) = Ok t ->
     calm (List.length good) (wfaults w) = Some (Some e :: rest) ->
     so_err (Search s w) = Some ("Error writing to output stream: " ++ e) /\
     written (so_sink (Search s w))
     = (written w ++ List.map (fun t => EvJSON (t ++ nl)) texts)%list).
Proof.
  intros Hq Hf Hr Hs Hm. rewrite (Search_reqInfo_ndjson s w _ Hq Hf Hr).
  cbn [so_err so_sink]. destruct w as [wr fs]. cbn [wfaults written].
  repeat split.
  all: match goal with
       | Hc : calm _ _ = Some ?r |- _ =>
           replace (List.length good) with (List.length good + 0)%nat in Hc by lia;
           destruct (reqInfoNdjson_good good (bad :: more) infos texts wr fs r 0%nat
                       Hs Hm Hc) as (fs' & E & Hc');
           rewrite E; cbn [reqInfoNdjson calm] in *
       end.
  all: match goal with Hb : scanReqInfo _ = _ |- _ => rewrite Hb end.
  all: try (unfold jw_Encode;
            match goal with Hb : jsonMarshal _ = _ |- _ => rewrite Hb end).
  all: try (injection Hc' as ->; unfold sink_do; cbn [wfaults written]).
  all: cbn [fst snd written];
    try (change "Error accessing db: %v" with ("Error accessing db: " ++ "%v"));
    try (change "Error writing to output stream: %v"
           with ("Error writing to output stream: " ++ "%v"));
    try (rewrite Errorf_text by reflexivity); reflexivity.
Qed.

End StreamFacts.

Section PageFacts.
Context {C : Carrier} {X : Externals}.

(** X12. With any export format other than ndjson and csv, a search writes all
    or nothing: when it returns an error the output is as it was, and when it
    returns [nil] it has written exactly one JSON text, the array of all the
    rows the query returned, in the order of the cursor. *)
Theorem search_page_all_or_nothing (s : SearchQuery) (w : Sink) :
  ExportFormat s <> "ndjson" ->
  ExportFormat s <> "csv" ->
  match so_err (Search s w) with
  | Some _ => written (so_sink (Search s w)) = written w
  | None =>
      exists q rows doc text,
        searchQuery s = Some q /\
        QueryContext (fst q) (snd q) = Ok rows /\
        match doc with
        | JReqInfos l => Query s = reqInfoQ /\ ScanAll scanReqInfo rows = Ok l
        | JLogEvents l =>
            Query s = rawQ /\
            exists raws, ScanAll scanLogEventRaw rows = Ok raws /\
                         decodeLogs raws = Ok l
        | _ => False
        end /\
        jsonMarshal doc = Ok text /\
        written (so_sink (Search s w)) = (written w ++ [EvJSON (text ++ nl)])%list
  end.
Proof.
  intros Hn Hc. apply String.eqb_neq in Hn, Hc.
  unfold Search, searchQuery. rewrite Hn, Hc.
  destruct (Query s) as [| |name]; [| |reflexivity].
  - destruct (rawQuery s) as [q a] eqn:Eq.
    destruct (QueryContext q a) as [rows|e] eqn:Er; [|reflexivity].
    unfold rawPage.
    destruct (ScanAll scanLogEventRaw rows) as [raws|e] eqn:Es; [|reflexivity].
    destruct (decodeLogs raws) as [evs|e] eqn:Ed; [|reflexivity].
    unfold jw_Encode. destruct (jsonMarshal (JLogEvents evs)) as [text|e] eqn:Em;
      [|reflexivity].
    unfold sink_do. destruct (wfaults w) as [|[e|] fs]; cbn [so_err so_sink written];
      [ |reflexivity| ].
    all: exists (q, a), rows, (JLogEvents evs), text; cbn [fst snd];
      repeat split; try assumption; now exists raws.
  - destruct (reqInfoQuery s) as [q a] eqn:Eq.
    destruct (QueryContext q a) as [rows|e] eqn:Er; [|reflexivity].
    unfold reqInfoPage.
    destruct (ScanAll scanReqInfo rows) as [infos|e] eqn:Es; [|reflexivity].
    unfold jw_Encode. destruct (jsonMarshal (JReqInfos infos)) as [text|e] eqn:Em;
      [|reflexivity].
    unfold sink_do. destruct (wfaults w) as [|[e|] fs]; cbn [so_err so_sink written];
      [ |reflexivity| ].
    all: exists (q, a), rows, (JReqInfos infos), text; cbn [fst snd];
      repeat split; assumption.
Qed.

(** X13. The text of the query does not hold the values of the time bounds,
    the page number or the page size: two requests that differ only in these
    values send the same text. *)
Theorem search_text_free_of_bound_values (s1 s2 : SearchQuery) :
  Query s1 = Query s2 ->
  (TimeStart s1 = None <-> TimeStart s2 = None) ->
  (TimeEnd s1 = None <-> TimeEnd s2 = None) ->
  LastDuration s1 = LastDuration s2 ->
  FParams s1 = FParams s2 ->
  TimeAscending s1 = TimeAscending s2 ->
  ExportFormat s1 = ExportFormat s2 ->
  option_map fst (searchQuery s1) = option_map fst (searchQuery s2).
Proof.
  destruct s1 as [q1 ts1 te1 ld1 fp1 asc1 ef1 pn1 ps1].
  destruct s2 as [q2 ts2 te2 ld2 fp2 asc2 ef2 pn2 ps2].
  cbn [Query TimeStart TimeEnd LastDuration FParams TimeAscending ExportFormat].
  intros <- Hs He <- <- <- <-.
  assert (Es : match ts1, ts2 with Some _, Some _ | None, None => True | _, _ => False end).
  { destruct ts1, ts2; try exact I; destruct Hs as [H1 H2];
      try (specialize (H1 eq_refl)); try (specialize (H2 eq_refl)); discriminate. }
  assert (Ee : match te1, te2 with Some _, Some _ | None, None => True | _, _ => False end).
  { destruct te1, te2; try exact I; destruct He as [H1 H2];
      try (specialize (H1 eq_refl)); try (specialize (H2 eq_refl)); discriminate. }
  clear Hs He.
  unfold searchQuery. cbn [Query].
  destruct q1 as [| |name]; cbn [option_map]; [| |reflexivity]; f_equal.
  - unfold rawQuery, rawWhere.
    cbn [TimeStart TimeEnd LastDuration FParams TimeAscending ExportFormat PageNumber
         PageSize].
    destruct ts1, ts2; try contradiction; destruct te1, te2; try contradiction;
      cbn [app];
      match goal with
      | |- context [generateFilterClauses fp1 ?d] =>
          destruct (generateFilterClauses fp1 d) as [[fc fa] d']
      end;
      destruct (String.eqb ef1 ""); cbv beta iota zeta; cbn [fst]; reflexivity.
  - unfold reqInfoQuery, reqInfoWhere.
    cbn [TimeStart TimeEnd LastDuration FParams TimeAscending ExportFormat PageNumber
         PageSize].
    destruct ts1, ts2; try contradiction; destruct te1, te2; try contradiction;
      cbn [app];
      match goal with
      | |- context [generateFilterClauses fp1 ?d] =>
          destruct (generateFilterClauses fp1 d) as [[fc fa] d']
      end;
      destruct (String.eqb ef1 ""); cbv beta iota zeta; cbn [fst]; reflexivity.
Qed.

(** X17. A search that cannot run its query writes nothing: when the database
    refuses the query, the error returned is that of the database behind
    [Error querying db: ], and the output is as it was; when the query name is
    not one of the two known ones, the error names it, and the database is not
    called. *)
Theorem search_fails_before_output (s : SearchQuery) (w : Sink) :
  (forall q e,
     searchQuery s = Some q ->
     QueryContext (fst q) (snd q) = Err e ->
     Search s w = mkOutcome (Some ("Error querying db: " ++ e)) w [q]) /\
  (forall name,
     Query s = otherQ name ->
     Search s w = mkOutcome (Some ("Invalid query name: " ++ name)) w []).
Proof.
  assert (E1 : forall e, Errorf "Error querying db: %v" e = "Error querying db: " ++ e).
  { intros e. unfold Errorf. cbn. now rewrite StringFacts.app_nil_r. }
  assert (E2 : forall e, Errorf "Invalid query name: %v" e = "Invalid query name: " ++ e).
  { intros e. unfold Errorf. cbn. now rewrite StringFacts.app_nil_r. }
  unfold Search, searchQuery. split.
  - intros q e Hq He. destruct (Query s) as [| |name]; [| |discriminate].
    + injection Hq as <-. destruct (rawQuery s) as [t a]. cbn [fst snd] in He.
      now rewrite He, E1.
    + injection Hq as <-. destruct (reqInfoQuery s) as [t a]. cbn [fst snd] in He.
      now rewrite He, E1.
  - intros name ->. now rewrite E2.
Qed.

End PageFacts.

Section SelectFacts.
Context {C : Carrier} {X : Externals}.

(** X14. Whatever the request, the query of a search reads the columns of its
    table, all of them and in the order of the table, from that table: the
    words between SELECT and FROM are the columns the create statement
    declares, which are also the header of the csv export, and the word after
    FROM is the name of the table. *)
Theorem search_selects_table_columns (s : SearchQuery) :
  between "SELECT" "FROM" (fst (rawQuery s)) = columnsOf auditLogEventsTable /\
  between "SELECT" "FROM" (fst (reqInfoQuery s)) = columnsOf requestInfoTable /\
  List.hd_error (after "FROM" (tokens (fst (rawQuery s)))) = Some (Name auditLogEventsTable) /\
  List.hd_error (after "FROM" (tokens (fst (reqInfoQuery s)))) = Some (Name requestInfoTable) /\
  columnsOf auditLogEventsTable = logEventCSVHeader /\
  columnsOf requestInfoTable = reqInfoCSVHeader.
Proof.
  rewrite rawQuery_factored, reqInfoQuery_factored. unfold queryOf.
  destruct (whereOf "event_time" "event_time" s) as [[c1 a1] d1].
  destruct (whereOf "time" "event_time" s) as [[c2 a2] d2]. cbn [fst].
  repeat split; vm_compute; reflexivity.
Qed.

End SelectFacts.

Section CsvMore.
Context {C : Carrier} {X : Externals}.

(** X15. A search of the raw-log table in csv mode in which a row does not
    scan returns after the header and the records of the rows in front have
    been written to the CSV writer, without flushing it, so that what the
    buffer holds is lost: when that text fits in the buffer the sink is left
    as it was; on a sink that never fails the sink has received the full
    buffers only, and at least the last byte of the text never arrives. The
    error is the one of the scan, or the one of the sink when the sink refuses
    a full buffer. *)
Theorem search_raw_log_csv
  (s : SearchQuery) (w : Sink) (good : list DbRow) (bad : DbRow) (more : list DbRow)
  (rs : list logEventRawRow) (e : error) :
  Query s = rawQ ->
  ExportFormat s = "csv" ->
  QueryContext (fst (rawQuery s)) (snd (rawQuery s)) = Ok (good ++ bad :: more)%list ->
  ScanAll scanLogEventRaw good = Ok rs ->
  scanLogEventRaw bad = Err e ->
  let text :=
    String.concat ""
      (List.map csv_line
         (logEventCSVHeader
          :: List.map (fun r => [formatRFC3339Nano (raw_EventTime r); raw_Log r]) rs)) in
  ((String.length text <= bufSize)%nat ->
   so_err (Search s w) = Some ("Error accessing db: " ++ e) /\
   so_sink (Search s w) = w) /\
  (List.Forall (fun f => f = None) (wfaults w) ->
   so_err (Search s w) = Some ("Error accessing db: " ++ e) /\
   exists full lost,
     written (so_sink (Search s w)) = (written w ++ List.map EvBytes full)%list /\
     List.Forall (fun blk => String.length blk = bufSize) full /\
     lost <> "" /\
     received (List.map EvBytes full) ++ lost = text) /\
  (forall we rest,
     wfaults w = Some we :: rest ->
     (bufSize < String.length text)%nat ->
     so_err (Search s w) = Some ("Error writing to output stream: " ++ we) /\
     written (so_sink (Search s w)) = written w).
Proof.
  intros Hq Hf Hr Hs Hb text.
  rewrite (Search_raw_csv s w _ Hq Hf Hr), (rawCsv_scan_fails good bad more rs e w Hs Hb).
  cbv zeta. fold text. cbn [so_err so_sink fst snd].
  assert (EA : Errorf "Error accessing db: %v" e = "Error accessing db: " ++ e).
  { unfold Errorf. cbn. now rewrite StringFacts.app_nil_r. }
  assert (EW : forall we, Errorf "Error writing to output stream: %v" we
                          = "Error writing to output stream: " ++ we).
  { intros we. unfold Errorf. cbn. now rewrite StringFacts.app_nil_r. }
  assert (Hn : text <> "") by apply csv_text_not_empty.
  split; [|split].
  - intros Hl. rewrite (bw_WriteString_fits text w "" Hl).
    cbn [bw_err bw_sink]. now rewrite EA.
  - intros Hq'. destruct w as [wr fs]. cbn [wfaults written] in *.
    destruct (bw_WriteString_quiet text wr fs "" Hq' (Nat.le_0_l bufSize))
      as (blocks & fs' & buf' & -> & _ & _ & Hfull & Hrec & Hne).
    cbn [bw_err bw_sink written]. rewrite EA. split; [reflexivity|].
    exists blocks, buf'. cbn [append] in Hrec, Hne. repeat split; auto.
  - intros we rest Hw Hl. destruct w as [wr fs]. cbn [wfaults written] in *. subst fs.
    destruct (bw_WriteString_refused text wr we rest "" (Nat.le_0_l bufSize))
      as [[H1 _] | [_ ->]].
    + cbn [String.length] in H1. lia.
    + cbn [bw_err bw_sink written]. now rewrite EW.
Qed.

(** X16. [iPtrToStr] tells a nil pointer from every value and any two values
    that are not negative from one another: the text of a value is its decimal
    numeral, which is not empty and reads back as the value. *)
Theorem iPtrToStr_faithful (a b : option Z) :
  (forall v, a = Some v -> 0 <= v) ->
  (forall v, b = Some v -> 0 <= v) ->
  a <> b ->
  iPtrToStr a <> iPtrToStr b /\
  (forall v, a = Some v ->
     iPtrToStr a <> "" /\ Placeholders.all_digits (iPtrToStr a) = true /\
     Placeholders.eat 0 (iPtrToStr a) = v).
Proof.
  assert (R : forall v, 0 <= v ->
            iPtrToStr (Some v) <> "" /\
            Placeholders.all_digits (iPtrToStr (Some v)) = true /\
            Placeholders.eat 0 (iPtrToStr (Some v)) = v).
  { intros v Hv. rewrite iPtrToStr_value, FmtFacts.fmt_d_nonneg by exact Hv.
    destruct (FmtFacts.dec_spec v Hv) as (ds & -> & Hd & Hn & He). now repeat split. }
  intros Ha Hb Hab. split.
  - intros E. apply Hab. destruct a as [x|], b as [y|].
    + destruct (R x (Ha x eq_refl)) as (_ & _ & Ex).
      destruct (R y (Hb y eq_refl)) as (_ & _ & Ey).
      rewrite E in Ex. congruence.
    + destruct (R x (Ha x eq_refl)) as (Nx & _). now elim Nx.
    + destruct (R y (Hb y eq_refl)) as (Ny & _). now elim Ny.
    + reflexivity.
  - intros v ->. apply R, Ha. reflexivity.
Qed.

End CsvMore.

Section SearchWitnesses.
Import Demo Demo2.

Lemma search_reqinfo_ndjson_stream_witness :
  let s := Demo.request reqInfoQ None None None [] "ndjson" 0 0 in
  so_err (Search (X := Demo2.twoRows) s (Demo.sink [])) = None /\
  written (so_sink (Search (X := Demo2.twoRows) s (Demo.sink [])))
  = [EvJSON ("PutObject" ++ nl); EvJSON ("GetObject" ++ nl)].
Proof.
  intros s.
  exact (search_reqinfo_ndjson_stream (X := Demo2.twoRows) s (Demo.sink [])
           [["PutObject"; "b1"]; ["GetObject"; "b2"]]
           [mkReqInfoRow 1710496800000000000 "PutObject" "minio" "b1" "obj" 1500
                         "10.0.0.1" "req-1" "mc" "OK" 200 None (Some 42);
            mkReqInfoRow 1710496800000000000 "GetObject" "minio" "b2" "obj" 1500
                         "10.0.0.1" "req-1" "mc" "OK" 200 None (Some 42)]
           ["PutObject"; "GetObject"] []
           eq_refl eq_refl eq_refl eq_refl
           (List.Forall2_cons _ _ eq_refl
              (List.Forall2_cons _ _ eq_refl (List.Forall2_nil _)))
           eq_refl).
Defined.

Lemma search_raw_ndjson_stream_witness :
  let s := Demo.request rawQ None None None [] "ndjson" 0 0 in
  so_err (Search (X := Demo2.rawRows) s (Demo.sink [])) = None /\
  written (so_sink (Search (X := Demo2.rawRows) s (Demo.sink [])))
  = [EvJSON ("{a}" ++ nl); EvJSON ("{b}" ++ nl)].
Proof.
  intros s.
  exact (search_raw_ndjson_stream (X := Demo2.rawRows) s (Demo.sink [])
           [["{a}"]; ["{b}"]]
           [mkLogEventRawRow 1710496800000000000 "{a}";
            mkLogEventRawRow 1710496800000000000 "{b}"]
           ["{a}"; "{b}"] ["{a}"; "{b}"] []
           eq_refl eq_refl eq_refl eq_refl
           (List.Forall2_cons _ _ eq_refl
              (List.Forall2_cons _ _ eq_refl (List.Forall2_nil _)))
           (List.Forall2_cons _ _ eq_refl
              (List.Forall2_cons _ _ eq_refl (List.Forall2_nil _)))
           eq_refl).
Defined.

Lemma search_ndjson_partial_output_witness :
  let s := Demo.request reqInfoQ None None None [] "ndjson" 0 0 in
  so_err (Search (X := Demo2.brokenRow) s (Demo.sink []))
  = Some "Error accessing db: sqlscan: unexpected columns" /\
  written (so_sink (Search (X := Demo2.brokenRow) s (Demo.sink [])))
  = [EvJSON ("PutObject" ++ nl)].
Proof.
  intros s.
  pose proof (search_ndjson_partial_output (X := Demo2.brokenRow) s (Demo.sink [])
                [["PutObject"; "b1"]] ["broken"] [["GetObject"; "b2"]]
                [mkReqInfoRow 1710496800000000000 "PutObject" "minio" "b1" "obj" 1500
                              "10.0.0.1" "req-1" "mc" "OK" 200 None (Some 42)]
                ["PutObject"]
                eq_refl eq_refl eq_refl eq_refl
                (List.Forall2_cons _ _ eq_refl (List.Forall2_nil _))) as [H _].
  exact (H "sqlscan: unexpected columns" [] eq_refl eq_refl).
Defined.

Lemma search_page_all_or_nothing_witness :
  let s := Demo.request reqInfoQ None None None [] "" 0 10 in
  written (so_sink (Search (X := Demo2.twoRows) s
                      (Demo.sink [Some "write: broken pipe"])))
  = [].
Proof.
  intros s.
  pose proof (search_page_all_or_nothing (X := Demo2.twoRows) s
                (Demo.sink [Some "write: broken pipe"])
                ltac:(discriminate) ltac:(discriminate)) as H.
  exact H.
Defined.

Lemma search_text_free_of_bound_values_witness :
  option_map fst
    (searchQuery (Demo.request rawQ (Some 5) None None [(Spec.ColBucket, "b")] "" 0 10))
  = option_map fst
      (searchQuery (Demo.request rawQ (Some 77) None None [(Spec.ColBucket, "b")] "" 3 25)).
Proof.
  apply (search_text_free_of_bound_values (X := Demo.externals));
    [reflexivity | split; discriminate | split; reflexivity
    | reflexivity | reflexivity | reflexivity | reflexivity].
Defined.

Lemma search_raw_log_csv_witness :
  let s := Demo.request rawQ None None None [] "csv" 0 0 in
  so_err (Search (X := Demo2.brokenRawRow) s (Demo.sink []))
  = Some "Error accessing db: sqlscan: unexpected columns" /\
  so_sink (Search (X := Demo2.brokenRawRow) s (Demo.sink [])) = Demo.sink [].
Proof.
  intros s.
  pose proof (search_raw_log_csv (X := Demo2.brokenRawRow) s (Demo.sink [])
                [["{a}"]] ["x"; "y"] [["{b}"]]
                [@mkLogEventRawRow Demo.carrier 1710496800000000000 "{a}"]
                "sqlscan: unexpected columns"
                eq_refl eq_refl eq_refl eq_refl eq_refl) as H.
  cbv zeta in H. destruct H as [H _].
  exact (H ltac:(vm_compute; lia)).
Defined.

Lemma iPtrToStr_faithful_witness :
  iPtrToStr (Some 0) <> iPtrToStr None /\
  Placeholders.eat 0 (iPtrToStr (Some 0)) = 0.
Proof.
  assert (Ha : forall v, Some 0 = Some v -> 0 <= v) by (intros v E; injection E; lia).
  assert (Hb : forall v, @None Z = Some v -> 0 <= v) by (intros v E; discriminate).
  destruct (iPtrToStr_faithful (Some 0) None Ha Hb ltac:(discriminate)) as [H1 H2].
  split; [exact H1|]. exact (proj2 (proj2 (H2 0 eq_refl))).
Defined.

Lemma search_fails_before_output_witness :
  let s := Demo.request reqInfoQ None None None [] "csv" 0 0 in
  Search (X := Demo2.missing) s (Demo.sink [])
  = mkOutcome
      (Some ("Error querying db: " ++ Demo2.missingRelation))
      (Demo.sink []) [reqInfoQuery (X := Demo2.missing) s].
Proof.
  intros s.
  pose proof (search_fails_before_output (X := Demo2.missing) s (Demo.sink [])) as [H _].
  exact (H (reqInfoQuery (X := Demo2.missing) s) Demo2.missingRelation eq_refl eq_refl).
Defined.

End SearchWitnesses.
